(** * Lieferspatz client interaction logger: model and properties

    Shallow embedding of the TypeScript logging pipeline of the
    Lieferspatz front end:

    - [utils/logger.ts]    (class [UserInteractionLogger], second revision,
                            the one with debouncing, noise detection and the
                            CSV mirror),
    - [utils/csvLogger.ts] (class [CSVLogger]),
    - [components/LogViewer.tsx] (the log card of the dashboard).

    JavaScript values are modelled by the inductive type [JsVal]; a
    JavaScript string is a Rocq [string] whose characters stand for UTF-16
    code units, so that [String.length] and [substring] are the
    per-code-unit operations of JavaScript.  Numbers are restricted to the
    integers.  A thrown exception is an explicit [Throw] result. *)

From Stdlib Require Import ZArith String Ascii List Bool Lia DecimalString.
From stdpp Require Import base option strings gmap list.

Local Open Scope string_scope.
Local Open Scope Z_scope.
Local Open Scope list_scope.
Local Set Warnings "-register-all".

(* ===================================================================== *)
(** ** JavaScript values and the primitive operations the code uses *)
(* ===================================================================== *)

Module Js.

Inductive JsVal : Type :=
| JUndefined
| JNull
| JBool (b : bool)
| JNum (n : Z)
| JStr (s : string)
| JArr (xs : list JsVal)
| JObj (fields : list (string * JsVal)).

(** An object literal: own properties in insertion order. *)
Abbreviation Obj := (list (string * JsVal)).

Inductive JsError : Type := TypeError | SyntaxError.

(** Outcome of evaluating an expression that may throw. *)
Inductive Result (A : Type) : Type :=
| Ok (a : A)
| Throw (e : JsError).
Arguments Ok {A} a.
Arguments Throw {A} e.

Definition bind {A B} (m : Result A) (k : A -> Result B) : Result B :=
  match m with
  | Ok a => k a
  | Throw e => Throw e
  end.

(** [o.k] on an object literal; a missing property reads [undefined]. *)
Fixpoint get (k : string) (o : Obj) : JsVal :=
  match o with
  | [] => JUndefined
  | (k', v) :: o' => if String.eqb k k' then v else get k o'
  end.

(** ToBoolean, on the modelled fragment. *)
Definition truthy (v : JsVal) : bool :=
  match v with
  | JUndefined | JNull => false
  | JBool b => b
  | JNum n => negb (n =? 0)
  | JStr s => negb (String.eqb s "")
  | JArr _ | JObj _ => true
  end.

(** [a || b] *)
Definition or (a b : JsVal) : JsVal := if truthy a then a else b.

(** [v === 'lit'] and [v === n] *)
Definition is_str (v : JsVal) (lit : string) : bool :=
  match v with JStr s => String.eqb s lit | _ => false end.

Definition is_num (v : JsVal) (n : Z) : bool :=
  match v with JNum m => m =? n | _ => false end.

(** [v !== false] *)
Definition not_false (v : JsVal) : bool :=
  match v with JBool false => false | _ => true end.

(** [s.includes(needle)] on strings: [needle] occurs in [s]. *)
Fixpoint includes (s needle : string) : bool :=
  String.prefix needle s ||
  match s with
  | EmptyString => false
  | String _ s' => includes s' needle
  end.

(** [v.includes('lit')] for a value of unknown type.  Strings search for a
    substring, arrays for a strictly equal element; every other value has
    no callable [includes] and the call throws. *)
Definition includes_call (v : JsVal) (needle : string) : Result bool :=
  match v with
  | JStr s => Ok (includes s needle)
  | JArr xs => Ok (existsb (fun x => is_str x needle) xs)
  | _ => Throw TypeError
  end.

(** [v?.includes('lit')] *)
Definition opt_includes (v : JsVal) (needle : string) : Result JsVal :=
  match v with
  | JUndefined | JNull => Ok JUndefined
  | _ => bind (includes_call v needle) (fun b => Ok (JBool b))
  end.

(** [v?.length] *)
Definition opt_length (v : JsVal) : JsVal :=
  match v with
  | JStr s => JNum (Z.of_nat (String.length s))
  | JArr xs => JNum (Z.of_nat (List.length xs))
  | JObj o => get "length" o
  | _ => JUndefined
  end.

(** [arr.join(sep)] on an array of strings. *)
Fixpoint join (sep : string) (l : list string) : string :=
  match l with
  | [] => ""
  | [x] => x
  | x :: l' => x +:+ sep +:+ join sep l'
  end.

Definition show_Z (n : Z) : string := NilEmpty.string_of_int (Z.to_int n).

(** Escaping done by [JSON.stringify] inside a string literal. *)
Definition hex_digit (n : nat) : ascii :=
  match n with
  | 0 => "0" | 1 => "1" | 2 => "2" | 3 => "3" | 4 => "4" | 5 => "5"
  | 6 => "6" | 7 => "7" | 8 => "8" | 9 => "9" | 10 => "a" | 11 => "b"
  | 12 => "c" | 13 => "d" | 14 => "e" | _ => "f"
  end%char%nat.

(** The double quote, code unit 34. *)
Definition dquote : ascii := "034"%char.

Definition escape_char (c : ascii) : string :=
  let n := nat_of_ascii c in
  if Ascii.eqb c dquote then String "\" (String dquote "")
  else if Ascii.eqb c "\" then "\\"
  else if (n =? 8)%nat then "\b"
  else if (n =? 9)%nat then "\t"
  else if (n =? 10)%nat then "\n"
  else if (n =? 12)%nat then "\f"
  else if (n =? 13)%nat then "\r"
  else if (n <? 32)%nat then
    "\u00" +:+ String (hex_digit (n / 16)) (String (hex_digit (n mod 16)) "")
  else String c "".

Fixpoint escape (s : string) : string :=
  match s with
  | EmptyString => ""
  | String c s' => escape_char c +:+ escape s'
  end.

Definition quote (s : string) : string :=
  String dquote (escape s +:+ String dquote "").

(** [JSON.stringify(v)]; [None] is the result [undefined].  A property
    whose value serialises to [undefined] is left out of its object, and
    such an array element is written [null]. *)
Fixpoint stringify (v : JsVal) : option string :=
  match v with
  | JUndefined => None
  | JNull => Some "null"
  | JBool b => Some (if b then "true" else "false")
  | JNum n => Some (show_Z n)
  | JStr s => Some (quote s)
  | JArr xs =>
      Some ("[" +:+ join "," (map (fun x => default "null" (stringify x)) xs)
                +:+ "]")
  | JObj o =>
      Some ("{" +:+ join ","
              (omap (fun kv => match stringify (snd kv) with
                               | Some s => Some (quote (fst kv) +:+ ":" +:+ s)
                               | None => None
                               end) o)
                +:+ "}")
  end.

(** ToString, as applied by [Array.prototype.join] to its elements. *)
Fixpoint toString (v : JsVal) : string :=
  match v with
  | JUndefined => "undefined"
  | JNull => "null"
  | JBool b => if b then "true" else "false"
  | JNum n => show_Z n
  | JStr s => s
  | JArr xs =>
      join "," (map (fun x => match x with
                              | JUndefined | JNull => ""
                              | _ => toString x
                              end) xs)
  | JObj _ => "[object Object]"
  end.

(** [{...o, k: v}] and a spread define a property: an existing one keeps
    its place and takes the new value, a new one goes last.  (Names that
    are array indices would be listed first by JavaScript; the statements
    below read properties by name only.) *)
Fixpoint define (k : string) (v : JsVal) (o : Obj) : Obj :=
  match o with
  | [] => [(k, v)]
  | (k', v') :: o' =>
      if String.eqb k k' then (k, v) :: o' else (k', v') :: define k v o'
  end.

(** [{...o, ...extra}] *)
Definition spread (o extra : Obj) : Obj :=
  fold_left (fun acc kv => define (fst kv) (snd kv) acc) extra o.

(** [toLowerCase] on code units below 256: the letters A-Z and the
    capital letters of Latin-1 (192-222 without the multiplication sign
    215) move up by 32. *)
Definition lower_unit (c : ascii) : ascii :=
  let n := nat_of_ascii c in
  if ((65 <=? n) && (n <=? 90) || (192 <=? n) && (n <=? 214)
      || (216 <=? n) && (n <=? 222))%nat
  then ascii_of_nat (n + 32) else c.

Fixpoint toLowerCase (s : string) : string :=
  match s with
  | EmptyString => ""
  | String c s' => String (lower_unit c) (toLowerCase s')
  end.

(** White space and line terminators below 256, as [trim] removes them. *)
Definition is_space (c : ascii) : bool :=
  let n := nat_of_ascii c in
  ((9 <=? n) && (n <=? 13) || (n =? 32) || (n =? 160))%nat.

Fixpoint trimStart (s : string) : string :=
  match s with
  | EmptyString => ""
  | String c s' => if is_space c then trimStart s' else s
  end.

Fixpoint reverse (s acc : string) : string :=
  match s with
  | EmptyString => acc
  | String c s' => reverse s' (String c acc)
  end.

(** [s.trim()] *)
Definition trim (s : string) : string :=
  reverse (trimStart (reverse (trimStart s) "")) "".

End Js.

Import Js.

(** Sequencing of evaluations that may throw: [let* x := m in k] runs [m]
    and, unless it threw, continues with [k]. *)
Notation "'let*' x ':=' m 'in' k" := (Js.bind m (fun x => k))
  (at level 10, x name, m at level 100, k at level 200, only parsing).

(* ===================================================================== *)
(** ** Records on the wire *)
(* ===================================================================== *)

(** Values read from the browser while one record is built:
    [Date.now()], [Math.random().toString(36).substr(2, 9)],
    [new Date().toISOString()], [window.location], [navigator] and the
    window size.  They are inputs of the model. *)
Record Ambient := {
  id_now : Z;
  id_random : string;
  timestamp_iso : string;
  attempt_now : Z;
  attempt_random : string;
  event_time_iso : string;
  location_pathname : string;
  location_href : string;
  navigator_userAgent : string;
  innerWidth : Z;
  innerHeight : Z;
  csv_iso : string
}.

Module Interaction.

Record Viewport := { width : Z; height : Z }.

(** [interface UserInteraction] of logger.ts.  A field whose value is
    copied or derived from the untyped [details] payload is a [JsVal]. *)
Record UserInteraction := {
  id : string;
  timestamp : string;
  event_name : string;
  attempt_id : string;
  session_id : string;
  browser_id : string;
  route : string;
  submit_trigger : JsVal;
  client_validation_passed : bool;
  username_length : JsVal;
  password_length : JsVal;
  autofill_used : JsVal;
  caps_lock_on : JsVal;
  perf_submit_latency_ms : JsVal;
  event_time : string;
  app_version : string;
  schema_version : JsVal;
  url : string;
  userAgent : string;
  viewport : Viewport;
  inputName : JsVal;
  inputType : JsVal;
  inputValue : JsVal;
  inputId : JsVal;
  finalValueLength : JsVal;
  system_noise : bool;
  noise_reason : option string;
  component : JsVal;
  userId : option string;
  field_presence_map : JsVal;
  details : Obj
}.

Definition of_option (o : option string) : JsVal :=
  match o with Some s => JStr s | None => JUndefined end.

(** The record as a JavaScript object, properties in the order of the
    object literal in [logInteraction]. *)
Definition as_object (r : UserInteraction) : Obj :=
  [ ("id", JStr (id r));
    ("timestamp", JStr (timestamp r));
    ("event_name", JStr (event_name r));
    ("attempt_id", JStr (attempt_id r));
    ("session_id", JStr (session_id r));
    ("browser_id", JStr (browser_id r));
    ("route", JStr (route r));
    ("submit_trigger", submit_trigger r);
    ("client_validation_passed", JBool (client_validation_passed r));
    ("username_length", username_length r);
    ("password_length", password_length r);
    ("autofill_used", autofill_used r);
    ("caps_lock_on", caps_lock_on r);
    ("perf", JObj [("submit_latency_ms", perf_submit_latency_ms r)]);
    ("event_time", JStr (event_time r));
    ("app_version", JStr (app_version r));
    ("schema_version", schema_version r);
    ("url", JStr (url r));
    ("userAgent", JStr (userAgent r));
    ("viewport", JObj [("width", JNum (width (viewport r)));
                       ("height", JNum (height (viewport r)))]);
    ("inputName", inputName r);
    ("inputType", inputType r);
    ("inputValue", inputValue r);
    ("inputId", inputId r);
    ("finalValueLength", finalValueLength r);
    ("system_noise", JBool (system_noise r));
    ("noise_reason", of_option (noise_reason r));
    ("component", component r);
    ("userId", of_option (userId r));
    ("field_presence_map", field_presence_map r);
    ("details", JObj (details r)) ].

(** [JSON.stringify(record)] *)
Definition serialize (r : UserInteraction) : string :=
  default "" (stringify (JObj (as_object r))).

End Interaction.

Export Interaction.

(** A request handed to [fetch]. *)
Inductive Request : Type :=
| PostLogs (logs : list UserInteraction)          (* POST /api/logs *)
| PostCsv (csv_data headers : list string).       (* POST /api/logs/csv *)

(** How a [fetch] ends: a response with a status, or a rejected promise. *)
Inductive Outcome : Type :=
| Response (status : Z)
| NetworkError.

(** [response.ok] *)
Definition response_ok (status : Z) : bool := (200 <=? status) && (status <=? 299).

Definition delivered (o : Outcome) : bool :=
  match o with
  | Response status => response_ok status
  | NetworkError => false
  end.

(* ===================================================================== *)
(** ** csvLogger.ts *)
(* ===================================================================== *)

Module CSVLogger.

Record CSVLogEntry := {
  timestamp : JsVal;
  event : JsVal;
  session_id : JsVal;
  route : JsVal;
  method : JsVal;
  status_code : JsVal;
  user_id : JsVal;
  ip_address : JsVal;
  component : JsVal;
  action : JsVal;
  browser_id : JsVal;
  attempt_id : JsVal;
  details : JsVal
}.

Record t := { csvBuffer : list CSVLogEntry }.

Definition bufferSize : nat := 10.

Definition csvHeaders : list string :=
  [ "timestamp"; "event"; "session_id"; "route"; "method"; "status_code";
    "user_id"; "ip_address"; "component"; "action"; "browser_id";
    "attempt_id"; "details" ].

(** [data.details?.k]: [data.details] is absent or an object here. *)
Definition details_prop (data : Obj) (k : string) : JsVal :=
  match get "details" data with
  | JObj o => get k o
  | _ => JUndefined
  end.

(** [formatToCSVEntry(data)].  [iso] is [new Date().toISOString()]. *)
Definition formatToCSVEntry (iso : string) (data : Obj) : CSVLogEntry :=
  {| timestamp := Js.or (get "timestamp" data) (JStr iso);
     event := Js.or (get "event" data) (Js.or (get "action" data) (JStr "unknown"));
     session_id :=
       Js.or (get "session_id" data) (Js.or (get "sessionId" data) (JStr "unknown"));
     route := Js.or (get "route" data) (Js.or (get "url" data) (JStr "unknown"));
     method := Js.or (details_prop data "method") (Js.or (get "method" data) (JStr ""));
     status_code :=
       Js.or (details_prop data "status_code")
             (Js.or (get "status_code" data) (JStr ""));
     user_id :=
       Js.or (details_prop data "user_id")
             (Js.or (get "userId" data) (Js.or (get "browser_id" data) (JStr "")));
     ip_address :=
       Js.or (details_prop data "ip_address")
             (Js.or (get "ip_address" data) (JStr ""));
     component :=
       Js.or (get "component" data) (Js.or (details_prop data "component") (JStr ""));
     action := Js.or (get "action" data) (Js.or (get "event" data) (JStr ""));
     browser_id := Js.or (get "browser_id" data) (Js.or (get "userId" data) (JStr ""));
     attempt_id := Js.or (get "attempt_id" data) (JStr "");
     details :=
       if truthy (get "details" data)
       then of_option (stringify (get "details" data))
       else JStr "" |}.

(** [entry[header]] *)
Definition column (header : string) (e : CSVLogEntry) : JsVal :=
  if String.eqb header "timestamp" then timestamp e
  else if String.eqb header "event" then event e
  else if String.eqb header "session_id" then session_id e
  else if String.eqb header "route" then route e
  else if String.eqb header "method" then method e
  else if String.eqb header "status_code" then status_code e
  else if String.eqb header "user_id" then user_id e
  else if String.eqb header "ip_address" then ip_address e
  else if String.eqb header "component" then component e
  else if String.eqb header "action" then action e
  else if String.eqb header "browser_id" then browser_id e
  else if String.eqb header "attempt_id" then attempt_id e
  else if String.eqb header "details" then details e
  else JUndefined.

(** One CSV line:
    [csvHeaders.map(header => entry[header] || '').join(',')]. *)
Definition line (e : CSVLogEntry) : string :=
  join "," (map (fun header => toString (Js.or (column header e) (JStr ""))) csvHeaders).

(** [flush()] up to its [await]: nothing happens on an empty buffer,
    otherwise the whole buffer is posted.  The buffer itself is only
    touched once the request has settled. *)
Definition flush (this : t) : t * list Request :=
  match csvBuffer this with
  | [] => (this, [])
  | _ => (this, [PostCsv (map line (csvBuffer this)) csvHeaders])
  end.

(** [flush()] after its [await]: the buffer is emptied on success and
    kept on failure (the error is only written to the console). *)
Definition flush_settled (o : Outcome) (this : t) : t :=
  if delivered o then {| csvBuffer := [] |} else this.

(** [logToCSV(data)] *)
Definition logToCSV (iso : string) (data : Obj) (this : t) : t * list Request :=
  let csvEntry := formatToCSVEntry iso data in
  let this := {| csvBuffer := csvBuffer this ++ [csvEntry] |} in
  if (bufferSize <=? List.length (csvBuffer this))%nat
  then flush this
  else (this, []).

Definition clearBuffer (this : t) : t := {| csvBuffer := [] |}.

Definition getBufferSize (this : t) : nat := List.length (csvBuffer this).

End CSVLogger.

(* ===================================================================== *)
(** ** The part of the DOM the logger reads *)
(* ===================================================================== *)

Module Dom.

(** An element as the logger sees it: the [id] and [name] attributes
    (empty when absent), the tag name, the [type] property (absent on
    elements that are no form controls) and the current value. *)
Record Element := {
  id : string;
  name : string;
  tagName : string;
  type : option string;
  value : string
}.

(** A name that can be pasted between the quotes of an attribute selector
    without changing what the selector means: no quote, backslash or line
    break. *)
Definition plain_char (c : ascii) : bool :=
  negb (Ascii.eqb c dquote || Ascii.eqb c "\"
        || (nat_of_ascii c =? 10)%nat || (nat_of_ascii c =? 12)%nat
        || (nat_of_ascii c =? 13)%nat).

Definition plain (s : string) : bool := forallb plain_char (list_ascii_of_string s).

(** [[name=fieldName], [id=fieldName]] *)
Definition selected (fieldName : string) (e : Element) : bool :=
  negb (String.eqb fieldName "")
  && (String.eqb (name e) fieldName || String.eqb (id e) fieldName).

(** [document.querySelector] on the selector that
    [logDebouncedInputChange] builds from [fieldName]: the first element in
    document order that carries the name or the id.  For a name that is not
    [plain] the selector text is no longer the intended one; the model lets
    the call throw, as the parser does on an unbalanced quote. *)
Definition querySelector (document : list Element) (fieldName : string)
  : Result (option Element) :=
  if plain fieldName
  then Ok (List.find (selected fieldName) document)
  else Throw SyntaxError.

End Dom.

(* ===================================================================== *)
(** ** logger.ts: the noise classifier *)
(* ===================================================================== *)

Module UserInteractionLogger.

(** The value a field holds between two input events. *)
Record InputData := { value : string; fieldName : string }.

(** The private fields of [class UserInteractionLogger].  The two [Map]s
    of the debouncer are finite maps from the field key; a timer is known
    by the handle [setTimeout] returned. *)
Record t := {
  sessionId : string;
  userId : option string;
  isEnabled : bool;
  logQueue : list UserInteraction;
  inputChangeTimers : gmap string nat;
  inputChangeValues : gmap string InputData;
  logSystemNoise : bool;
  filterSystemNoise : bool;
  strictBusinessAPIFiltering : bool;
  csvLogger : CSVLogger.t
}.

Definition batchSize : nat := 10.
Definition flushInterval : nat := 5000.

(** The result type [{ isNoise: boolean; reason?: string }]. *)
Record NoiseCheck := { isNoise : bool; reason : option string }.

Definition noise (why : string) : NoiseCheck := {| isNoise := true; reason := Some why |}.
Definition not_noise : NoiseCheck := {| isNoise := false; reason := None |}.

(** [event === 'http_request' && details.url?.includes(needle)] *)
Definition http_url_includes (event : string) (details : Obj) (needle : string)
  : Result bool :=
  if String.eqb event "http_request"
  then let* v := opt_includes (get "url" details) needle in Ok (truthy v)
  else Ok false.

(** [isSystemNoise(event, details)], rule by rule in source order. *)
Definition isSystemNoise (event : string) (details : Obj) : Result NoiseCheck :=
  if String.eqb event "http_request" && is_str (get "method" details) "OPTIONS"
  then Ok (noise "cors_preflight")
  else if String.eqb event "navigation" && is_num (get "statusCode" details) 308
  then Ok (noise "permanent_redirect")
  else if String.eqb event "navigation" && is_num (get "statusCode" details) 301
  then Ok (noise "moved_permanently")
  else if String.eqb event "navigation" && is_num (get "statusCode" details) 302
  then Ok (noise "temporary_redirect")
  else if String.eqb event "http_request" && is_str (get "trigger" details) "browser"
  then Ok (noise "browser_initiated")
  else
    let* favicon := http_url_includes event details "/favicon" in
    if favicon then Ok (noise "favicon_request") else
    let* health := http_url_includes event details "/health" in
    if health then Ok (noise "health_check") else
    let* logs := http_url_includes event details "/api/logs" in
    if logs then Ok (noise "logging_endpoint") else
    let* stats := http_url_includes event details "/api/logs/stats" in
    if stats then Ok (noise "logging_stats") else
    let* socket := http_url_includes event details "/socket.io" in
    if socket then Ok (noise "websocket_connection") else
    Ok not_noise.

Definition businessEndpoints : list string :=
  [ "/api/customer/"; "/api/customer/login"; "/api/customer/register";
    "/api/customer/orders"; "/api/customer/profile"; "/api/customer/balance";
    "/api/restaurant/"; "/api/restaurant/login"; "/api/restaurant/register";
    "/api/restaurant/orders"; "/api/restaurant/menu"; "/api/restaurant/profile";
    "/api/restaurant_details/"; "/api/restaurant_details/nearby";
    "/api/orders/"; "/api/orders/create"; "/api/orders/update"; "/api/orders/status";
    "/api/menu/"; "/api/menu/items"; "/api/menu/categories";
    "/api/payment/"; "/api/payment/process"; "/api/payment/status";
    "/api/delivery/"; "/api/delivery/status"; "/api/delivery/track";
    "/api/user/"; "/api/user/profile"; "/api/user/settings";
    "/api/search/"; "/api/search/restaurants"; "/api/search/menu";
    "/api/reviews/"; "/api/reviews/submit"; "/api/reviews/list" ].

(** [endpoints.some(endpoint => url.includes(endpoint))], stopping at the
    first hit as [some] does. *)
Fixpoint some_includes (url : JsVal) (endpoints : list string) : Result bool :=
  match endpoints with
  | [] => Ok false
  | endpoint :: rest =>
      let* hit := includes_call url endpoint in
      if hit then Ok true else some_includes url rest
  end.

(** [isBusinessAPI(url)].  The parameter is declared a string but receives
    [details.url] unchecked. *)
Definition isBusinessAPI (url : JsVal) : Result bool :=
  some_includes url businessEndpoints.

(** [isSystemNoiseEnhanced(event, details)] *)
Definition isSystemNoiseEnhanced (this : t) (event : string) (details : Obj)
  : Result NoiseCheck :=
  let* basicNoise := isSystemNoise event details in
  if isNoise basicNoise then Ok basicNoise
  else if strictBusinessAPIFiltering this
          && String.eqb event "http_request"
          && truthy (get "url" details)
  then
    let* business := isBusinessAPI (get "url" details) in
    if negb business then Ok (noise "non_business_api") else Ok not_noise
  else Ok not_noise.

(* ===================================================================== *)
(** ** logger.ts: building, queueing and flushing records *)
(* ===================================================================== *)

Definition set_logQueue (q : list UserInteraction) (this : t) : t :=
  {| sessionId := sessionId this; userId := userId this; isEnabled := isEnabled this;
     logQueue := q;
     inputChangeTimers := inputChangeTimers this;
     inputChangeValues := inputChangeValues this;
     logSystemNoise := logSystemNoise this; filterSystemNoise := filterSystemNoise this;
     strictBusinessAPIFiltering := strictBusinessAPIFiltering this;
     csvLogger := csvLogger this |}.

Definition set_csvLogger (c : CSVLogger.t) (this : t) : t :=
  {| sessionId := sessionId this; userId := userId this; isEnabled := isEnabled this;
     logQueue := logQueue this;
     inputChangeTimers := inputChangeTimers this;
     inputChangeValues := inputChangeValues this;
     logSystemNoise := logSystemNoise this; filterSystemNoise := filterSystemNoise this;
     strictBusinessAPIFiltering := strictBusinessAPIFiltering this;
     csvLogger := c |}.

Definition set_inputChangeTimers (m : gmap string nat) (this : t) : t :=
  {| sessionId := sessionId this; userId := userId this; isEnabled := isEnabled this;
     logQueue := logQueue this;
     inputChangeTimers := m;
     inputChangeValues := inputChangeValues this;
     logSystemNoise := logSystemNoise this; filterSystemNoise := filterSystemNoise this;
     strictBusinessAPIFiltering := strictBusinessAPIFiltering this;
     csvLogger := csvLogger this |}.

Definition set_inputChangeValues (m : gmap string InputData) (this : t) : t :=
  {| sessionId := sessionId this; userId := userId this; isEnabled := isEnabled this;
     logQueue := logQueue this;
     inputChangeTimers := inputChangeTimers this;
     inputChangeValues := m;
     logSystemNoise := logSystemNoise this; filterSystemNoise := filterSystemNoise this;
     strictBusinessAPIFiltering := strictBusinessAPIFiltering this;
     csvLogger := csvLogger this |}.

Definition set_isEnabled (b : bool) (this : t) : t :=
  {| sessionId := sessionId this; userId := userId this; isEnabled := b;
     logQueue := logQueue this;
     inputChangeTimers := inputChangeTimers this;
     inputChangeValues := inputChangeValues this;
     logSystemNoise := logSystemNoise this; filterSystemNoise := filterSystemNoise this;
     strictBusinessAPIFiltering := strictBusinessAPIFiltering this;
     csvLogger := csvLogger this |}.

Definition enable (this : t) : t := set_isEnabled true this.
Definition disable (this : t) : t := set_isEnabled false this.
Definition clearQueue (this : t) : t := set_logQueue [] this.
Definition getQueueSize (this : t) : nat := List.length (logQueue this).

(** [flushLogs()] up to its [await]: an empty queue is left alone;
    otherwise the queue is copied, emptied, and the copy handed to [fetch].
    (The body is serialised inside the [try]; the modelled values have no
    cycles, so that step cannot throw.) *)
Definition flushLogs (this : t) : t * list Request :=
  match logQueue this with
  | [] => (this, [])
  | logsToSend => (set_logQueue [] this, [PostLogs logsToSend])
  end.

(** [flushLogs()] after its [await], run on the logger as it is by then:
    both the [!response.ok] branch and the [catch] branch do
    [this.logQueue.unshift(...logsToSend)]; nothing is rethrown. *)
Definition flushLogs_settled (logsToSend : list UserInteraction) (o : Outcome)
    (this : t) : t :=
  if delivered o then this
  else set_logQueue (logsToSend ++ logQueue this) this.

(** What one call of [logInteraction] did besides changing the logger:
    the record it pushed, if any, and the requests it handed to [fetch]. *)
Record Done := { pushed : option UserInteraction; fetched : list Request }.

Definition nothing : Done := {| pushed := None; fetched := [] |}.

(** The object literal [interaction] of [logInteraction]. *)
Definition build (a : Ambient) (this : t) (noiseCheck : NoiseCheck)
    (event : string) (details : Obj) : UserInteraction :=
  {| id := "log_" +:+ show_Z (id_now a) +:+ "_" +:+ id_random a;
     timestamp := timestamp_iso a;
     event_name := event;
     attempt_id := "log_" +:+ show_Z (attempt_now a) +:+ "_" +:+ attempt_random a;
     session_id := sessionId this;
     browser_id :=
       match userId this with
       | Some u => if String.eqb u "" then "anonymous" else u
       | None => "anonymous"
       end;
     route := location_pathname a;
     submit_trigger := Js.or (get "trigger" details) (JStr "unknown");
     client_validation_passed := not_false (get "validation" details);
     username_length := Js.or (opt_length (get "username" details)) (JNum 0);
     password_length := Js.or (opt_length (get "password" details)) (JNum 0);
     autofill_used := Js.or (get "autofill" details) (JBool false);
     caps_lock_on := Js.or (get "capsLock" details) (JBool false);
     perf_submit_latency_ms := Js.or (get "latency" details) (JNum 0);
     event_time := event_time_iso a;
     app_version := "web-1.4.2";
     schema_version := Js.or (get "schema_version" details) (JStr "frontend.v1");
     url := location_href a;
     userAgent := navigator_userAgent a;
     viewport := {| width := innerWidth a; height := innerHeight a |};
     inputName := get "inputName" details;
     inputType := get "inputType" details;
     inputValue := get "inputValue" details;
     inputId := get "inputId" details;
     finalValueLength := get "finalValueLength" details;
     system_noise := isNoise noiseCheck;
     noise_reason := reason noiseCheck;
     component := Js.or (get "component" details) (JStr "unknown");
     Interaction.userId := userId this;
     field_presence_map := get "field_presence_map" details;
     details := details |}.

(** [logInteraction(event, details)] *)
Definition logInteraction (a : Ambient) (event : string) (details : Obj) (this : t)
  : Result (t * Done) :=
  if negb (isEnabled this) then Ok (this, nothing) else
  let* noiseCheck := isSystemNoiseEnhanced this event details in
  if isNoise noiseCheck && negb (logSystemNoise this) then Ok (this, nothing) else
  let interaction := build a this noiseCheck event details in
  let this := set_logQueue (logQueue this ++ [interaction]) this in
  let (csv, csvRequests) :=
    CSVLogger.logToCSV (csv_iso a) (as_object interaction) (csvLogger this) in
  let this := set_csvLogger csv this in
  if (batchSize <=? List.length (logQueue this))%nat
  then
    let (this, requests) := flushLogs this in
    Ok (this, {| pushed := Some interaction; fetched := csvRequests ++ requests |})
  else Ok (this, {| pushed := Some interaction; fetched := csvRequests |}).

(* ===================================================================== *)
(** ** logger.ts: debounced input logging, with the browser's timers *)
(* ===================================================================== *)

(** A pending [setTimeout(() => this.logDebouncedInputChange(fieldKey), 500)]. *)
Record Timer := { handle : nat; due : nat; callbackKey : string }.

(** The logger together with what it lives in: the clock and timer table
    of the event loop and the document.  [ambient n] are the browser
    readings taken for the [n]-th record; [emitted] lists every record
    pushed so far and [sent] every request handed to [fetch], oldest
    first. *)
Record World := {
  logger : t;
  clock : nat;
  pending : list Timer;
  nextHandle : nat;
  document : list Dom.Element;
  ambient : nat -> Ambient;
  emitted : list UserInteraction;
  sent : list Request
}.

Definition set_logger (l : t) (w : World) : World :=
  {| logger := l; clock := clock w; pending := pending w; nextHandle := nextHandle w;
     document := document w; ambient := ambient w; emitted := emitted w; sent := sent w |}.

Definition set_pending (p : list Timer) (w : World) : World :=
  {| logger := logger w; clock := clock w; pending := p; nextHandle := nextHandle w;
     document := document w; ambient := ambient w; emitted := emitted w; sent := sent w |}.

Definition set_clock (c : nat) (w : World) : World :=
  {| logger := logger w; clock := c; pending := pending w; nextHandle := nextHandle w;
     document := document w; ambient := ambient w; emitted := emitted w; sent := sent w |}.

(** [clearTimeout(h)] *)
Definition clearTimeout (h : nat) (w : World) : World :=
  set_pending (List.filter (fun tm => negb (handle tm =? h)%nat) (pending w)) w.

(** Timers are kept in firing order: by due time, and among equal due
    times in the order they were set. *)
Fixpoint schedule (tm : Timer) (p : list Timer) : list Timer :=
  match p with
  | [] => [tm]
  | tm' :: p' =>
      if (due tm' <=? due tm)%nat then tm' :: schedule tm p' else tm :: tm' :: p'
  end.

(** [setTimeout(callback, delay)]: the new handle and the world with the
    timer pending. *)
Definition setTimeout (key : string) (delay : nat) (w : World) : nat * World :=
  let h := nextHandle w in
  (h, {| logger := logger w; clock := clock w;
         pending := schedule {| handle := h; due := clock w + delay; callbackKey := key |}
                             (pending w);
         nextHandle := S h;
         document := document w; ambient := ambient w;
         emitted := emitted w; sent := sent w |}).

(** [this.logInteraction(event, details)] run in the world. *)
Definition log (event : string) (details : Obj) (w : World) : Result World :=
  let* r := logInteraction (ambient w (List.length (emitted w))) event details (logger w) in
  let (this, done) := r in
  Ok {| logger := this; clock := clock w; pending := pending w; nextHandle := nextHandle w;
        document := document w; ambient := ambient w;
        emitted := emitted w ++ option_list (pushed done);
        sent := sent w ++ fetched done |}.

(** [a || b] on strings *)
Definition or_else (a b : string) : string := if String.eqb a "" then b else a.

(** [`${target.id || target.name || target.tagName}_${target.type}`] *)
Definition fieldKey (target : Dom.Element) : string :=
  or_else (Dom.id target) (or_else (Dom.name target) (Dom.tagName target))
  +:+ "_" +:+ default "undefined" (Dom.type target).

(** [type === 'password' ? '[HIDDEN]' : v.substring(0, 100)] *)
Definition shown (type : option string) (v : string) : string :=
  match type with
  | Some ty => if String.eqb ty "password" then "[HIDDEN]" else substring 0 100 v
  | None => substring 0 100 v
  end.

Definition length_of (s : string) : JsVal := JNum (Z.of_nat (String.length s)).

(** [debouncedInputChange(target)] *)
Definition debouncedInputChange (target : Dom.Element) (w : World) : World :=
  let fieldKey := fieldKey target in
  let w :=
    match inputChangeTimers (logger w) !! fieldKey with
    | Some h => clearTimeout h w
    | None => w
    end in
  let w :=
    set_logger
      (set_inputChangeValues
         (<[fieldKey := {| value := Dom.value target;
                           fieldName := or_else (Dom.name target)
                                          (or_else (Dom.id target) (Dom.tagName target)) |}]>
            (inputChangeValues (logger w)))
         (logger w)) w in
  let (timer, w) := setTimeout fieldKey 500 w in
  set_logger
    (set_inputChangeTimers (<[fieldKey := timer]> (inputChangeTimers (logger w))) (logger w))
    w.

(** The payload of the record written when the debounce timer expires. *)
Definition debounced_details (inputData : InputData) (target : Dom.Element) : Obj :=
  [ ("trigger", JStr "debounced_input");
    ("inputName", JStr (fieldName inputData));
    ("inputType", of_option (Dom.type target));
    ("inputValue", JStr (shown (Dom.type target) (value inputData)));
    ("inputId", JStr (Dom.id target));
    ("finalValueLength", length_of (value inputData));
    ("schema_version", JStr "input_change.v1") ].

(** [logDebouncedInputChange(fieldKey)] *)
Definition logDebouncedInputChange (fieldKey : string) (w : World) : Result World :=
  match inputChangeValues (logger w) !! fieldKey with
  | None => Ok w
  | Some inputData =>
      let* found := Dom.querySelector (document w) (fieldName inputData) in
      match found with
      | None => Ok w
      | Some target =>
          let* w := log "input_change" (debounced_details inputData target) w in
          let w :=
            set_logger
              (set_inputChangeValues (delete fieldKey (inputChangeValues (logger w)))
                 (logger w)) w in
          Ok (set_logger
                (set_inputChangeTimers (delete fieldKey (inputChangeTimers (logger w)))
                   (logger w)) w)
      end
  end.

(** [storedData?.value || target.value] *)
Definition finalValue (storedData : option InputData) (target : Dom.Element) : string :=
  match storedData with
  | Some d => or_else (value d) (Dom.value target)
  | None => Dom.value target
  end.

(** The payload of the record written on blur. *)
Definition blur_details (target : Dom.Element) (finalValue : string) : Obj :=
  [ ("trigger", JStr "blur");
    ("inputName",
       JStr (or_else (Dom.name target) (or_else (Dom.id target) (Dom.tagName target))));
    ("inputType", of_option (Dom.type target));
    ("inputValue", JStr (shown (Dom.type target) finalValue));
    ("inputId", JStr (Dom.id target));
    ("finalValueLength", length_of finalValue);
    ("schema_version", JStr "input_change.v1") ].

(** [logInputChangeOnBlur(target)] *)
Definition logInputChangeOnBlur (target : Dom.Element) (w : World) : Result World :=
  let fieldKey := fieldKey target in
  let w :=
    match inputChangeTimers (logger w) !! fieldKey with
    | Some h =>
        let w := clearTimeout h w in
        set_logger
          (set_inputChangeTimers (delete fieldKey (inputChangeTimers (logger w)))
             (logger w)) w
    | None => w
    end in
  let storedData := inputChangeValues (logger w) !! fieldKey in
  let finalValue := finalValue storedData target in
  let* w := log "input_change" (blur_details target finalValue) w in
  Ok (set_logger
        (set_inputChangeValues (delete fieldKey (inputChangeValues (logger w)))
           (logger w)) w).

(** A timer fires: it leaves the timer table and its callback runs.  An
    exception escaping the callback ends the callback only. *)
Definition fire (tm : Timer) (w : World) : World :=
  let w := clearTimeout (handle tm) w in
  match logDebouncedInputChange (callbackKey tm) w with
  | Ok w' => w'
  | Throw _ => w
  end.

(** The event loop is idle for [ms] milliseconds: every timer that has come
    due fires, in firing order, unless it was cancelled meanwhile. *)
Definition advance (ms : nat) (w : World) : World :=
  let w := set_clock (clock w + ms) w in
  fold_left
    (fun w tm =>
       if existsb (fun tm' => (handle tm' =? handle tm)%nat) (pending w)
       then fire tm w else w)
    (List.filter (fun tm => (due tm <=? clock w)%nat) (pending w))
    w.

(** What happens to a field, as the debouncer sees it. *)
Inductive Action : Type :=
| Input (target : Dom.Element)     (* an input event reaches the listener *)
| Blur (target : Dom.Element)      (* a blur event reaches the listener *)
| Wait (ms : nat).                 (* nothing happens for [ms] milliseconds *)

(** An exception thrown by a listener is reported by the browser and the
    world stays as the listener left it; [logInputChangeOnBlur] can only
    throw before it changed anything but the timer table. *)
Definition step (act : Action) (w : World) : World :=
  match act with
  | Input target => debouncedInputChange target w
  | Blur target =>
      match logInputChangeOnBlur target w with
      | Ok w' => w'
      | Throw _ =>
          match inputChangeTimers (logger w) !! fieldKey target with
          | Some h =>
              let w := clearTimeout h w in
              set_logger
                (set_inputChangeTimers
                   (delete (fieldKey target) (inputChangeTimers (logger w)))
                   (logger w)) w
          | None => w
          end
      end
  | Wait ms => advance ms w
  end.

Definition run (acts : list Action) (w : World) : World := fold_left (fun w act => step act w) acts w.

(* ===================================================================== *)
(** ** logger.ts: the rest of the public interface *)
(* ===================================================================== *)

(** [setUserId(userId)] *)
Definition setUserId (u : string) (this : t) : t :=
  {| sessionId := sessionId this; userId := Some u; isEnabled := isEnabled this;
     logQueue := logQueue this;
     inputChangeTimers := inputChangeTimers this;
     inputChangeValues := inputChangeValues this;
     logSystemNoise := logSystemNoise this; filterSystemNoise := filterSystemNoise this;
     strictBusinessAPIFiltering := strictBusinessAPIFiltering this;
     csvLogger := csvLogger this |}.

(** [getLogs(includeSystemNoise)] *)
Definition getLogs (includeSystemNoise : bool) (this : t) : list UserInteraction :=
  if includeSystemNoise then logQueue this
  else List.filter (fun log => negb (system_noise log)) (logQueue this).

(** [getUserJourneyLogs()] *)
Definition getUserJourneyLogs (this : t) : list UserInteraction := getLogs false this.

(** [getSystemNoiseLogs()] *)
Definition getSystemNoiseLogs (this : t) : list UserInteraction :=
  List.filter (fun log => system_noise log) (logQueue this).

(** The argument of [configureSystemNoise]: each option may be left out. *)
Record NoiseOptions := {
  opt_logSystemNoise : option bool;
  opt_filterSystemNoise : option bool;
  opt_strictBusinessAPIFiltering : option bool
}.

(** [configureSystemNoise(options)] *)
Definition configureSystemNoise (options : NoiseOptions) (this : t) : t :=
  {| sessionId := sessionId this; userId := userId this; isEnabled := isEnabled this;
     logQueue := logQueue this;
     inputChangeTimers := inputChangeTimers this;
     inputChangeValues := inputChangeValues this;
     logSystemNoise := default (logSystemNoise this) (opt_logSystemNoise options);
     filterSystemNoise := default (filterSystemNoise this) (opt_filterSystemNoise options);
     strictBusinessAPIFiltering :=
       default (strictBusinessAPIFiltering this) (opt_strictBusinessAPIFiltering options);
     csvLogger := csvLogger this |}.

(** [getSystemNoiseConfig()], as options with every field present. *)
Definition getSystemNoiseConfig (this : t) : NoiseOptions :=
  {| opt_logSystemNoise := Some (logSystemNoise this);
     opt_filterSystemNoise := Some (filterSystemNoise this);
     opt_strictBusinessAPIFiltering := Some (strictBusinessAPIFiltering this) |}.

(** [logButtonClick(buttonText, buttonId?, additionalDetails?)] *)
Definition button_click_details (buttonText : string) (buttonId : option string)
    (additionalDetails : option Obj) : Obj :=
  spread [ ("trigger", JStr "click"); ("buttonText", JStr buttonText);
           ("buttonId", of_option buttonId); ("schema_version", JStr "button_click.v1") ]
         (default [] additionalDetails).

Definition logButtonClick (a : Ambient) (buttonText : string) (buttonId : option string)
    (additionalDetails : option Obj) (this : t) : Result (t * Done) :=
  logInteraction a "button_click"
    (button_click_details buttonText buttonId additionalDetails) this.

(** [logNavigation(from, to, method = 'link')] *)
Definition logNavigation (a : Ambient) (from to : string) (method : option string)
    (this : t) : Result (t * Done) :=
  logInteraction a "navigation"
    [ ("trigger", JStr "navigation"); ("from", JStr from); ("to", JStr to);
      ("method", JStr (default "link" method)); ("schema_version", JStr "navigation.v1") ]
    this.

(** [logError(error, context?)]: [message] and [stack] are the two
    properties read from the error. *)
Definition logError (a : Ambient) (message : string) (stack context : option string)
    (this : t) : Result (t * Done) :=
  logInteraction a "error"
    [ ("trigger", JStr "error"); ("errorMessage", JStr message);
      ("errorStack", of_option stack); ("context", of_option context);
      ("schema_version", JStr "error.v1") ]
    this.

(** [logPerformance(metric, value, unit = 'ms')] *)
Definition logPerformance (a : Ambient) (metric : string) (value : Z)
    (unit : option string) (this : t) : Result (t * Done) :=
  logInteraction a "performance"
    [ ("trigger", JStr "performance"); ("metric", JStr metric); ("value", JNum value);
      ("unit", JStr (default "ms" unit)); ("schema_version", JStr "performance.v1") ]
    this.

(** [logPageView()]; [search], [hash] and [referrer] are read from
    [window.location] and [document]. *)
Definition logPageView (a : Ambient) (search hash referrer : string) (this : t)
  : Result (t * Done) :=
  logInteraction a "page_view"
    [ ("trigger", JStr "navigation"); ("pathname", JStr (location_pathname a));
      ("search", JStr search); ("hash", JStr hash); ("referrer", JStr referrer);
      ("schema_version", JStr "page_view.v1") ]
    this.


(* ===================================================================== *)
(** ** logger.ts: the submit listener *)
(* ===================================================================== *)

(** Which of the three classes tested with [instanceof] a member of
    [form.elements] belongs to, if any (buttons, fieldsets, outputs and
    objects belong to none). *)
Inductive ControlClass : Type := InputElement | TextAreaElement | SelectElement | OtherElement.

(** A member of [form.elements] with the properties the listener reads. *)
Record Control := {
  c_class : ControlClass;
  c_name : string;
  c_id : string;
  c_tagName : string;
  c_type : string;
  c_required : option bool;
  c_value : string;
  c_checked : bool
}.

(** The form with its [id], [action] and [method] as strings (no control
    of the form is named like one of them) and its [elements]. *)
Record Form := {
  f_id : string;
  f_action : string;
  f_method : string;
  f_elements : list Control
}.

(** [el.value.trim().length > 0] *)
Definition filled (v : string) : bool := (0 <? String.length (trim v))%nat.

(** The [hasValue] computed for one control of the three classes. *)
Definition hasValue (el : Control) : bool :=
  match c_class el with
  | InputElement =>
      if String.eqb (c_type el) "checkbox" || String.eqb (c_type el) "radio"
      then c_checked el
      else filled (c_value el)
  | TextAreaElement | SelectElement => filled (c_value el)
  | OtherElement => false
  end.

(** [el.name || el.id || el.tagName.toLowerCase()] *)
Definition presenceName (el : Control) : string :=
  or_else (c_name el) (or_else (c_id el) (toLowerCase (c_tagName el))).

(** [fieldPresenceMap[fieldName] = hasValue] on a plain object: the name
    [__proto__] reaches the prototype setter, which ignores a boolean. *)
Definition assign (k : string) (v : JsVal) (o : Obj) : Obj :=
  if String.eqb k "__proto__" then o else define k v o.

(** One round of the [forEach] that fills [fieldPresenceMap]. *)
Definition notePresence (fieldPresenceMap : Obj) (el : Control) : Obj :=
  match c_class el with
  | OtherElement => fieldPresenceMap
  | _ =>
      let fieldName := presenceName el in
      if negb (String.eqb fieldName "")
      then assign fieldName (JBool (hasValue el)) fieldPresenceMap
      else fieldPresenceMap
  end.

Definition fieldPresenceMap (form : Form) : Obj :=
  fold_left notePresence (f_elements form) [].

Definition of_option_bool (o : option bool) : JsVal :=
  match o with Some b => JBool b | None => JUndefined end.

(** The payload the submit listener hands to [logInteraction]. *)
Definition form_submit_details (form : Form) : Obj :=
  [ ("trigger", JStr "submit");
    ("formId", JStr (f_id form));
    ("formAction", JStr (f_action form));
    ("formMethod", JStr (f_method form));
    ("formElements",
       JArr (map (fun el => JObj [ ("name", JStr (c_name el)); ("type", JStr (c_type el));
                                   ("required", of_option_bool (c_required el)) ])
                 (f_elements form)));
    ("field_presence_map", JObj (fieldPresenceMap form));
    ("schema_version", JStr "form_submit.v2") ].

(** The submit listener. *)
Definition on_submit (a : Ambient) (form : Form) (this : t) : Result (t * Done) :=
  logInteraction a "form_submit" (form_submit_details form) this.

End UserInteractionLogger.

(* ===================================================================== *)
(** ** logger.ts, first revision *)
(* ===================================================================== *)

(** The earlier [UserInteractionLogger]: no noise detection, no CSV
    mirror, no debouncing, and a record without the payload. *)
Module Revision1.

Record UserInteraction := {
  id : string;
  timestamp : string;
  event : string;
  attempt_id : string;
  session_id : string;
  browser_id : string;
  route : string;
  submit_trigger : JsVal;
  client_validation_passed : bool;
  username_length : JsVal;
  password_length : JsVal;
  autofill_used : JsVal;
  caps_lock_on : JsVal;
  perf_submit_latency_ms : JsVal;
  event_time : string;
  app_version : string;
  schema : JsVal;
  url : string;
  userAgent : string;
  viewport : Viewport
}.

Record t := {
  sessionId : string;
  userId : option string;
  isEnabled : bool;
  logQueue : list UserInteraction
}.

Definition batchSize : nat := 10.

Definition set_logQueue (q : list UserInteraction) (this : t) : t :=
  {| sessionId := sessionId this; userId := userId this; isEnabled := isEnabled this;
     logQueue := q |}.

(** The object literal [interaction] of the first [logInteraction]. *)
Definition build (a : Ambient) (this : t) (event : string) (details : Obj)
  : UserInteraction :=
  {| id := "log_" +:+ show_Z (id_now a) +:+ "_" +:+ id_random a;
     timestamp := timestamp_iso a;
     Revision1.event := event;
     attempt_id := "log_" +:+ show_Z (attempt_now a) +:+ "_" +:+ attempt_random a;
     session_id := sessionId this;
     browser_id :=
       match userId this with
       | Some u => if String.eqb u "" then "anonymous" else u
       | None => "anonymous"
       end;
     route := location_pathname a;
     submit_trigger := Js.or (get "trigger" details) (JStr "unknown");
     client_validation_passed := not_false (get "validation" details);
     username_length := Js.or (opt_length (get "username" details)) (JNum 0);
     password_length := Js.or (opt_length (get "password" details)) (JNum 0);
     autofill_used := Js.or (get "autofill" details) (JBool false);
     caps_lock_on := Js.or (get "capsLock" details) (JBool false);
     perf_submit_latency_ms := Js.or (get "latency" details) (JNum 0);
     event_time := event_time_iso a;
     app_version := "web-1.4.2";
     schema := Js.or (get "schema" details) (JStr "frontend.v1");
     url := location_href a;
     userAgent := navigator_userAgent a;
     viewport := {| width := innerWidth a; height := innerHeight a |} |}.

(** [flushLogs()] up to its [await]: the batches handed to [fetch]. *)
Definition flushLogs (this : t) : t * list (list UserInteraction) :=
  match logQueue this with
  | [] => (this, [])
  | logsToSend => (set_logQueue [] this, [logsToSend])
  end.

(** [logInteraction(event, details)]: the logger afterwards and the
    batches posted. *)
Definition logInteraction (a : Ambient) (event : string) (details : Obj) (this : t)
  : t * list (list UserInteraction) :=
  if negb (isEnabled this) then (this, []) else
  let this := set_logQueue (logQueue this ++ [build a this event details]) this in
  if (batchSize <=? List.length (logQueue this))%nat then flushLogs this else (this, []).

End Revision1.

(* ===================================================================== *)
(** ** LogViewer.tsx: the card drawn for one stored record *)
(* ===================================================================== *)

Module LogViewer.

(** A stored record arrives as JSON from the server or the socket; the
    declared type [UserInteraction] is not checked, so the card is modelled
    on an arbitrary object. *)

(** What [formatTimestamp] returns: the fallback text, or
    [new Date(timestamp).toLocaleString()], whose text depends on the
    locale and is kept symbolic. *)
Inductive TimeText : Type :=
| Unknown_time                       (* 'Unknown time' *)
| LocaleString (timestamp : JsVal).

(** [formatTimestamp(timestamp)] *)
Definition formatTimestamp (timestamp : JsVal) : TimeText :=
  if negb (truthy timestamp) then Unknown_time else LocaleString timestamp.

Definition colors : list (string * string) :=
  [ ("click", "bg-blue-100 text-blue-800");
    ("form_submit", "bg-green-100 text-green-800");
    ("input_change", "bg-yellow-100 text-yellow-800");
    ("page_view", "bg-purple-100 text-purple-800");
    ("scroll", "bg-gray-100 text-gray-800");
    ("window_resize", "bg-indigo-100 text-indigo-800");
    ("error", "bg-red-100 text-red-800");
    ("navigation", "bg-pink-100 text-pink-800") ].

Fixpoint lookup_color (action : string) (table : list (string * string)) : option string :=
  match table with
  | [] => None
  | (k, v) :: table' => if String.eqb action k then Some v else lookup_color action table'
  end.

(** The names that [colors], an object literal, inherits from
    [Object.prototype]; what is found under each is a function or, for
    [__proto__], the prototype itself, hence truthy. *)
Definition inherited_names : list string :=
  [ "constructor"; "__proto__"; "hasOwnProperty"; "isPrototypeOf";
    "propertyIsEnumerable"; "toLocaleString"; "toString"; "valueOf";
    "__defineGetter__"; "__defineSetter__"; "__lookupGetter__"; "__lookupSetter__" ].

(** What [getActionColor] returns: one of the class strings, or the member
    of [Object.prototype] found under the name, whose text in the class
    attribute depends on the engine and is kept symbolic. *)
Inductive ClassText : Type :=
| ClassName (classes : string)
| InheritedMember (name : string).

(** [getActionColor(action)]: [colors[action] || 'bg-gray-100 text-gray-800'],
    the key being converted to a string. *)
Definition getActionColor (action : JsVal) : ClassText :=
  match lookup_color (toString action) colors with
  | Some classes => ClassName classes
  | None =>
      if existsb (String.eqb (toString action)) inherited_names
      then InheritedMember (toString action)
      else ClassName "bg-gray-100 text-gray-800"
  end.

(** [v.k] for a property no primitive or array has: reading it from
    [undefined] or [null] throws. *)
Definition prop (v : JsVal) (k : string) : Result JsVal :=
  match v with
  | JUndefined | JNull => Throw TypeError
  | JObj o => Ok (get k o)
  | _ => Ok JUndefined
  end.

(** [v?.substring(0, 20)] *)
Definition opt_substring20 (v : JsVal) : Result JsVal :=
  match v with
  | JUndefined | JNull => Ok JUndefined
  | JStr s => Ok (JStr (substring 0 20 s))
  | _ => Throw TypeError
  end.

(** [Object.keys(v).length] *)
Definition keys_length (v : JsVal) : Result nat :=
  match v with
  | JUndefined | JNull => Throw TypeError
  | JObj o => Ok (List.length o)
  | JArr xs => Ok (List.length xs)
  | JStr s => Ok (String.length s)
  | JBool _ | JNum _ => Ok 0%nat
  end.

(** The values placed in the card of one record, in the order the JSX
    expressions are evaluated.  [detailsBlock] is the value whose indented
    JSON text is shown, when the block is drawn at all. *)
Record Card := {
  key : JsVal;
  badgeClass : ClassText;
  badge : JsVal;
  componentText : JsVal;
  timeText : TimeText;
  urlText : JsVal;
  userIdBlock : option JsVal;
  sessionText : JsVal;
  detailsBlock : option JsVal;
  viewportWidth : JsVal;
  viewportHeight : JsVal;
  current : bool
}.

(** The body of [filteredLogs.map((log) => ...)] for one [log]. *)
Definition card (currentSessionId : string) (log : Obj) : Result Card :=
  let key := get "id" log in
  let badgeClass := getActionColor (Js.or (get "event_name" log) (JStr "")) in
  let badge := get "event_name" log in
  let componentText := get "component" log in
  let timeText :=
    formatTimestamp
      (Js.or (get "timestamp" log) (Js.or (get "event_time" log) (JStr ""))) in
  let urlText := get "url" log in
  let userIdBlock :=
    if truthy (get "userId" log) then Some (get "userId" log) else None in
  let* session := opt_substring20 (get "session_id" log) in
  let sessionText := Js.or session (JStr "Unknown") in
  let* n := keys_length (get "details" log) in
  let detailsBlock := if (0 <? n)%nat then Some (get "details" log) else None in
  let* viewportWidth := prop (get "viewport" log) "width" in
  let* viewportHeight := prop (get "viewport" log) "height" in
  Ok {| key := key; badgeClass := badgeClass; badge := badge;
        componentText := componentText; timeText := timeText; urlText := urlText;
        userIdBlock := userIdBlock; sessionText := sessionText;
        detailsBlock := detailsBlock;
        viewportWidth := viewportWidth; viewportHeight := viewportHeight;
        current := is_str (get "session_id" log) currentSessionId |}.

(* --------------------------------------------------------------------- *)
(** The filter effect and the option lists of the viewer. *)

(** [v?.toLowerCase().includes(searchTerm.toLowerCase())] *)
Definition opt_lower_includes (v : JsVal) (searchTerm : string) : Result bool :=
  match v with
  | JUndefined | JNull => Ok false
  | JStr s => Ok (includes (toLowerCase s) (toLowerCase searchTerm))
  | _ => Throw TypeError
  end.

(** [JSON.stringify(details).toLowerCase().includes(searchTerm.toLowerCase())] *)
Definition details_lower_includes (details : JsVal) (searchTerm : string) : Result bool :=
  match stringify details with
  | Some text => Ok (includes (toLowerCase text) (toLowerCase searchTerm))
  | None => Throw TypeError
  end.

(** The predicate of the search filter, its six disjuncts tried from
    left to right. *)
Definition matchesSearch (searchTerm : string) (log : Obj) : Result bool :=
  let* hit := opt_lower_includes (get "event_name" log) searchTerm in
  if hit then Ok true else
  let* hit := opt_lower_includes (get "component" log) searchTerm in
  if hit then Ok true else
  let* hit := opt_lower_includes (get "url" log) searchTerm in
  if hit then Ok true else
  let* hit := opt_lower_includes (get "route" log) searchTerm in
  if hit then Ok true else
  let* hit := opt_lower_includes (get "event_name" log) searchTerm in
  if hit then Ok true else
  details_lower_includes (get "details" log) searchTerm.

(** [logs.filter(predicate)] for a predicate that may throw. *)
Fixpoint filter_with (predicate : Obj -> Result bool) (logs : list Obj)
  : Result (list Obj) :=
  match logs with
  | [] => Ok []
  | log :: rest =>
      let* keep := predicate log in
      let* kept := filter_with predicate rest in
      Ok (if keep then log :: kept else kept)
  end.

(** The body of the filter effect: the value given to [setFilteredLogs]. *)
Definition applyFilters (searchTerm selectedAction selectedComponent selectedSession : string)
    (logs : list Obj) : Result (list Obj) :=
  let* filtered :=
    if negb (String.eqb searchTerm "")
    then filter_with (matchesSearch searchTerm) logs
    else Ok logs in
  let filtered :=
    if negb (String.eqb selectedAction "")
    then List.filter (fun log => is_str (get "event_name" log) selectedAction) filtered
    else filtered in
  let filtered :=
    if negb (String.eqb selectedComponent "")
    then List.filter (fun log => is_str (get "component" log) selectedComponent) filtered
    else filtered in
  let filtered :=
    if negb (String.eqb selectedSession "")
    then List.filter (fun log => is_str (get "session_id" log) selectedSession) filtered
    else filtered in
  Ok filtered.

(** [Array.from(new Set(values))]: each value once, at its first place. *)
Fixpoint distinct (seen values : list string) : list string :=
  match values with
  | [] => []
  | v :: rest =>
      if existsb (String.eqb v) seen then distinct seen rest
      else v :: distinct (v :: seen) rest
  end.

(** [getUniqueValues(field)] *)
Definition getUniqueValues (field : string) (logs : list Obj) : list string :=
  distinct []
    (omap (fun log => match get field log with JStr s => Some s | _ => None end) logs).

End LogViewer.

(* ===================================================================== *)
(** ** Notions used in the statements *)
(* ===================================================================== *)

Import UserInteractionLogger.

(** Only the JSON posts among some requests, flattened. *)
Definition posted_logs (requests : list Request) : list UserInteraction :=
  flat_map (fun rq => match rq with PostLogs logs => logs | PostCsv _ _ => [] end) requests.

(** The record written for an input event by an enabled logger. *)
Definition input_record (w : World) (details : Obj) : UserInteraction :=
  build (ambient w (List.length (emitted w))) (logger w) not_noise "input_change" details.

(** The timer table once the timer registered for [key], if any, is
    cancelled. *)
Definition without_timer_of (key : string) (w : World) : list Timer :=
  match inputChangeTimers (logger w) !! key with
  | Some h => List.filter (fun tm => negb (handle tm =? h)%nat) (pending w)
  | None => pending w
  end.

(** What [debouncedInputChange] stores for a target. *)
Definition stored_for (target : Dom.Element) : InputData :=
  {| value := Dom.value target;
     fieldName := or_else (Dom.name target) (or_else (Dom.id target) (Dom.tagName target)) |}.

(** [N >= 1] input events: the first, then each further one after a gap. *)
Definition burst (first : Dom.Element) (rest : list (nat * Dom.Element)) : list Action :=
  Input first :: flat_map (fun gt => [Wait (fst gt); Input (snd gt)]) rest.

(** The target of the last event of the burst, with the value it had then. *)
Definition last_target (first : Dom.Element) (rest : list (nat * Dom.Element))
  : Dom.Element :=
  List.last (map snd rest) first.

(** A pending timer is registered: the map of timers holds its handle
    under its key, a value is stored under that key, and the handle has
    been given out. *)
Definition registered (w : World) (tm : Timer) : Prop :=
  inputChangeTimers (logger w) !! callbackKey tm = Some (handle tm)
  /\ is_Some (inputChangeValues (logger w) !! callbackKey tm)
  /\ (handle tm < nextHandle w)%nat.

Definition consistent (w : World) : Prop :=
  (forall tm, In tm (pending w) -> registered w tm)
  /\ List.NoDup (map handle (pending w)).

(** What holds of the timers in every state the page reaches from a newly
    constructed logger: besides [consistent], no pending timer is overdue,
    every handle in the map of timers has been given out, and a pending
    timer's handle is in the map under its own key only. *)
Definition orderly (w : World) : Prop :=
  consistent w
  /\ (forall tm, In tm (pending w) -> (clock w < due tm)%nat)
  /\ (forall k h, inputChangeTimers (logger w) !! k = Some h -> (h < nextHandle w)%nat)
  /\ (forall k tm, In tm (pending w) ->
        inputChangeTimers (logger w) !! k = Some (handle tm) -> callbackKey tm = k).

(** Just after an input event on [target]: the timer registered for its
    key is pending, due in 500 ms, and the value is stored. *)
Definition armed (key : string) (target : Dom.Element) (w : World) : Prop :=
  exists h,
    inputChangeTimers (logger w) !! key = Some h
    /\ In {| handle := h; due := clock w + 500; callbackKey := key |} (pending w)
    /\ inputChangeValues (logger w) !! key = Some (stored_for target).

(** The timers that belong to other field keys than [key]. *)
Definition other_fields (key : string) (p : list Timer) : list Timer :=
  List.filter (fun tm => negb (String.eqb (callbackKey tm) key)) p.

(** The expiry callback of [tm], run in [w], writes a record: a value is
    stored under the timer's key and the document has an element for the
    stored field name. *)
Definition answers (w : World) (tm : Timer) : bool :=
  match inputChangeValues (logger w) !! callbackKey tm with
  | Some inputData =>
      match Dom.querySelector (document w) (fieldName inputData) with
      | Ok (Some _) => true
      | _ => false
      end
  | None => false
  end.

(** The timers of other fields, pending in [w], that come due by
    [deadline] and whose callback writes a record. *)
Definition written_by_others (key : string) (deadline : nat) (w : World) : list Timer :=
  List.filter (answers w)
    (List.filter (fun tm => (due tm <=? deadline)%nat) (other_fields key (pending w))).

(** The time a burst takes from its first to its last event. *)
Definition elapsed (rest : list (nat * Dom.Element)) : nat := list_sum (map fst rest).


(** The CSV request in flight settles: [CSVLogger.flush] resumes after its
    [await] on the logger's CSV sink. *)
Definition csv_settled (o : Outcome) (this : t) : t :=
  set_csvLogger (CSVLogger.flush_settled o (csvLogger this)) this.

(** [logInteraction] called once for each payload, one call after the
    other, with the requests the calls handed to [fetch]. *)
Fixpoint log_each (a : Ambient) (event : string) (payloads : list Obj) (this : t)
  : Result (t * list Request) :=
  match payloads with
  | [] => Ok (this, [])
  | details :: rest =>
      let* r := logInteraction a event details this in
      let* r' := log_each a event rest (fst r) in
      Ok (fst r', fetched (snd r) ++ snd r')
  end.

(** What the debouncer leaves alone. *)
Definition same_page (w0 w : World) : Prop :=
  emitted w = emitted w0
  /\ isEnabled (logger w) = isEnabled (logger w0)
  /\ document w = document w0
  /\ ambient w = ambient w0.

(* ===================================================================== *)
(** ** Sample inputs *)
(* ===================================================================== *)

(** The logger as its field initialisers leave it. *)
Definition initial (session : string) : t :=
  {| sessionId := session; userId := None; isEnabled := true; logQueue := [];
     inputChangeTimers := ∅; inputChangeValues := ∅;
     logSystemNoise := true; filterSystemNoise := true;
     strictBusinessAPIFiltering := true;
     csvLogger := {| CSVLogger.csvBuffer := [] |} |}.

Definition noon : Ambient :=
  {| id_now := 1700000000000; id_random := "k3j9x0q2a";
     timestamp_iso := "2023-11-14T22:13:20.000Z";
     attempt_now := 1700000000000; attempt_random := "p8m1c7z4b";
     event_time_iso := "2023-11-14T22:13:20.000Z";
     location_pathname := "/login";
     location_href := "http://localhost:3000/login";
     navigator_userAgent := "Mozilla/5.0";
     innerWidth := 1280; innerHeight := 720;
     csv_iso := "2023-11-14T22:13:20.000Z" |}.

Definition page (session : string) (document : list Dom.Element) : World :=
  {| logger := initial session; clock := 0; pending := []; nextHandle := 1;
     document := document; ambient := fun _ => noon; emitted := []; sent := [] |}.

(** A logger one record short of a full batch. *)
Definition click_details : Obj :=
  [ ("trigger", JStr "click"); ("text", JStr "Order now"); ("tagName", JStr "BUTTON");
    ("x", JNum 312); ("y", JNum 540); ("schema_version", JStr "click.v1") ].

Definition a_click : UserInteraction :=
  build noon (initial "s") not_noise "click" click_details.

Definition nine_queued : t := set_logQueue (repeat a_click 9) (initial "s").

Definition login_details : Obj :=
  [ ("trigger", JStr "submit"); ("username", JStr "alice");
    ("password", JStr "hunter2"); ("schema_version", JStr "login.v1") ].

(** The backend record of the README's debug command: it has neither
    [details] nor [viewport]. *)
Definition backend_test_log : Obj :=
  [ ("id", JStr "test"); ("timestamp", JStr "2025-08-24T15:30:00Z");
    ("action", JStr "test"); ("component", JStr "test") ].

(** A street field as it looks while "Mus" is typed into it. *)
Definition street (typed : string) : Dom.Element :=
  {| Dom.id := "street"; Dom.name := "street"; Dom.tagName := "INPUT";
     Dom.type := Some "text"; Dom.value := typed |}.

(** A text input that has neither an id nor a name. *)
Definition nameless (typed : string) : Dom.Element :=
  {| Dom.id := ""; Dom.name := ""; Dom.tagName := "INPUT";
     Dom.type := Some "text"; Dom.value := typed |}.

(** A password input known by its name only, and a wrapper that carries
    the same word as its id and comes first in the document. *)
Definition password_input (typed : string) : Dom.Element :=
  {| Dom.id := ""; Dom.name := "password"; Dom.tagName := "INPUT";
     Dom.type := Some "password"; Dom.value := typed |}.

Definition password_wrapper : Dom.Element :=
  {| Dom.id := "password"; Dom.name := ""; Dom.tagName := "DIV";
     Dom.type := None; Dom.value := "" |}.

Definition typing_Mus : list (nat * Dom.Element) :=
  [ (120%nat, street "Mu"); (90%nat, street "Mus") ].




(** Twelve clicks on the buttons of a menu, told apart by the item. *)
Definition menu_click (item : Z) : Obj :=
  [ ("trigger", JStr "click"); ("text", JStr "Add to cart"); ("item", JNum item);
    ("schema_version", JStr "click.v1") ].

Definition eleven_clicks : list Obj := map menu_click [1; 2; 3; 4; 5; 6; 7; 8; 9; 10; 11].

(** A page on which the password field is mid-debounce when the typing
    into the street field starts: its timer expires during the burst. *)
Definition password_pending : World :=
  run [Input (password_input "h"); Wait 400] (page "s" [street ""; password_input ""]).

(* ===================================================================== *)
(** ** The noise classifier *)
(* ===================================================================== *)

Section Classifier.

Variable this : t.

Lemma some_includes_string (u : string) (endpoints : list string) :
  some_includes (JStr u) endpoints = Ok (existsb (includes u) endpoints).
Proof.
  induction endpoints as [|e rest IH]; simpl; [reflexivity|].
  destruct (includes u e); simpl; [reflexivity|exact IH].
Qed.

Lemma isBusinessAPI_string (u : string) :
  isBusinessAPI (JStr u) = Ok (existsb (includes u) businessEndpoints).
Proof. apply some_includes_string. Qed.

(** A basic rule that fired decides the verdict. *)
Lemma enhanced_of_basic_noise (event : string) (details : Obj) (why : string) :
  isSystemNoise event details = Ok (noise why) ->
  isSystemNoiseEnhanced this event details = Ok (noise why).
Proof. intros H. unfold isSystemNoiseEnhanced. rewrite H. reflexivity. Qed.

(** C5: an [http_request] whose method is OPTIONS is noise
    [cors_preflight], and a [navigation] whose status code is 301, 302 or
    308 is noise [moved_permanently], [temporary_redirect] or
    [permanent_redirect], whatever else the details hold and however the
    logger is configured. *)
Theorem classify_preflight_and_redirects (details : Obj) :
  (get "method" details = JStr "OPTIONS" ->
   isSystemNoiseEnhanced this "http_request" details = Ok (noise "cors_preflight"))
  /\ (get "statusCode" details = JNum 301 ->
      isSystemNoiseEnhanced this "navigation" details = Ok (noise "moved_permanently"))
  /\ (get "statusCode" details = JNum 302 ->
      isSystemNoiseEnhanced this "navigation" details = Ok (noise "temporary_redirect"))
  /\ (get "statusCode" details = JNum 308 ->
      isSystemNoiseEnhanced this "navigation" details = Ok (noise "permanent_redirect")).
Proof.
  repeat split; intros H; apply enhanced_of_basic_noise;
    unfold isSystemNoise; rewrite H; reflexivity.
Qed.

(** With a URL that is a non-empty string, the strict filter is decided by
    the allow-list alone once the basic rules have passed. *)
Lemma enhanced_on_url (details : Obj) (u : string) :
  strictBusinessAPIFiltering this = true ->
  get "url" details = JStr u -> u <> "" ->
  isSystemNoise "http_request" details = Ok not_noise ->
  isSystemNoiseEnhanced this "http_request" details =
  Ok (if existsb (includes u) businessEndpoints then not_noise
      else noise "non_business_api").
Proof.
  intros Hstrict Hurl Hne Hbasic.
  unfold isSystemNoiseEnhanced. rewrite Hbasic, Hstrict, Hurl.
  cbn [Js.bind isNoise not_noise truthy andb].
  rewrite String.eqb_refl.
  destruct (String.eqb_spec u "") as [->|_]; [contradiction|].
  cbn [negb andb]. rewrite isBusinessAPI_string. cbn [Js.bind].
  destruct (existsb (includes u) businessEndpoints); reflexivity.
Qed.

(** Without a URL, or with an empty one, the strict filter does not apply. *)
Lemma enhanced_without_url (details : Obj) :
  truthy (get "url" details) = false ->
  isSystemNoise "http_request" details = Ok not_noise ->
  isSystemNoiseEnhanced this "http_request" details = Ok not_noise.
Proof.
  intros Hurl Hbasic. unfold isSystemNoiseEnhanced. rewrite Hbasic, Hurl. simpl.
  rewrite andb_false_r. reflexivity.
Qed.

(** C4, amended: with strict filtering on, an [http_request] whose details
    carry a non-empty URL string and pass the basic rules is not noise
    exactly when the URL contains one of the business endpoints, and is
    noise [non_business_api] otherwise; a request whose details carry no
    URL, or an empty one, is not noise.  '/api/customer/login' is not noise
    and '/api/unknown/thing' is noise [non_business_api]. *)
Theorem strict_filter_on_present_url (details : Obj) :
  strictBusinessAPIFiltering this = true ->
  isSystemNoise "http_request" details = Ok not_noise ->
  (forall u, get "url" details = JStr u -> u <> "" ->
     exists verdict,
       isSystemNoiseEnhanced this "http_request" details = Ok verdict
       /\ (isNoise verdict = false <->
           exists endpoint, In endpoint businessEndpoints /\ includes u endpoint = true)
       /\ (isNoise verdict = true -> reason verdict = Some "non_business_api"))
  /\ (truthy (get "url" details) = false ->
      isSystemNoiseEnhanced this "http_request" details = Ok not_noise)
  /\ isSystemNoiseEnhanced this "http_request" [("url", JStr "/api/customer/login")]
     = Ok not_noise
  /\ isSystemNoiseEnhanced this "http_request" [("url", JStr "/api/unknown/thing")]
     = Ok (noise "non_business_api").
Proof.
  intros Hstrict Hbasic. split; [|split; [|split]].
  - intros u Hurl Hne.
    rewrite (enhanced_on_url details u Hstrict Hurl Hne Hbasic).
    destruct (existsb (includes u) businessEndpoints) eqn:E.
    + exists not_noise. split; [reflexivity|]. split.
      * split; [intros _; apply existsb_exists; exact E | reflexivity].
      * intros Hc. cbn in Hc. discriminate.
    + exists (noise "non_business_api"). split; [reflexivity|]. split.
      * split; [intros Hc; cbn in Hc; discriminate|].
        intros Hex. apply existsb_exists in Hex. congruence.
      * reflexivity.
  - intros Hurl. apply enhanced_without_url; assumption.
  - rewrite (enhanced_on_url _ "/api/customer/login" Hstrict); try reflexivity.
    discriminate.
  - rewrite (enhanced_on_url _ "/api/unknown/thing" Hstrict); try reflexivity.
    discriminate.
Qed.

End Classifier.

Lemma classify_preflight_and_redirects_witness :
  isSystemNoiseEnhanced (initial "s") "http_request"
    [("url", JStr "/api/customer/login"); ("method", JStr "OPTIONS")]
  = Ok (noise "cors_preflight")
  /\ isSystemNoiseEnhanced (initial "s") "navigation" [("statusCode", JNum 302)]
     = Ok (noise "temporary_redirect").
Proof.
  split.
  - apply (classify_preflight_and_redirects (initial "s")
             [("url", JStr "/api/customer/login"); ("method", JStr "OPTIONS")]).
    reflexivity.
  - apply (classify_preflight_and_redirects (initial "s") [("statusCode", JNum 302)]).
    reflexivity.
Defined.

Lemma strict_filter_on_present_url_witness :
  exists verdict,
    isSystemNoiseEnhanced (initial "s") "http_request"
      [("method", JStr "GET"); ("url", JStr "/api/menu/items?restaurant=6")] = Ok verdict
    /\ (isNoise verdict = false <->
        exists endpoint, In endpoint businessEndpoints
          /\ includes "/api/menu/items?restaurant=6" endpoint = true).
Proof.
  destruct (strict_filter_on_present_url (initial "s")
              [("method", JStr "GET"); ("url", JStr "/api/menu/items?restaurant=6")]
              eq_refl eq_refl) as [H _].
  destruct (H "/api/menu/items?restaurant=6" eq_refl) as [verdict [H1 [H2 _]]].
  - discriminate.
  - exists verdict. split; assumption.
Defined.

(** The allow-list has a tenth family, [/api/restaurant_details/]; and the
    rule for [/api/logs/stats] comes after the rule for [/api/logs], which
    already covers such a URL. *)
Lemma restaurant_details_is_business :
  isSystemNoiseEnhanced (initial "s") "http_request"
    [("url", JStr "/api/restaurant_details/nearby")] = Ok not_noise.
Proof. reflexivity. Qed.

Lemma stats_url_is_tagged_logging_endpoint (this : t) :
  isSystemNoiseEnhanced this "http_request" [("url", JStr "/api/logs/stats")]
  = Ok (noise "logging_endpoint").
Proof. apply enhanced_of_basic_noise. reflexivity. Qed.

(** C4 as stated fails: with strict filtering on, a request whose URL is
    the empty string passes the basic rules and matches no business
    endpoint, yet it is not classified as noise. *)
Lemma strict_filter_skips_empty_url :
  ~ (forall (this : t) (details : Obj) (u : string),
       strictBusinessAPIFiltering this = true ->
       get "url" details = JStr u ->
       isSystemNoise "http_request" details = Ok not_noise ->
       exists verdict,
         isSystemNoiseEnhanced this "http_request" details = Ok verdict
         /\ (isNoise verdict = false <->
             exists endpoint, In endpoint businessEndpoints /\ includes u endpoint = true)).
Proof.
  intros H.
  destruct (H (initial "s") [("url", JStr "")] "" eq_refl eq_refl eq_refl)
    as [verdict [Hv [Hnot _]]].
  vm_compute in Hv. injection Hv as <-.
  destruct (Hnot eq_refl) as [endpoint [Hin Hinc]].
  assert (E : existsb (includes "") businessEndpoints = true)
    by (apply existsb_exists; eauto).
  vm_compute in E. discriminate.
Qed.

(* ===================================================================== *)
(** ** One call of [logInteraction] *)
(* ===================================================================== *)

Section LogInteraction.

Variables (a : Ambient) (event : string) (details : Obj) (this : t).

Lemma csv_requests_post_no_logs (iso : string) (data : Obj) (c : CSVLogger.t) :
  posted_logs (snd (CSVLogger.logToCSV iso data c)) = [].
Proof.
  unfold CSVLogger.logToCSV, CSVLogger.flush.
  destruct (_ <=? _)%nat; [|reflexivity].
  cbn [CSVLogger.csvBuffer].
  destruct (CSVLogger.csvBuffer c ++ _); reflexivity.
Qed.

Lemma csv_buffer_after_log (iso : string) (data : Obj) (c : CSVLogger.t) :
  CSVLogger.csvBuffer (fst (CSVLogger.logToCSV iso data c))
  = CSVLogger.csvBuffer c ++ [CSVLogger.formatToCSVEntry iso data].
Proof.
  unfold CSVLogger.logToCSV, CSVLogger.flush.
  destruct (_ <=? _)%nat; [|reflexivity].
  cbn [CSVLogger.csvBuffer].
  destruct (CSVLogger.csvBuffer c ++ _); reflexivity.
Qed.

(** The shape of every accepting call: the record is the one [build]
    makes; the queue is either extended by it or, at the threshold, handed
    over whole and emptied; the CSV buffer is extended by its entry. *)
Lemma logInteraction_accepted (this' : t) (done : Done) (r : UserInteraction) :
  logInteraction a event details this = Ok (this', done) ->
  pushed done = Some r ->
  exists noiseCheck csvRequests,
    isSystemNoiseEnhanced this event details = Ok noiseCheck
    /\ r = build a this noiseCheck event details
    /\ posted_logs csvRequests = []
    /\ CSVLogger.csvBuffer (csvLogger this')
       = CSVLogger.csvBuffer (csvLogger this)
           ++ [CSVLogger.formatToCSVEntry (csv_iso a) (as_object r)]
    /\ ((List.length (logQueue this) + 1 < batchSize)%nat
          /\ logQueue this' = logQueue this ++ [r]
          /\ fetched done = csvRequests
        \/ (batchSize <= List.length (logQueue this) + 1)%nat
          /\ logQueue this' = []
          /\ fetched done = csvRequests ++ [PostLogs (logQueue this ++ [r])]).
Proof.
  unfold logInteraction.
  destruct (isEnabled this); cbn [negb]; [|intros [= <- <-]; discriminate].
  destruct (isSystemNoiseEnhanced this event details) as [noiseCheck|e];
    cbn [Js.bind]; [|discriminate].
  destruct (isNoise noiseCheck && negb (logSystemNoise this));
    [intros [= <- <-]; discriminate|].
  set (r0 := build a this noiseCheck event details).
  cbn [csvLogger set_logQueue logQueue].
  pose proof (csv_requests_post_no_logs (csv_iso a) (as_object r0) (csvLogger this)) as Hreq.
  pose proof (csv_buffer_after_log (csv_iso a) (as_object r0) (csvLogger this)) as Hbuf.
  destruct (CSVLogger.logToCSV (csv_iso a) (as_object r0) (csvLogger this))
    as [csv csvRequests].
  cbn [fst snd] in Hreq, Hbuf.
  cbn [set_csvLogger set_logQueue logQueue].
  rewrite length_app. cbn [List.length].
  destruct (Nat.leb_spec batchSize (List.length (logQueue this) + 1)) as [Hfull|Hroom].
  - unfold flushLogs. cbn [logQueue].
    destruct (logQueue this ++ [r0]) as [|x q] eqn:Eq.
    { destruct (logQueue this); discriminate. }
    intros [= <- <-] [= <-].
    exists noiseCheck, csvRequests. cbn.
    do 4 (split; [first [reflexivity | assumption]|]).
    right. rewrite Eq. auto.
  - intros [= <- <-] [= <-].
    exists noiseCheck, csvRequests. cbn.
    do 4 (split; [first [reflexivity | assumption]|]).
    left. auto.
Qed.

(** An enabled logger accepts every event the noise toggle lets through. *)
Lemma logInteraction_accepts (noiseCheck : NoiseCheck) :
  isEnabled this = true ->
  isSystemNoiseEnhanced this event details = Ok noiseCheck ->
  isNoise noiseCheck && negb (logSystemNoise this) = false ->
  exists this' done,
    logInteraction a event details this = Ok (this', done)
    /\ pushed done = Some (build a this noiseCheck event details).
Proof.
  intros Hen Hnoise Hkeep. unfold logInteraction.
  rewrite Hen, Hnoise. cbn [negb Js.bind]. rewrite Hkeep.
  destruct (CSVLogger.logToCSV _ _ _) as [csv csvRequests].
  destruct (_ <=? _)%nat.
  - destruct (flushLogs _) as [this' requests]. eauto.
  - eauto.
Qed.

(** C9: with logging disabled [logInteraction] returns at once: the logger
    (queue, CSV buffer, debounce maps, configuration) is the one it was
    given, nothing was pushed and nothing was handed to [fetch]; in the
    world around it the timers, the emitted records and the requests are
    untouched as well. *)
Theorem disabled_is_noop :
  isEnabled this = false ->
  logInteraction a event details this = Ok (this, nothing)
  /\ forall w : World, logger w = this -> log event details w = Ok w.
Proof.
  intros Hoff. assert (H : logInteraction a event details this = Ok (this, nothing)).
  { unfold logInteraction. rewrite Hoff. reflexivity. }
  split; [exact H|].
  intros w <-. unfold log, logInteraction. rewrite Hoff. cbn.
  destruct w; cbn. rewrite !app_nil_r. reflexivity.
Qed.

(** C6: an enabled logger that does not drop the event pushes the record
    and returns with fewer than 10 (the batch size) records queued: when
    the push brings the queue to the batch size, the whole queue, the new
    record last, is handed to [fetch] within this call and the queue is
    empty at once; below the batch size nothing is posted from the
    queue. *)
Theorem full_queue_flushes_in_call (noiseCheck : NoiseCheck) :
  isEnabled this = true ->
  isSystemNoiseEnhanced this event details = Ok noiseCheck ->
  isNoise noiseCheck && negb (logSystemNoise this) = false ->
  exists this' done r,
    logInteraction a event details this = Ok (this', done)
    /\ pushed done = Some r
    /\ r = build a this noiseCheck event details
    /\ (List.length (logQueue this') < batchSize)%nat
    /\ ((batchSize <= List.length (logQueue this) + 1)%nat ->
        logQueue this' = []
        /\ In (PostLogs (logQueue this ++ [r])) (fetched done)
        /\ posted_logs (fetched done) = logQueue this ++ [r])
    /\ ((List.length (logQueue this) + 1 < batchSize)%nat ->
        logQueue this' = logQueue this ++ [r]
        /\ posted_logs (fetched done) = []).
Proof.
  intros Hen Hnoise Hkeep.
  destruct (logInteraction_accepts noiseCheck Hen Hnoise Hkeep)
    as (this' & done & Hcall & Hpush).
  exists this', done, (build a this noiseCheck event details).
  split; [exact Hcall|]. split; [exact Hpush|]. split; [reflexivity|].
  destruct (logInteraction_accepted this' done _ Hcall Hpush)
    as (nc & csvRequests & _ & _ & Hcsv & _ & [(Hroom & Hq & Hf)|(Hfull & Hq & Hf)]).
  - split; [rewrite Hq, length_app; cbn; lia|].
    split; [intros Hfull; lia|].
    intros _. split; [exact Hq|]. rewrite Hf. exact Hcsv.
  - split; [rewrite Hq; cbn; unfold batchSize; lia|].
    split; [|intros Hroom; lia].
    intros _. rewrite Hf. split; [exact Hq|]. split.
    + apply in_or_app. right. left. reflexivity.
    + unfold posted_logs in *. rewrite flat_map_app, Hcsv. cbn. apply app_nil_r.
Qed.

(** Within one call, an enabled logger that does not drop the event adds
    the record once to the JSON side (the live queue together with what
    this call posted from it) and its CSV entry once to the CSV buffer. *)
Lemma accepted_record_in_both_sinks (noiseCheck : NoiseCheck) :
  isEnabled this = true ->
  isSystemNoiseEnhanced this event details = Ok noiseCheck ->
  isNoise noiseCheck && negb (logSystemNoise this) = false ->
  exists this' done r,
    logInteraction a event details this = Ok (this', done)
    /\ pushed done = Some r
    /\ r = build a this noiseCheck event details
    /\ posted_logs (fetched done) ++ logQueue this' = logQueue this ++ [r]
    /\ CSVLogger.csvBuffer (csvLogger this')
       = CSVLogger.csvBuffer (csvLogger this)
           ++ [CSVLogger.formatToCSVEntry (csv_iso a) (as_object r)].
Proof.
  intros Hen Hnoise Hkeep.
  destruct (logInteraction_accepts noiseCheck Hen Hnoise Hkeep)
    as (this' & done & Hcall & Hpush).
  exists this', done, (build a this noiseCheck event details).
  split; [exact Hcall|]. split; [exact Hpush|]. split; [reflexivity|].
  destruct (logInteraction_accepted this' done _ Hcall Hpush)
    as (nc & csvRequests & _ & _ & Hcsv & Hbuf & [(_ & Hq & Hf)|(_ & Hq & Hf)]).
  - split; [|exact Hbuf]. rewrite Hf, Hcsv, Hq. reflexivity.
  - split; [|exact Hbuf]. rewrite Hf, Hq. unfold posted_logs in *.
    rewrite flat_map_app, Hcsv. cbn. rewrite !app_nil_r. reflexivity.
Qed.

(** A call that pushes nothing has changed nothing and posted nothing. *)
Lemma dropped_call_changes_nothing (this' : t) (done : Done) :
  logInteraction a event details this = Ok (this', done) ->
  pushed done = None ->
  this' = this /\ fetched done = [].
Proof.
  unfold logInteraction.
  destruct (isEnabled this); cbn [negb]; [|intros [= <- <-]; auto].
  destruct (isSystemNoiseEnhanced this event details) as [nc|e];
    cbn [Js.bind]; [|discriminate].
  destruct (isNoise nc && negb (logSystemNoise this)); [intros [= <- <-]; auto|].
  destruct (CSVLogger.logToCSV _ _ _) as [csv csvRequests].
  destruct (_ <=? _)%nat.
  - destruct (flushLogs _) as [l rq]. intros [= <- <-]. discriminate.
  - intros [= <- <-]. discriminate.
Qed.

(** With the noise toggle off, an event classified as noise is dropped. *)
Lemma noise_dropped_when_toggled_off (noiseCheck : NoiseCheck) :
  isSystemNoiseEnhanced this event details = Ok noiseCheck ->
  isNoise noiseCheck = true ->
  logSystemNoise this = false ->
  logInteraction a event details this = Ok (this, nothing).
Proof.
  intros Hnoise His Hoff. unfold logInteraction.
  destruct (isEnabled this); [|reflexivity].
  cbn [negb]. rewrite Hnoise. cbn [Js.bind]. rewrite His, Hoff. reflexivity.
Qed.

End LogInteraction.

Lemma disabled_is_noop_witness :
  logInteraction noon "click" click_details (disable nine_queued)
  = Ok (disable nine_queued, nothing).
Proof.
  apply (disabled_is_noop noon "click" click_details (disable nine_queued)).
  reflexivity.
Defined.

Lemma full_queue_flushes_in_call_witness :
  exists this' done,
    logInteraction noon "click" click_details nine_queued = Ok (this', done)
    /\ logQueue this' = []
    /\ posted_logs (fetched done) = repeat a_click 9 ++ [a_click].
Proof.
  destruct (full_queue_flushes_in_call noon "click" click_details nine_queued not_noise)
    as (this' & done & r & Hcall & _ & -> & _ & Hfull & _).
  - reflexivity.
  - reflexivity.
  - reflexivity.
  - exists this', done. split; [exact Hcall|].
    destruct Hfull as (Hq & _ & Hposted).
    + vm_compute. lia.
    + split; [exact Hq|exact Hposted].
Defined.

Lemma accepted_record_in_both_sinks_at_threshold :
  exists this' done,
    logInteraction noon "click" click_details nine_queued = Ok (this', done)
    /\ posted_logs (fetched done) ++ logQueue this' = repeat a_click 9 ++ [a_click]
    /\ CSVLogger.csvBuffer (csvLogger this')
       = [CSVLogger.formatToCSVEntry (csv_iso noon) (as_object a_click)].
Proof.
  destruct (accepted_record_in_both_sinks noon "click" click_details nine_queued not_noise)
    as (this' & done & r & Hcall & _ & -> & Hjson & Hcsv).
  - reflexivity.
  - reflexivity.
  - reflexivity.
  - exists this', done. split; [exact Hcall|]. split; [exact Hjson|exact Hcsv].
Qed.

(* ===================================================================== *)
(** ** The CSV sink over several calls *)
(* ===================================================================== *)

(** C7 fails on the code.  Each accepted record is appended once to the
    queue and once to the CSV buffer, but the CSV sink does not receive
    each record once even when every request is answered 200:
    [CSVLogger.flush] posts the buffer without taking it out and empties
    it only when the request has settled.  Eleven accepted clicks: the
    tenth posts ten lines, the eleventh posts the same ten lines again and
    its own.  The first request settles; a twelfth click is accepted and
    buffered; the second request settles and empties the buffer, so the
    line of the twelfth record is in no request and no longer in the
    buffer.  On the JSON side [flushLogs] takes the batch out of the queue
    before it posts, and every record is posted once. *)
Theorem csv_sink_repeats_and_drops_lines :
  exists (this11 this12 : t) (batch : list UserInteraction) (csv1 csv2 : list string)
         (r12 : UserInteraction) (e12 : CSVLogger.CSVLogEntry),
    log_each noon "click" eleven_clicks (initial "s")
    = Ok (this11, [ PostCsv csv1 CSVLogger.csvHeaders;
                    PostLogs batch;
                    PostCsv csv2 CSVLogger.csvHeaders ])
    /\ List.length batch = 10%nat
    /\ List.length csv1 = 10%nat
    /\ List.length csv2 = 11%nat
    /\ firstn 10 csv2 = csv1
    /\ logInteraction noon "click" (menu_click 12) (csv_settled (Response 200) this11)
       = Ok (this12, {| pushed := Some r12; fetched := [] |})
    /\ CSVLogger.csvBuffer (csvLogger this12) = [e12]
    /\ existsb (String.eqb (CSVLogger.line e12)) csv2 = false
    /\ CSVLogger.csvBuffer (csvLogger (csv_settled (Response 200) this12)) = []
    /\ List.length (logQueue (csv_settled (Response 200) this12)) = 2%nat
    /\ In r12 (logQueue (csv_settled (Response 200) this12)).
Proof.
  do 7 eexists. split; [vm_compute; reflexivity|].
  do 4 (split; [reflexivity|]).
  split; [vm_compute; reflexivity|].
  split; [vm_compute; reflexivity|].
  split; [vm_compute; reflexivity|].
  split; [vm_compute; reflexivity|].
  split; [vm_compute; reflexivity|].
  right. left. reflexivity.
Qed.

(* ===================================================================== *)
(** ** A failed delivery *)
(* ===================================================================== *)

Lemma not_delivered (o : Outcome) :
  delivered o = false <->
  o = NetworkError \/ exists status, o = Response status /\ (status < 200 \/ 299 < status).
Proof.
  destruct o as [status|]; cbn; unfold response_ok.
  - split.
    + intros H. right. exists status. split; [reflexivity|].
      apply andb_false_iff in H. destruct H as [H|H];
        [apply Z.leb_gt in H | apply Z.leb_gt in H]; lia.
    + intros [H|(s & [= <-] & H)]; [discriminate|].
      apply andb_false_iff. destruct H; [left|right]; apply Z.leb_gt; lia.
  - split; auto.
Qed.

(** C3: when a flush of a non-empty queue fails (a response outside
    200..299, or a transport error), the records it took are all back in
    the queue, in their order, in front of whatever the queue holds by
    then; the continuation returns a logger and throws nothing.  [later] is
    the logger at the time the request settles. *)
Theorem failed_flush_requeues_in_front (this later : t) (o : Outcome) :
  logQueue this <> [] ->
  delivered o = false ->
  flushLogs this = (set_logQueue [] this, [PostLogs (logQueue this)])
  /\ logQueue (flushLogs_settled (logQueue this) o later)
     = logQueue this ++ logQueue later.
Proof.
  intros Hne Hfail. split.
  - unfold flushLogs. destruct (logQueue this); [contradiction|reflexivity].
  - unfold flushLogs_settled. rewrite Hfail. reflexivity.
Qed.

Lemma failed_flush_requeues_in_front_witness :
  logQueue (flushLogs_settled (logQueue nine_queued) (Response 500)
              (set_logQueue [a_click] (initial "s")))
  = repeat a_click 9 ++ [a_click].
Proof.
  apply (failed_flush_requeues_in_front nine_queued
           (set_logQueue [a_click] (initial "s")) (Response 500)).
  - discriminate.
  - reflexivity.
Defined.

(** A delivered batch is not put back. *)
Lemma delivered_flush_leaves_queue (logsToSend : list UserInteraction) (o : Outcome)
    (later : t) :
  delivered o = true -> flushLogs_settled logsToSend o later = later.
Proof. intros H. unfold flushLogs_settled. rewrite H. reflexivity. Qed.

(* ===================================================================== *)
(** ** What a record carries of the payload *)
(* ===================================================================== *)

(** Every pushed record holds the payload it was called with, unchanged,
    in its [details] field. *)
Lemma pushed_record_keeps_details (a : Ambient) (event : string) (details : Obj)
    (this this' : t) (done : Done) (r : UserInteraction) :
  logInteraction a event details this = Ok (this', done) ->
  pushed done = Some r ->
  Interaction.details r = details.
Proof.
  intros Hcall Hpush.
  destruct (logInteraction_accepted a event details this this' done r Hcall Hpush)
    as (nc & rq & _ & -> & _).
  reflexivity.
Qed.

(** C1 fails on the code: called with a payload that has a [password], the
    logger derives [password_length] but also stores the payload itself, so
    the password is in the record, in its JSON text and in the CSV line. *)
Theorem password_kept_in_details :
  exists this' done r e,
    logInteraction noon "login_attempt" login_details (initial "s") = Ok (this', done)
    /\ pushed done = Some r
    /\ password_length r = JNum 7
    /\ get "password" (Interaction.details r) = JStr "hunter2"
    /\ includes (serialize r) "hunter2" = true
    /\ includes (serialize r) "[HIDDEN]" = false
    /\ CSVLogger.csvBuffer (csvLogger this') = [e]
    /\ includes (CSVLogger.line e) "hunter2" = true.
Proof.
  do 4 eexists. split; [vm_compute; reflexivity|].
  repeat split; vm_compute; reflexivity.
Qed.

(* ===================================================================== *)
(** ** The log card of the dashboard *)
(* ===================================================================== *)

(** Without [timestamp] and [event_time] the card shows 'Unknown time'. *)
Lemma missing_timestamp_falls_back (log : Obj) :
  truthy (get "timestamp" log) = false ->
  truthy (get "event_time" log) = false ->
  LogViewer.formatTimestamp
    (Js.or (get "timestamp" log) (Js.or (get "event_time" log) (JStr "")))
  = LogViewer.Unknown_time.
Proof.
  intros H1 H2. unfold Js.or. rewrite H1, H2. reflexivity.
Qed.

(** For a record of the logger the card is built. *)
Lemma card_of_complete_record (currentSessionId : string) :
  exists c, LogViewer.card currentSessionId (as_object a_click) = Ok c
            /\ LogViewer.detailsBlock c = Some (JObj click_details).
Proof. eexists. split; vm_compute; reflexivity. Qed.

(** C8 fails on the code: for a stored record without [details] the card
    throws a TypeError at [Object.keys(log.details)]; with [details]
    present but no [viewport] it throws at [log.viewport.width]. *)
Theorem card_throws_without_details :
  LogViewer.card "session_1" backend_test_log = Throw TypeError
  /\ LogViewer.keys_length (get "details" backend_test_log) = Throw TypeError
  /\ LogViewer.card "session_1" (backend_test_log ++ [("details", JObj [])])
     = Throw TypeError.
Proof. repeat split. Qed.

(* ===================================================================== *)
(** ** Input records: debounce expiry and blur *)
(* ===================================================================== *)




Lemma shown_password (v : string) : shown (Some "password") v = "[HIDDEN]".
Proof. reflexivity. Qed.

(** An input record is never noise. *)
Lemma classify_input_change (this : t) (details : Obj) :
  isSystemNoiseEnhanced this "input_change" details = Ok not_noise.
Proof.
  unfold isSystemNoiseEnhanced.
  change (isSystemNoise "input_change" details) with (Ok not_noise).
  cbn [Js.bind isNoise not_noise].
  destruct (strictBusinessAPIFiltering this); reflexivity.
Qed.

(** [logInteraction] touches the queue and the CSV buffer only. *)
Lemma logInteraction_frame (a : Ambient) (event : string) (details : Obj)
    (this this' : t) (done : Done) :
  logInteraction a event details this = Ok (this', done) ->
  inputChangeTimers this' = inputChangeTimers this
  /\ inputChangeValues this' = inputChangeValues this
  /\ isEnabled this' = isEnabled this.
Proof.
  unfold logInteraction.
  destruct (isEnabled this) eqn:Hen; cbn [negb]; [|intros [= <- <-]; auto].
  destruct (isSystemNoiseEnhanced this event details) as [nc|e];
    cbn [Js.bind]; [|discriminate].
  destruct (isNoise nc && negb (logSystemNoise this)); [intros [= <- <-]; auto|].
  destruct (CSVLogger.logToCSV _ _ _) as [csv csvRequests].
  destruct (_ <=? _)%nat.
  - unfold flushLogs. cbn [set_csvLogger set_logQueue logQueue].
    destruct (logQueue this ++ _); intros [= <- <-]; cbn; auto.
  - intros [= <- <-]; cbn; auto.
Qed.

Lemma log_input_change (w : World) (details : Obj) :
  isEnabled (logger w) = true ->
  exists this' requests,
    log "input_change" details w
    = Ok {| logger := this'; clock := clock w; pending := pending w;
            nextHandle := nextHandle w; document := document w; ambient := ambient w;
            emitted := emitted w ++ [input_record w details];
            sent := sent w ++ requests |}
    /\ inputChangeTimers this' = inputChangeTimers (logger w)
    /\ inputChangeValues this' = inputChangeValues (logger w)
    /\ isEnabled this' = true.
Proof.
  intros Hen.
  destruct (logInteraction_accepts (ambient w (List.length (emitted w))) "input_change"
              details (logger w) not_noise Hen (classify_input_change _ _) eq_refl)
    as (this' & done & Hcall & Hpush).
  destruct (logInteraction_frame _ _ _ _ _ _ Hcall) as (Ht & Hv & He).
  exists this', (fetched done). unfold log. rewrite Hcall. cbn [Js.bind].
  rewrite Hpush. cbn [option_list]. unfold input_record.
  repeat split; try assumption. congruence.
Qed.

(** [logInputChangeOnBlur] with logging enabled: one record, made from the
    stored value (or the live one), the timer cancelled and both map
    entries gone. *)
Lemma blur_spec (w : World) (target : Dom.Element) :
  isEnabled (logger w) = true ->
  exists w',
    logInputChangeOnBlur target w = Ok w'
    /\ emitted w'
       = emitted w
           ++ [input_record w
                 (blur_details target
                    (finalValue (inputChangeValues (logger w) !! fieldKey target) target))]
    /\ pending w' = without_timer_of (fieldKey target) w
    /\ inputChangeTimers (logger w') = delete (fieldKey target) (inputChangeTimers (logger w))
    /\ inputChangeValues (logger w') = delete (fieldKey target) (inputChangeValues (logger w))
    /\ isEnabled (logger w') = true
    /\ document w' = document w
    /\ ambient w' = ambient w
    /\ clock w' = clock w.
Proof.
  intros Hen. unfold logInputChangeOnBlur, without_timer_of.
  set (k := fieldKey target).
  destruct (inputChangeTimers (logger w) !! k) as [h|] eqn:Hk.
  - set (w1 := set_logger _ (clearTimeout h w)).
    destruct (log_input_change w1
                (blur_details target (finalValue (inputChangeValues (logger w1) !! k) target))
                Hen) as (this' & rq & Hlog & Ht & Hv & He).
    rewrite Hlog. cbn [Js.bind]. eexists. split; [reflexivity|].
    cbn. rewrite Ht, Hv. repeat split; try assumption; reflexivity.
  - destruct (log_input_change w
                (blur_details target (finalValue (inputChangeValues (logger w) !! k) target))
                Hen) as (this' & rq & Hlog & Ht & Hv & He).
    rewrite Hlog. cbn [Js.bind]. eexists. split; [reflexivity|].
    cbn. rewrite Ht, Hv, (delete_id _ _ Hk).
    repeat split; try assumption; reflexivity.
Qed.

(** [logDebouncedInputChange] with logging enabled, a stored value and an
    element found for the stored name: one record, and both map entries
    gone. *)
Lemma debounced_spec (w : World) (key : string) (inputData : InputData)
    (target : Dom.Element) :
  isEnabled (logger w) = true ->
  inputChangeValues (logger w) !! key = Some inputData ->
  Dom.querySelector (document w) (fieldName inputData) = Ok (Some target) ->
  exists w',
    logDebouncedInputChange key w = Ok w'
    /\ emitted w' = emitted w ++ [input_record w (debounced_details inputData target)]
    /\ pending w' = pending w
    /\ inputChangeTimers (logger w') = delete key (inputChangeTimers (logger w))
    /\ inputChangeValues (logger w') = delete key (inputChangeValues (logger w))
    /\ isEnabled (logger w') = true
    /\ document w' = document w
    /\ ambient w' = ambient w
    /\ clock w' = clock w.
Proof.
  intros Hen Hval Hfound. unfold logDebouncedInputChange.
  rewrite Hval, Hfound. cbn [Js.bind].
  destruct (log_input_change w (debounced_details inputData target) Hen)
    as (this' & rq & Hlog & Ht & Hv & He).
  rewrite Hlog. cbn [Js.bind]. eexists. split; [reflexivity|].
  cbn. rewrite Ht, Hv. repeat split; try assumption; reflexivity.
Qed.

(** Without an element for the stored name the callback writes nothing and
    leaves the world alone. *)
Lemma debounced_not_found (w : World) (key : string) (inputData : InputData) :
  inputChangeValues (logger w) !! key = Some inputData ->
  Dom.querySelector (document w) (fieldName inputData) = Ok None ->
  logDebouncedInputChange key w = Ok w.
Proof.
  intros Hval Hnone. unfold logDebouncedInputChange. rewrite Hval, Hnone. reflexivity.
Qed.


(* ===================================================================== *)
(** ** Small facts about the event loop *)
(* ===================================================================== *)

Lemma debouncedInputChange_same_page (target : Dom.Element) (w : World) :
  same_page w (debouncedInputChange target w).
Proof.
  unfold debouncedInputChange.
  destruct (inputChangeTimers (logger w) !! fieldKey target); repeat split.
Qed.


Lemma run_app (xs ys : list Action) (w : World) :
  run (xs ++ ys) w = run ys (run xs w).
Proof. unfold run. apply fold_left_app. Qed.

Lemma last_cons_default {A} (x d : A) (l : list A) :
  List.last (x :: l) d = List.last l x.
Proof.
  revert x d. induction l as [|y l IH]; intros x d; [reflexivity|].
  change (List.last (x :: y :: l) d) with (List.last (y :: l) d).
  rewrite !IH. reflexivity.
Qed.


Lemma typing_Mus_is_a_burst :
  Forall (fun gt => (fst gt < 500)%nat /\ fieldKey (snd gt) = fieldKey (street "M"))
    typing_Mus.
Proof. repeat constructor; cbn; lia. Qed.



(* ===================================================================== *)
(** ** Further observations on the input path *)
(* ===================================================================== *)

(** On blur a password field is written with the mask and its length. *)
Lemma password_blur_is_masked (w : World) (target : Dom.Element) :
  isEnabled (logger w) = true ->
  Dom.type target = Some "password" ->
  exists w' r,
    logInputChangeOnBlur target w = Ok w'
    /\ emitted w' = emitted w ++ [r]
    /\ inputValue r = JStr "[HIDDEN]"
    /\ get "inputValue" (Interaction.details r) = JStr "[HIDDEN]"
    /\ finalValueLength r
       = length_of (finalValue (inputChangeValues (logger w) !! fieldKey target) target).
Proof.
  intros Hen Hty.
  destruct (blur_spec w target Hen) as (w' & Hrun & Hem & _).
  eexists _, _. split; [exact Hrun|]. split; [exact Hem|].
  cbn. rewrite Hty. repeat split.
Qed.

(** On expiry the mask depends on the element found for the stored name:
    with a wrapper of the same id in front of the password input, the
    typed value is written as it is. *)
Lemma password_shown_when_name_is_shadowed :
  exists r,
    emitted (run [Input (password_input "hunter2"); Wait 500]
               (page "s" [password_wrapper; password_input "hunter2"])) = [r]
    /\ inputValue r = JStr "hunter2"
    /\ inputType r = JUndefined.
Proof. eexists. split; [vm_compute; reflexivity|]. split; reflexivity. Qed.

(* ===================================================================== *)
(** ** More on the noise classifier *)
(* ===================================================================== *)

Lemma prefix_trans (p n s : string) :
  String.prefix p n = true -> String.prefix n s = true -> String.prefix p s = true.
Proof.
  revert n s. induction p as [|a p IH]; intros n s Hpn Hns; [destruct s; reflexivity|].
  destruct n as [|b n]; [discriminate|]. destruct s as [|c s]; [discriminate|].
  cbn in *. destruct (ascii_dec a b) as [->|]; [|discriminate].
  destruct (ascii_dec b c) as [->|]; [|discriminate].
  destruct (ascii_dec c c); [|contradiction]. eapply IH; eassumption.
Qed.

(** A text that contains a needle contains every beginning of the needle. *)
Lemma includes_beginning (s needle beginning : string) :
  String.prefix beginning needle = true ->
  includes s needle = true -> includes s beginning = true.
Proof.
  intros Hp. induction s as [|c s IH]; cbn [includes]; intros H.
  - rewrite orb_false_r in *. apply (prefix_trans _ _ _ Hp H).
  - apply orb_true_iff in H. destruct H as [H|H].
    + rewrite (prefix_trans _ _ _ Hp H). reflexivity.
    + rewrite (IH H). apply orb_true_r.
Qed.

Lemma some_includes_array (xs : list JsVal) (endpoints : list string) :
  exists b, some_includes (JArr xs) endpoints = Ok b.
Proof.
  induction endpoints as [|e rest [b IH]]; cbn; [eauto|].
  destruct (existsb _ xs); eauto.
Qed.

Lemma other_events_are_clean (this : t) (event : string) (details : Obj) :
  event <> "http_request" -> event <> "navigation" ->
  isSystemNoiseEnhanced this event details = Ok not_noise.
Proof.
  intros Hreq Hnav.
  apply String.eqb_neq in Hreq. apply String.eqb_neq in Hnav.
  unfold isSystemNoiseEnhanced, isSystemNoise, http_url_includes.
  rewrite Hreq, Hnav. cbn. rewrite andb_false_r. reflexivity.
Qed.

(** X1: whatever the details and the configuration, an event that is
    neither [http_request] nor [navigation] is classified, without an
    exception, as not noise. *)
Theorem only_requests_and_navigations_can_be_noise (this : t) (event : string)
    (details : Obj) :
  event <> "http_request" -> event <> "navigation" ->
  isSystemNoiseEnhanced this event details = Ok not_noise.
Proof. apply other_events_are_clean. Qed.

Lemma only_requests_and_navigations_can_be_noise_witness :
  isSystemNoiseEnhanced (initial "s") "click"
    [("method", JStr "OPTIONS"); ("statusCode", JNum 302); ("url", JNum 7)]
  = Ok not_noise.
Proof.
  apply only_requests_and_navigations_can_be_noise; discriminate.
Defined.

Lemma navigation_verdict (this : t) (details : Obj) :
  exists verdict,
    isSystemNoiseEnhanced this "navigation" details = Ok verdict
    /\ (isNoise verdict = true <->
        get "statusCode" details = JNum 301 \/ get "statusCode" details = JNum 302
        \/ get "statusCode" details = JNum 308).
Proof.
  unfold isSystemNoiseEnhanced, isSystemNoise, http_url_includes. cbn.
  destruct (get "statusCode" details) as [| |b|n|s|xs|o]; cbn;
    try (rewrite andb_false_r; exists not_noise; split; [reflexivity|];
         split; [discriminate|intros [H|[H|H]]; discriminate]).
  destruct (Z.eqb_spec n 308) as [->|H308]; cbn.
  { eexists. split; [reflexivity|]. split; auto. }
  destruct (Z.eqb_spec n 301) as [->|H301]; cbn.
  { eexists. split; [reflexivity|]. split; auto. }
  destruct (Z.eqb_spec n 302) as [->|H302]; cbn.
  { eexists. split; [reflexivity|]. split; auto. }
  rewrite andb_false_r. exists not_noise. split; [reflexivity|].
  split; [discriminate|]. intros [H|[H|H]]; congruence.
Qed.

(** X2: a [navigation] is noise exactly when its [statusCode] is the
    number 301, 302 or 308; no other field and no configuration matters,
    and the classifier does not throw. *)
Theorem navigation_is_noise_iff_redirect_status (this : t) (details : Obj) :
  exists verdict,
    isSystemNoiseEnhanced this "navigation" details = Ok verdict
    /\ (isNoise verdict = true <->
        get "statusCode" details = JNum 301 \/ get "statusCode" details = JNum 302
        \/ get "statusCode" details = JNum 308).
Proof. apply navigation_verdict. Qed.

(** X3: the classifier throws (a TypeError) exactly for an [http_request]
    that is neither a preflight nor browser-initiated and whose [url] is a
    boolean, a number or an object; for every other input it returns a
    verdict. *)
Theorem classifier_throws_only_on_unsearchable_url (this : t) (event : string)
    (details : Obj) :
  if String.eqb event "http_request"
     && negb (is_str (get "method" details) "OPTIONS")
     && negb (is_str (get "trigger" details) "browser")
     && match get "url" details with
        | JBool _ | JNum _ | JObj _ => true
        | _ => false
        end
  then isSystemNoiseEnhanced this event details = Throw TypeError
  else exists verdict, isSystemNoiseEnhanced this event details = Ok verdict.
Proof.
  destruct (String.eqb_spec event "http_request") as [->|Hreq].
  2:{ cbn [andb].
      destruct (String.eqb_spec event "navigation") as [->|Hnav].
      - destruct (navigation_verdict this details) as (v & Hv & _).
        eauto.
      - rewrite (other_events_are_clean this event details Hreq Hnav).
        eauto. }
  unfold isSystemNoiseEnhanced, isSystemNoise, http_url_includes.
  cbn [String.eqb Ascii.eqb Bool.eqb andb].
  destruct (is_str (get "method" details) "OPTIONS"); cbn [negb andb Js.bind isNoise noise];
    [eauto|].
  destruct (is_str (get "trigger" details) "browser"); cbn [negb andb Js.bind isNoise noise];
    [eauto|].
  destruct (get "url" details) as [| |b|n|u|xs|o] eqn:Hurl;
    cbn [opt_includes includes_call Js.bind truthy andb];
    try reflexivity.
  - cbn [isNoise not_noise]. rewrite andb_false_r. eauto.
  - cbn [isNoise not_noise]. rewrite andb_false_r. eauto.
  - destruct (includes u "/favicon"); [cbn; eauto|].
    destruct (includes u "/health"); [cbn; eauto|].
    destruct (includes u "/api/logs"); [cbn; eauto|].
    destruct (includes u "/api/logs/stats"); [cbn; eauto|].
    destruct (includes u "/socket.io"); [cbn; eauto|].
    cbn [Js.bind isNoise not_noise].
    destruct (strictBusinessAPIFiltering this && true && negb (String.eqb u ""));
      [|eauto].
    rewrite isBusinessAPI_string. cbn [Js.bind].
    destruct (negb _); eauto.
  - destruct (existsb _ xs); [cbn; eauto|].
    destruct (existsb _ xs); [cbn; eauto|].
    destruct (existsb _ xs); [cbn; eauto|].
    destruct (existsb _ xs); [cbn; eauto|].
    destruct (existsb _ xs); [cbn; eauto|].
    cbn [Js.bind isNoise not_noise].
    destruct (strictBusinessAPIFiltering this && true && true); [|eauto].
    destruct (some_includes_array xs businessEndpoints) as [b Hb].
    unfold isBusinessAPI. rewrite Hb. cbn [Js.bind].
    destruct (negb b); eauto.
Qed.

(** X4: for an [http_request] whose [url] is a string the reason
    [logging_stats] is never reported: a URL with [/api/logs/stats] in it
    has [/api/logs] in it and is tagged [logging_endpoint] by the rule
    before. *)
Theorem stats_rule_is_shadowed_for_string_urls (this : t) (details : Obj) (u : string)
    (verdict : NoiseCheck) :
  get "url" details = JStr u ->
  isSystemNoiseEnhanced this "http_request" details = Ok verdict ->
  reason verdict <> Some "logging_stats"
  /\ (includes u "/api/logs/stats" = true ->
      is_str (get "method" details) "OPTIONS" = false ->
      is_str (get "trigger" details) "browser" = false ->
      includes u "/favicon" = false -> includes u "/health" = false ->
      verdict = noise "logging_endpoint").
Proof.
  intros Hurl.
  unfold isSystemNoiseEnhanced, isSystemNoise, http_url_includes.
  cbn [String.eqb Ascii.eqb Bool.eqb andb]. rewrite Hurl.
  cbn [opt_includes includes_call Js.bind truthy].
  destruct (is_str (get "method" details) "OPTIONS");
    [cbn; intros [= <-]; split; [discriminate|discriminate]|].
  destruct (is_str (get "trigger" details) "browser");
    [cbn; intros [= <-]; split; [discriminate|discriminate]|].
  destruct (includes u "/favicon");
    [cbn; intros [= <-]; split; [discriminate|discriminate]|].
  destruct (includes u "/health");
    [cbn; intros [= <-]; split; [discriminate|discriminate]|].
  destruct (includes u "/api/logs") eqn:Hlogs;
    [cbn; intros [= <-]; split; [discriminate|reflexivity]|].
  destruct (includes u "/api/logs/stats") eqn:Hstats.
  { rewrite (includes_beginning u "/api/logs/stats" "/api/logs" eq_refl Hstats) in Hlogs.
    discriminate. }
  destruct (includes u "/socket.io");
    [cbn; intros [= <-]; split; [discriminate|discriminate]|].
  cbn [Js.bind isNoise not_noise].
  destruct (strictBusinessAPIFiltering this && true && negb (String.eqb u ""));
    [|intros [= <-]; split; [discriminate|discriminate]].
  rewrite isBusinessAPI_string. cbn [Js.bind].
  destruct (negb _); intros [= <-]; split; discriminate.
Qed.

Lemma stats_rule_is_shadowed_for_string_urls_witness :
  reason (noise "logging_endpoint") <> Some "logging_stats".
Proof.
  apply (stats_rule_is_shadowed_for_string_urls (initial "s")
           [("url", JStr "http://localhost:5050/api/logs/stats")]
           "http://localhost:5050/api/logs/stats" (noise "logging_endpoint")).
  - reflexivity.
  - vm_compute. reflexivity.
Defined.

(** The ten paths every entry of [businessEndpoints] begins with. *)
Definition businessRoots : list string :=
  [ "/api/customer/"; "/api/restaurant/"; "/api/restaurant_details/"; "/api/orders/";
    "/api/menu/"; "/api/payment/"; "/api/delivery/"; "/api/user/"; "/api/search/";
    "/api/reviews/" ].

(** X5: for a string URL, [isBusinessAPI] answers exactly whether the URL
    contains one of ten paths, [/api/customer/], [/api/restaurant/],
    [/api/restaurant_details/], [/api/orders/], [/api/menu/],
    [/api/payment/], [/api/delivery/], [/api/user/], [/api/search/] or
    [/api/reviews/]; the other 26 entries of the list change nothing. *)
Theorem allow_list_is_its_ten_roots (u : string) :
  isBusinessAPI (JStr u) = Ok (existsb (includes u) businessRoots).
Proof.
  rewrite isBusinessAPI_string. f_equal.
  apply eq_true_iff_eq. rewrite !existsb_exists. split.
  - intros (e & Hin & Hinc).
    assert (H : forallb (fun e => existsb (fun r => String.prefix r e) businessRoots)
                  businessEndpoints = true) by (vm_compute; reflexivity).
    rewrite forallb_forall in H. specialize (H e Hin).
    apply existsb_exists in H. destruct H as (r & Hr & Hpre).
    exists r. split; [exact Hr|]. exact (includes_beginning u e r Hpre Hinc).
  - intros (r & Hin & Hinc). exists r. split; [|exact Hinc].
    assert (H : forallb (fun r => existsb (String.eqb r) businessEndpoints) businessRoots
                = true) by (vm_compute; reflexivity).
    rewrite forallb_forall in H. specialize (H r Hin).
    apply existsb_exists in H. destruct H as (e & He & Heq).
    apply String.eqb_eq in Heq. subst. exact He.
Qed.

(* ===================================================================== *)
(** ** The views, the toggles and the convenience methods *)
(* ===================================================================== *)

Lemma filter_app_one {A} (f : A -> bool) (l : list A) (x : A) :
  List.filter f (l ++ [x]) = List.filter f l ++ (if f x then [x] else []).
Proof. rewrite List.filter_app. cbn. destruct (f x); reflexivity. Qed.

Lemma filter_split_length {A} (f : A -> bool) (l : list A) :
  (List.length (List.filter (fun x => negb (f x)) l) + List.length (List.filter f l)
   = List.length l)%nat.
Proof.
  induction l as [|x l IH]; [reflexivity|].
  cbn. destruct (f x); cbn; lia.
Qed.

(** X6: the two views split the queue: a record is in the user-journey
    view or in the noise view according to its flag, never in both, and
    [getLogs(true)] is the whole queue.  A record pushed below the batch
    size joins the view its verdict names, at the end. *)
Theorem views_split_the_queue (a : Ambient) (event : string) (details : Obj) (this : t)
    (noiseCheck : NoiseCheck) :
  isEnabled this = true ->
  isSystemNoiseEnhanced this event details = Ok noiseCheck ->
  isNoise noiseCheck && negb (logSystemNoise this) = false ->
  (List.length (logQueue this) + 1 < batchSize)%nat ->
  getLogs true this = logQueue this
  /\ (List.length (getUserJourneyLogs this) + List.length (getSystemNoiseLogs this)
      = List.length (logQueue this))%nat
  /\ (forall r, In r (getUserJourneyLogs this) -> ~ In r (getSystemNoiseLogs this))
  /\ exists this' done,
       logInteraction a event details this = Ok (this', done)
       /\ getUserJourneyLogs this'
          = getUserJourneyLogs this
              ++ (if isNoise noiseCheck then []
                  else [build a this noiseCheck event details])
       /\ getSystemNoiseLogs this'
          = getSystemNoiseLogs this
              ++ (if isNoise noiseCheck then [build a this noiseCheck event details]
                  else []).
Proof.
  intros Hen Hnoise Hkeep Hroom.
  split; [reflexivity|]. split.
  { apply filter_split_length. }
  split.
  { unfold getUserJourneyLogs, getLogs, getSystemNoiseLogs.
    intros r H1 H2. apply filter_In in H1, H2.
    destruct H1 as [_ H1], H2 as [_ H2]. rewrite H2 in H1. discriminate. }
  destruct (logInteraction_accepts a event details this noiseCheck Hen Hnoise Hkeep)
    as (this' & done & Hcall & Hpush).
  exists this', done. split; [exact Hcall|].
  destruct (logInteraction_accepted a event details this this' done _ Hcall Hpush)
    as (nc & rq & _ & _ & _ & _ & [(_ & Hq & _)|(Hfull & _)]); [|lia].
  unfold getUserJourneyLogs, getLogs, getSystemNoiseLogs.
  rewrite Hq, !filter_app_one. cbn [system_noise build].
  destruct (isNoise noiseCheck); split; reflexivity.
Qed.

Lemma views_split_the_queue_witness :
  exists this' done,
    logInteraction noon "http_request" [("method", JStr "OPTIONS")] (initial "s")
    = Ok (this', done)
    /\ getUserJourneyLogs this' = []
    /\ List.length (getSystemNoiseLogs this') = 1%nat.
Proof.
  destruct (views_split_the_queue noon "http_request" [("method", JStr "OPTIONS")]
              (initial "s") (noise "cors_preflight"))
    as (_ & _ & _ & this' & done & Hcall & Hj & Hn).
  - reflexivity.
  - reflexivity.
  - reflexivity.
  - vm_compute. lia.
  - exists this', done. split; [exact Hcall|]. split; [exact Hj|].
    rewrite Hn. reflexivity.
Defined.

(** X7: [configureSystemNoise] changes the options it is given and
    nothing else; [getSystemNoiseConfig] reads them back, and writing the
    configuration read from a logger back into it changes nothing.  With
    [logSystemNoise] turned off, an event the classifier calls noise is
    dropped: the logger is left as it was and nothing is posted.  With
    [strictBusinessAPIFiltering] turned off, what passes the basic rules is
    not noise. *)
Theorem noise_toggles_take_effect (a : Ambient) (event : string) (details : Obj)
    (this : t) (options : NoiseOptions) :
  getSystemNoiseConfig (configureSystemNoise options this)
  = {| opt_logSystemNoise :=
         Some (default (logSystemNoise this) (opt_logSystemNoise options));
       opt_filterSystemNoise :=
         Some (default (filterSystemNoise this) (opt_filterSystemNoise options));
       opt_strictBusinessAPIFiltering :=
         Some (default (strictBusinessAPIFiltering this)
                       (opt_strictBusinessAPIFiltering options)) |}
  /\ configureSystemNoise (getSystemNoiseConfig this) this = this
  /\ logQueue (configureSystemNoise options this) = logQueue this
  /\ isEnabled (configureSystemNoise options this) = isEnabled this
  /\ (opt_logSystemNoise options = Some false ->
      forall noiseCheck,
        isSystemNoiseEnhanced (configureSystemNoise options this) event details
        = Ok noiseCheck ->
        isNoise noiseCheck = true ->
        logInteraction a event details (configureSystemNoise options this)
        = Ok (configureSystemNoise options this, nothing))
  /\ (opt_strictBusinessAPIFiltering options = Some false ->
      isSystemNoise event details = Ok not_noise ->
      isSystemNoiseEnhanced (configureSystemNoise options this) event details
      = Ok not_noise).
Proof.
  split; [reflexivity|]. split; [destruct this; reflexivity|].
  split; [reflexivity|]. split; [reflexivity|]. split.
  - intros Hoff noiseCheck Hnoise His.
    apply (noise_dropped_when_toggled_off a event details _ noiseCheck Hnoise His).
    cbn. rewrite Hoff. reflexivity.
  - intros Hoff Hbasic. unfold isSystemNoiseEnhanced. rewrite Hbasic.
    cbn. rewrite Hoff. reflexivity.
Qed.

Lemma noise_toggles_take_effect_witness :
  let quiet := configureSystemNoise
                 {| opt_logSystemNoise := Some false; opt_filterSystemNoise := None;
                    opt_strictBusinessAPIFiltering := Some false |} (initial "s") in
  logInteraction noon "navigation" [("statusCode", JNum 302)] quiet = Ok (quiet, nothing)
  /\ isSystemNoiseEnhanced quiet "http_request" [("url", JStr "/api/unknown/thing")]
     = Ok not_noise.
Proof.
  intros quiet.
  destruct (noise_toggles_take_effect noon "navigation" [("statusCode", JNum 302)]
              (initial "s")
              {| opt_logSystemNoise := Some false; opt_filterSystemNoise := None;
                 opt_strictBusinessAPIFiltering := Some false |})
    as (_ & _ & _ & _ & Hdrop & _).
  destruct (noise_toggles_take_effect noon "http_request"
              [("url", JStr "/api/unknown/thing")] (initial "s")
              {| opt_logSystemNoise := Some false; opt_filterSystemNoise := None;
                 opt_strictBusinessAPIFiltering := Some false |})
    as (_ & _ & _ & _ & _ & Hstrict).
  split.
  - apply (Hdrop eq_refl (noise "temporary_redirect")); reflexivity.
  - apply Hstrict; reflexivity.
Defined.

Lemma get_define (k k' : string) (v : JsVal) (o : Obj) :
  get k (define k' v o) = if String.eqb k k' then v else get k o.
Proof.
  induction o as [|[k0 v0] o IH]; cbn.
  - destruct (String.eqb k k'); reflexivity.
  - destruct (String.eqb_spec k' k0) as [->|Hne]; cbn.
    + destruct (String.eqb k k0); reflexivity.
    + rewrite IH. destruct (String.eqb_spec k k0) as [->|]; [|reflexivity].
      destruct (String.eqb_spec k0 k') as [->|]; [contradiction|reflexivity].
Qed.

Lemma get_absent (k : string) (o : Obj) :
  ~ In k (map fst o) -> get k o = JUndefined.
Proof.
  induction o as [|[k0 v0] o IH]; cbn; intros H; [reflexivity|].
  destruct (String.eqb_spec k k0) as [->|]; [exfalso; auto|]. apply IH. auto.
Qed.

(** Reading a spread: a property of [extra] wins, given that [extra], as
    an object, names each property once. *)
Lemma get_spread (k : string) (o extra : Obj) :
  NoDup (map fst extra) ->
  get k (spread o extra) = if existsb (String.eqb k) (map fst extra) then get k extra
                           else get k o.
Proof.
  unfold spread. revert o. induction extra as [|[k0 v0] extra IH]; intros o Hnd;
    [reflexivity|].
  cbn [fold_left fst snd map existsb get]. inversion Hnd as [|? ? Hnotin Hnd']; subst.
  rewrite (IH _ Hnd'), get_define.
  destruct (String.eqb_spec k k0) as [->|Hne]; cbn [orb].
  - destruct (existsb (String.eqb k0) (map fst extra)) eqn:E; [|reflexivity].
    apply existsb_exists in E. destruct E as (x & Hx & Heq).
    apply String.eqb_eq in Heq. subst. exfalso. apply Hnotin, list_elem_of_In, Hx.
  - reflexivity.
Qed.

(** X8: with logging enabled, each convenience method pushes exactly one
    record under its fixed event name, never flagged as noise; so a
    navigation logged through [logNavigation] is never counted as a
    redirect.  The call returns without an exception for strings and
    numbers as arguments and for [additionalDetails] made of the JSON data
    of the model (null, booleans, integers, strings, arrays, objects); a
    BigInt or a cyclic object in [additionalDetails], on which
    [JSON.stringify] in the CSV mirror throws, is no such value and is not
    covered.  The payload of [logButtonClick] reads a property from
    [additionalDetails] when it is there, also [trigger], [buttonText] and
    [schema_version], and from the fixed part otherwise. *)
Theorem convenience_methods_push_one_clean_record (a : Ambient) (this : t) :
  isEnabled this = true ->
  (forall buttonText buttonId additionalDetails,
     exists this' done r,
       logButtonClick a buttonText buttonId additionalDetails this = Ok (this', done)
       /\ pushed done = Some r /\ event_name r = "button_click"
       /\ system_noise r = false
       /\ Interaction.details r
          = button_click_details buttonText buttonId additionalDetails)
  /\ (forall from to method,
        exists this' done r,
          logNavigation a from to method this = Ok (this', done)
          /\ pushed done = Some r /\ event_name r = "navigation"
          /\ system_noise r = false)
  /\ (forall message stack context,
        exists this' done r,
          logError a message stack context this = Ok (this', done)
          /\ pushed done = Some r /\ event_name r = "error" /\ system_noise r = false)
  /\ (forall metric value unit,
        exists this' done r,
          logPerformance a metric value unit this = Ok (this', done)
          /\ pushed done = Some r /\ event_name r = "performance"
          /\ system_noise r = false)
  /\ (forall search hash referrer,
        exists this' done r,
          logPageView a search hash referrer this = Ok (this', done)
          /\ pushed done = Some r /\ event_name r = "page_view"
          /\ system_noise r = false)
  /\ (forall buttonText buttonId extra k,
        NoDup (map fst extra) ->
        get k (button_click_details buttonText buttonId (Some extra))
        = if existsb (String.eqb k) (map fst extra) then get k extra
          else get k (button_click_details buttonText buttonId None)).
Proof.
  intros Hen.
  assert (Hclean : forall event details,
             isSystemNoiseEnhanced this event details = Ok not_noise ->
             exists this' done r,
               logInteraction a event details this = Ok (this', done)
               /\ pushed done = Some r /\ event_name r = event
               /\ system_noise r = false /\ Interaction.details r = details).
  { intros event details Hnot.
    destruct (logInteraction_accepts a event details this not_noise Hen Hnot eq_refl)
      as (this' & done & Hcall & Hpush).
    exists this', done, (build a this not_noise event details). auto. }
  split; [|split; [|split; [|split; [|split]]]].
  - intros buttonText buttonId additionalDetails.
    destruct (Hclean "button_click"
                (button_click_details buttonText buttonId additionalDetails))
      as (this' & done & r & H); [|exists this', done, r; exact H].
    apply other_events_are_clean; discriminate.
  - intros from to method.
    edestruct (Hclean "navigation") as (this' & done & r & H1 & H2 & H3 & H4 & _);
      [|exists this', done, r; split; [exact H1|auto]].
    unfold isSystemNoiseEnhanced. cbn. rewrite andb_false_r. reflexivity.
  - intros message stack context.
    edestruct (Hclean "error") as (this' & done & r & H1 & H2 & H3 & H4 & _);
      [|exists this', done, r; split; [exact H1|auto]].
    apply other_events_are_clean; discriminate.
  - intros metric value unit.
    edestruct (Hclean "performance") as (this' & done & r & H1 & H2 & H3 & H4 & _);
      [|exists this', done, r; split; [exact H1|auto]].
    apply other_events_are_clean; discriminate.
  - intros search hash referrer.
    edestruct (Hclean "page_view") as (this' & done & r & H1 & H2 & H3 & H4 & _);
      [|exists this', done, r; split; [exact H1|auto]].
    apply other_events_are_clean; discriminate.
  - intros buttonText buttonId extra k Hnd.
    unfold button_click_details. cbn [default].
    rewrite (get_spread _ _ _ Hnd). reflexivity.
Qed.

Lemma convenience_methods_push_one_clean_record_witness :
  exists this' done r,
    logNavigation noon "/menu" "/checkout" None (initial "s") = Ok (this', done)
    /\ pushed done = Some r /\ event_name r = "navigation" /\ system_noise r = false.
Proof.
  destruct (convenience_methods_push_one_clean_record noon (initial "s") eq_refl)
    as (_ & Hnav & _).
  exact (Hnav "/menu" "/checkout" None).
Defined.

(* ===================================================================== *)
(** ** The CSV mirror and the two queues under failure *)
(* ===================================================================== *)

(** X9: the CSV entry written for a logger record never carries the event
    name: the record has [event_name], the formatter reads [event] and
    [action], so the event column is always 'unknown' and the action column
    empty; the details column is the JSON text of the payload. *)
Theorem csv_mirror_has_no_event_name (iso : string) (r : UserInteraction) :
  let entry := CSVLogger.formatToCSVEntry iso (as_object r) in
  CSVLogger.event entry = JStr "unknown"
  /\ CSVLogger.action entry = JStr ""
  /\ CSVLogger.details entry = of_option (stringify (JObj (Interaction.details r)))
  /\ CSVLogger.column "event" entry = JStr "unknown".
Proof. cbn. repeat split. Qed.



(** X11: no request with an empty batch is ever made: whatever
    [logInteraction] hands to [fetch] carries at least one record or one
    line, and so does a flush of either queue. *)
Theorem no_empty_batch_is_posted (a : Ambient) (event : string) (details : Obj)
    (this this' : t) (done : Done) (rq : Request) :
  (logInteraction a event details this = Ok (this', done) /\ In rq (fetched done)
   \/ In rq (snd (flushLogs this))
   \/ In rq (snd (CSVLogger.flush (csvLogger this)))) ->
  match rq with
  | PostLogs logs => logs <> []
  | PostCsv csv_data _ => csv_data <> []
  end.
Proof.
  assert (Hjson : forall l, In rq (snd (flushLogs l)) ->
                            match rq with
                            | PostLogs logs => logs <> []
                            | PostCsv csv_data _ => csv_data <> []
                            end).
  { intros l. unfold flushLogs. destruct (logQueue l); cbn; [tauto|].
    intros [<-|[]]. discriminate. }
  assert (Hcsv : forall c, In rq (snd (CSVLogger.flush c)) ->
                           match rq with
                           | PostLogs logs => logs <> []
                           | PostCsv csv_data _ => csv_data <> []
                           end).
  { intros c. unfold CSVLogger.flush. destruct (CSVLogger.csvBuffer c); cbn; [tauto|].
    intros [<-|[]]. discriminate. }
  intros [[Hcall Hin]|[Hin|Hin]]; [|exact (Hjson _ Hin)|exact (Hcsv _ Hin)].
  revert Hcall Hin. unfold logInteraction.
  destruct (isEnabled this); cbn [negb]; [|intros [= <- <-] []].
  destruct (isSystemNoiseEnhanced this event details) as [nc|e];
    cbn [Js.bind]; [|discriminate].
  destruct (isNoise nc && negb (logSystemNoise this)); [intros [= <- <-] []|].
  set (l1 := set_logQueue _ this).
  assert (Hlog : forall c, In rq (snd (CSVLogger.logToCSV (csv_iso a)
                                        (as_object (build a this nc event details)) c)) ->
                           match rq with
                           | PostLogs logs => logs <> []
                           | PostCsv csv_data _ => csv_data <> []
                           end).
  { intros c. unfold CSVLogger.logToCSV. destruct (_ <=? _)%nat; [apply Hcsv|intros []]. }
  specialize (Hlog (csvLogger l1)).
  destruct (CSVLogger.logToCSV _ _ (csvLogger l1)) as [csv csvRequests].
  cbn [snd] in Hlog.
  destruct (_ <=? _)%nat.
  - specialize (Hjson (set_csvLogger csv l1)).
    destruct (flushLogs (set_csvLogger csv l1)) as [l2 requests]. cbn [snd] in Hjson.
    intros [= <- <-]. cbn [fetched]. intros Hin. apply in_app_or in Hin. tauto.
  - intros [= <- <-]. cbn [fetched]. exact Hlog.
Qed.

Lemma no_empty_batch_is_posted_witness :
  [a_click] <> [].
Proof.
  apply (no_empty_batch_is_posted noon "click" click_details
           (set_logQueue [a_click] (initial "s")) (initial "s") nothing
           (PostLogs [a_click])).
  right. left. vm_compute. left. reflexivity.
Defined.

(** X12: a batch put back after a failed delivery is sent again first: the
    next flush posts it, in its order, followed by the records queued
    since, in one request.  When two flushes overlap and both fail, the
    batches are put back in the order the requests settle, so that the
    batch whose request fails last ends up in front, also when it is the
    newer one. *)
Theorem requeued_batch_is_retried_first (this later : t) (older newer : list UserInteraction)
    (o o' : Outcome) :
  logQueue this <> [] ->
  delivered o = false ->
  delivered o' = false ->
  snd (flushLogs (flushLogs_settled (logQueue this) o later))
  = [PostLogs (logQueue this ++ logQueue later)]
  /\ logQueue (flushLogs_settled newer o' (flushLogs_settled older o later))
     = newer ++ older ++ logQueue later.
Proof.
  intros Hne Hfail Hfail'. unfold flushLogs_settled. rewrite Hfail, Hfail'. split.
  - unfold flushLogs. cbn [logQueue set_logQueue].
    destruct (logQueue this ++ logQueue later) eqn:E; [|reflexivity].
    destruct (logQueue this); [contradiction|discriminate].
  - reflexivity.
Qed.

Lemma requeued_batch_is_retried_first_witness :
  snd (flushLogs (flushLogs_settled (logQueue nine_queued) NetworkError (initial "s")))
  = [PostLogs (repeat a_click 9)].
Proof.
  destruct (requeued_batch_is_retried_first nine_queued (initial "s") [] []
              NetworkError NetworkError) as [H _].
  - discriminate.
  - reflexivity.
  - reflexivity.
  - rewrite H. vm_compute. reflexivity.
Defined.

(* ===================================================================== *)
(** ** The debouncer as a whole *)
(* ===================================================================== *)

Lemma schedule_In (tm x : Timer) (p : list Timer) :
  In x (schedule tm p) <-> x = tm \/ In x p.
Proof.
  induction p as [|tm' p IH]; cbn; [intuition congruence|].
  destruct (due tm' <=? due tm)%nat; cbn; [rewrite IH|]; intuition congruence.
Qed.

Lemma schedule_handles (tm : Timer) (p : list Timer) :
  ~ In (handle tm) (map handle p) ->
  List.NoDup (map handle p) ->
  List.NoDup (map handle (schedule tm p)).
Proof.
  induction p as [|tm' p IH]; cbn; intros Hnew Hnd.
  - constructor; [tauto|constructor].
  - apply List.NoDup_cons_iff in Hnd. destruct Hnd as [Hnotin Hnd].
    destruct (due tm' <=? due tm)%nat; cbn.
    + constructor.
      * intros Hin. apply in_map_iff in Hin. destruct Hin as (x & Hx & Hin).
        apply schedule_In in Hin. destruct Hin as [->|Hin]; [auto|].
        apply Hnotin. rewrite <- Hx. apply in_map. exact Hin.
      * apply IH; auto.
    + constructor; [cbn; intros [H|H]; auto|]. constructor; assumption.
Qed.

Lemma filter_handles (f : Timer -> bool) (p : list Timer) :
  List.NoDup (map handle p) -> List.NoDup (map handle (List.filter f p)).
Proof.
  induction p as [|tm p IH]; cbn; intros Hnd; [constructor|].
  apply List.NoDup_cons_iff in Hnd. destruct Hnd as [Hnotin Hnd].
  destruct (f tm); cbn; [|auto].
  constructor; [|auto]. intros Hin. apply Hnotin.
  apply in_map_iff in Hin. destruct Hin as (x & Hx & Hin).
  apply filter_In in Hin. rewrite <- Hx. apply in_map. tauto.
Qed.

Lemma same_handle_same_timer (p : list Timer) (tm tm' : Timer) :
  List.NoDup (map handle p) -> In tm p -> In tm' p -> handle tm = handle tm' ->
  tm = tm'.
Proof.
  induction p as [|x p IH]; cbn; intros Hnd H1 H2 Heq; [contradiction|].
  apply List.NoDup_cons_iff in Hnd. destruct Hnd as [Hnotin Hnd].
  destruct H1 as [->|H1], H2 as [->|H2]; [reflexivity| | |auto].
  - exfalso. apply Hnotin. rewrite Heq. apply in_map. exact H2.
  - exfalso. apply Hnotin. rewrite <- Heq. apply in_map. exact H1.
Qed.

(** What [debouncedInputChange] does to the timer table and the maps. *)
Lemma debouncedInputChange_shape (target : Dom.Element) (w : World) :
  let w' := debouncedInputChange target w in
  pending w'
  = schedule {| handle := nextHandle w; due := clock w + 500;
                callbackKey := fieldKey target |}
             (without_timer_of (fieldKey target) w)
  /\ nextHandle w' = S (nextHandle w)
  /\ inputChangeTimers (logger w')
     = <[fieldKey target := nextHandle w]> (inputChangeTimers (logger w))
  /\ inputChangeValues (logger w')
     = <[fieldKey target := stored_for target]> (inputChangeValues (logger w)).
Proof.
  unfold debouncedInputChange, without_timer_of.
  destruct (inputChangeTimers (logger w) !! fieldKey target); repeat split.
Qed.

(** A timer that survives the cancelling of key [k]'s timer belongs to
    another key. *)
Lemma survivor_has_other_key (k : string) (w : World) (tm : Timer) :
  consistent w -> In tm (without_timer_of k w) ->
  In tm (pending w) /\ callbackKey tm <> k.
Proof.
  intros [Hreg _]. unfold without_timer_of.
  destruct (inputChangeTimers (logger w) !! k) as [h|] eqn:Hk.
  - intros Hin. apply filter_In in Hin. destruct Hin as [Hin Hh].
    split; [exact Hin|]. intros <-.
    destruct (Hreg tm Hin) as (Ht & _). rewrite Ht in Hk. injection Hk as <-.
    rewrite Nat.eqb_refl in Hh. discriminate.
  - intros Hin. split; [exact Hin|]. intros <-.
    destruct (Hreg tm Hin) as (Ht & _). congruence.
Qed.

Lemma without_timer_of_handles (k : string) (w : World) :
  List.NoDup (map handle (pending w)) ->
  List.NoDup (map handle (without_timer_of k w)).
Proof.
  unfold without_timer_of. destruct (_ !! k); [apply filter_handles|auto].
Qed.

Lemma consistent_input (target : Dom.Element) (w : World) :
  consistent w -> consistent (debouncedInputChange target w).
Proof.
  intros Hc. destruct (debouncedInputChange_shape target w) as (Hp & Hn & Ht & Hv).
  cbv zeta in *. split.
  - intros tm Hin. rewrite Hp in Hin. apply schedule_In in Hin.
    unfold registered. rewrite Hn, Ht, Hv. destruct Hin as [->|Hin]; cbn.
    + rewrite !lookup_insert_eq. repeat split; eauto.
    + destruct (survivor_has_other_key _ _ _ Hc Hin) as [Hin' Hne].
      destruct Hc as [Hreg _]. destruct (Hreg tm Hin') as (H1 & H2 & H3).
      rewrite !lookup_insert_ne by congruence. repeat split; auto.
  - rewrite Hp. apply schedule_handles.
    + cbn. intros Hin. apply in_map_iff in Hin. destruct Hin as (x & Hx & Hin).
      destruct (survivor_has_other_key _ _ _ Hc Hin) as [Hin' _].
      destruct Hc as [Hreg _]. destruct (Hreg x Hin') as (_ & _ & H3). lia.
    + apply without_timer_of_handles. apply Hc.
Qed.

(** [log] leaves the timer table and the two maps alone. *)
Lemma log_frame (event : string) (details : Obj) (w w' : World) :
  log event details w = Ok w' ->
  pending w' = pending w
  /\ nextHandle w' = nextHandle w
  /\ inputChangeTimers (logger w') = inputChangeTimers (logger w)
  /\ inputChangeValues (logger w') = inputChangeValues (logger w).
Proof.
  unfold log.
  destruct (logInteraction _ event details (logger w)) as [[this done]|e] eqn:Hcall;
    cbn [Js.bind]; [|discriminate].
  intros [= <-]. cbn.
  destruct (logInteraction_frame _ _ _ _ _ _ Hcall) as (Ht & Hv & _). auto.
Qed.

(** What a blur does to the timer table and the maps, whether or not the
    record could be written. *)
Lemma blur_step_shape (target : Dom.Element) (w : World) :
  let w' := step (Blur target) w in
  pending w' = without_timer_of (fieldKey target) w
  /\ nextHandle w' = nextHandle w
  /\ inputChangeTimers (logger w') = delete (fieldKey target) (inputChangeTimers (logger w))
  /\ (inputChangeValues (logger w') = delete (fieldKey target) (inputChangeValues (logger w))
      \/ inputChangeValues (logger w') = inputChangeValues (logger w)).
Proof.
  cbn [step]. unfold logInputChangeOnBlur, without_timer_of.
  set (k := fieldKey target).
  destruct (inputChangeTimers (logger w) !! k) as [h|] eqn:Hk.
  - match goal with
    | |- context [Js.bind (log ?e ?d ?w1) _] =>
        destruct (log e d w1) as [w2|err] eqn:Hlog
    end; cbn [Js.bind].
    + destruct (log_frame _ _ _ _ Hlog) as (Hp & Hn & Ht & Hv).
      cbn. rewrite Hp, Hn, Ht, Hv. cbn. auto.
    + cbn. auto.
  - match goal with
    | |- context [Js.bind (log ?e ?d ?w1) _] =>
        destruct (log e d w1) as [w2|err] eqn:Hlog
    end; cbn [Js.bind].
    + destruct (log_frame _ _ _ _ Hlog) as (Hp & Hn & Ht & Hv).
      cbn. rewrite Hp, Hn, Ht, Hv, (delete_id _ _ Hk). auto.
    + rewrite (delete_id _ _ Hk). auto.
Qed.

Lemma consistent_blur (target : Dom.Element) (w : World) :
  consistent w -> consistent (step (Blur target) w).
Proof.
  intros Hc. destruct (blur_step_shape target w) as (Hp & Hn & Ht & Hv).
  cbv zeta in *. split.
  - intros tm Hin. rewrite Hp in Hin.
    destruct (survivor_has_other_key _ _ _ Hc Hin) as [Hin' Hne].
    destruct Hc as [Hreg _]. destruct (Hreg tm Hin') as (H1 & H2 & H3).
    unfold registered. rewrite Hn, Ht, lookup_delete_ne by congruence.
    repeat split; auto.
    destruct Hv as [-> | ->]; [rewrite lookup_delete_ne by congruence|]; exact H2.
  - rewrite Hp. apply without_timer_of_handles, Hc.
Qed.

(** What the expiry callback does to the timer table and the maps. *)
Lemma debounced_shape (key : string) (w w' : World) :
  logDebouncedInputChange key w = Ok w' ->
  pending w' = pending w
  /\ nextHandle w' = nextHandle w
  /\ (inputChangeTimers (logger w') = inputChangeTimers (logger w)
      /\ inputChangeValues (logger w') = inputChangeValues (logger w)
      \/ inputChangeTimers (logger w') = delete key (inputChangeTimers (logger w))
         /\ inputChangeValues (logger w') = delete key (inputChangeValues (logger w))).
Proof.
  unfold logDebouncedInputChange.
  destruct (inputChangeValues (logger w) !! key) as [inputData|];
    [|intros [= <-]; auto].
  destruct (Dom.querySelector _ _) as [[target|]|e]; cbn [Js.bind];
    [|intros [= <-]; auto|discriminate].
  destruct (log _ _ w) as [w2|e] eqn:Hlog; cbn [Js.bind]; [|discriminate].
  destruct (log_frame _ _ _ _ Hlog) as (Hp & Hn & Ht & Hv).
  intros [= <-]. cbn. rewrite Ht, Hv. auto.
Qed.

Lemma consistent_fire (tm : Timer) (w : World) :
  consistent w -> In tm (pending w) ->
  consistent (fire tm w) /\ incl (pending (fire tm w)) (pending w).
Proof.
  intros [Hreg Hnd] Hin. unfold fire.
  set (w1 := clearTimeout (handle tm) w).
  assert (Hsurv : forall tm', In tm' (pending w1) ->
                              In tm' (pending w) /\ callbackKey tm' <> callbackKey tm).
  { intros tm' H. cbn in H. apply filter_In in H. destruct H as [H Hh].
    split; [exact H|]. intros Hk.
    destruct (Hreg tm Hin) as (Ht & _). destruct (Hreg tm' H) as (Ht' & _).
    rewrite Hk, Ht in Ht'. injection Ht' as Ht'. rewrite Ht', Nat.eqb_refl in Hh.
    discriminate. }
  assert (Hc1 : consistent w1).
  { split; [|apply filter_handles, Hnd].
    intros tm' H. destruct (Hsurv tm' H) as [H' _]. exact (Hreg tm' H'). }
  assert (Hincl : incl (pending w1) (pending w)).
  { intros tm' H. apply (Hsurv tm' H). }
  destruct (logDebouncedInputChange (callbackKey tm) w1) as [w2|e] eqn:Hrun;
    [|split; assumption].
  destruct (debounced_shape _ _ _ Hrun) as (Hp & Hn & Hmaps).
  split; [|rewrite Hp; exact Hincl].
  split; [|rewrite Hp; apply Hc1].
  intros tm' H. rewrite Hp in H. destruct (Hsurv tm' H) as [H' Hne].
  destruct (Hreg tm' H') as (H1 & H2 & H3).
  unfold registered. rewrite Hn.
  destruct Hmaps as [[-> ->]|[-> ->]].
  - repeat split; assumption.
  - rewrite !lookup_delete_ne by congruence. repeat split; assumption.
Qed.

Lemma consistent_fold_fire (due_now : list Timer) (w : World) :
  consistent w ->
  (forall tm, In tm due_now -> In tm (pending w) \/
                               forall tm', In tm' (pending w) -> handle tm' <> handle tm) ->
  consistent
    (fold_left
       (fun w tm =>
          if existsb (fun tm' => (handle tm' =? handle tm)%nat) (pending w)
          then fire tm w else w)
       due_now w).
Proof.
  revert w. induction due_now as [|tm rest IH]; intros w Hc Hdue; [exact Hc|].
  cbn [fold_left].
  destruct (existsb _ (pending w)) eqn:Hex.
  - assert (Hin : In tm (pending w)).
    { destruct (Hdue tm (or_introl eq_refl)) as [H|H]; [exact H|].
      apply existsb_exists in Hex. destruct Hex as (tm' & Hin' & Heq).
      apply Nat.eqb_eq in Heq. destruct (H tm' Hin' Heq). }
    destruct (consistent_fire tm w Hc Hin) as [Hc' Hincl].
    apply IH; [exact Hc'|].
    intros tm0 H0. destruct (Hc') as [_ Hnd'].
    destruct (in_dec Nat.eq_dec (handle tm0) (map handle (pending (fire tm w))))
      as [Hyes|Hno].
    + apply in_map_iff in Hyes. destruct Hyes as (tm1 & Heq & Hin1).
      destruct (Hdue tm0 (or_intror H0)) as [H|H].
      * left. destruct Hc as [_ Hnd].
        rewrite <- (same_handle_same_timer _ _ _ Hnd (Hincl _ Hin1) H Heq). exact Hin1.
      * destruct (H tm1 (Hincl _ Hin1) Heq).
    + right. intros tm' Hin' Heq. apply Hno. rewrite <- Heq. apply in_map. exact Hin'.
  - apply IH; [exact Hc|]. intros tm0 H0. apply Hdue. right. exact H0.
Qed.

Lemma consistent_advance (ms : nat) (w : World) :
  consistent w -> consistent (advance ms w).
Proof.
  intros Hc. unfold advance. apply consistent_fold_fire; [exact Hc|].
  intros tm Hin. left. apply filter_In in Hin. apply Hin.
Qed.

Lemma consistent_run (acts : list Action) (w : World) :
  consistent w -> consistent (run acts w).
Proof.
  revert w. induction acts as [|act acts IH]; intros w Hc; [exact Hc|].
  change (run (act :: acts) w) with (run acts (step act w)).
  apply IH. destruct act as [target|target|ms].
  - apply consistent_input, Hc.
  - apply consistent_blur, Hc.
  - apply consistent_advance, Hc.
Qed.

(** X13: starting with no timer pending, after any sequence of input
    events, blurs and waits on any fields, every pending debounce timer is
    the one registered for its field key and has a value stored for it, and
    no two pending timers belong to the same key: an input event on a key
    always replaces that key's timer. *)
Theorem one_pending_timer_per_field (acts : list Action) (w : World) :
  pending w = [] ->
  let w' := run acts w in
  (forall tm, In tm (pending w') ->
     inputChangeTimers (logger w') !! callbackKey tm = Some (handle tm)
     /\ is_Some (inputChangeValues (logger w') !! callbackKey tm))
  /\ (forall tm tm', In tm (pending w') -> In tm' (pending w') ->
        callbackKey tm = callbackKey tm' -> tm = tm').
Proof.
  intros Hp w'.
  assert (Hc : consistent w').
  { apply consistent_run. split; rewrite Hp; [intros tm []|constructor]. }
  destruct Hc as [Hreg Hnd]. split.
  - intros tm Hin. destruct (Hreg tm Hin) as (H1 & H2 & _). auto.
  - intros tm tm' Hin Hin' Hk.
    apply (same_handle_same_timer _ _ _ Hnd Hin Hin').
    destruct (Hreg tm Hin) as (H1 & _). destruct (Hreg tm' Hin') as (H1' & _).
    rewrite Hk in H1. congruence.
Qed.

Lemma one_pending_timer_per_field_witness :
  let w' := run [Input (street "M"); Wait 100; Input (password_input "h");
                 Wait 100; Input (street "Mu")]
                (page "s" [street ""]) in
  List.length (pending w') = 2%nat
  /\ forall tm tm', In tm (pending w') -> In tm' (pending w') ->
       callbackKey tm = callbackKey tm' -> tm = tm'.
Proof.
  intros w'. split; [vm_compute; reflexivity|].
  apply (one_pending_timer_per_field
           [Input (street "M"); Wait 100; Input (password_input "h");
            Wait 100; Input (street "Mu")] (page "s" [street ""])).
  reflexivity.
Defined.

(* ===================================================================== *)
(** ** Timers firing while several fields are mid-debounce *)
(* ===================================================================== *)

Lemma filter_filter_and {A} (f g : A -> bool) (l : list A) :
  List.filter f (List.filter g l) = List.filter (fun x => g x && f x) l.
Proof.
  induction l as [|x l IH]; [reflexivity|]. cbn.
  destruct (g x); cbn; [destruct (f x)|]; rewrite IH; reflexivity.
Qed.

Lemma filter_length_split {A} (f g h : A -> bool) (l : list A) :
  (forall x, In x l -> f x = g x || h x) ->
  (forall x, In x l -> g x && h x = false) ->
  List.length (List.filter f l)
  = (List.length (List.filter g l) + List.length (List.filter h l))%nat.
Proof.
  induction l as [|x l IH]; intros Hf Hd; [reflexivity|].
  cbn. rewrite (Hf x (or_introl eq_refl)).
  pose proof (Hd x (or_introl eq_refl)) as Hx.
  assert (IH' := IH (fun y Hy => Hf y (or_intror Hy)) (fun y Hy => Hd y (or_intror Hy))).
  destruct (g x), (h x); cbn in *; try discriminate; rewrite IH'; lia.
Qed.

Lemma filter_all {A} (f : A -> bool) (l : list A) :
  (forall x, In x l -> f x = true) -> List.filter f l = l.
Proof.
  induction l as [|x l IH]; intros H; [reflexivity|]. cbn.
  rewrite (H x (or_introl eq_refl)), IH; [reflexivity|].
  intros y Hy. apply H. right. exact Hy.
Qed.

Lemma filter_none {A} (f : A -> bool) (l : list A) :
  (forall x, In x l -> f x = false) -> List.filter f l = [].
Proof.
  induction l as [|x l IH]; intros H; [reflexivity|]. cbn.
  rewrite (H x (or_introl eq_refl)). apply IH.
  intros y Hy. apply H. right. exact Hy.
Qed.

Lemma NoDup_map_filter {A B} (f : A -> B) (g : A -> bool) (l : list A) :
  List.NoDup (map f l) -> List.NoDup (map f (List.filter g l)).
Proof.
  induction l as [|x l IH]; cbn; intros Hnd; [constructor|].
  apply List.NoDup_cons_iff in Hnd. destruct Hnd as [Hnotin Hnd].
  destruct (g x); cbn; [|auto].
  constructor; [|auto]. intros Hin. apply Hnotin.
  apply in_map_iff in Hin. destruct Hin as (y & Hy & Hin).
  apply filter_In in Hin. rewrite <- Hy. apply in_map. tauto.
Qed.

(** Pending timers have different keys, since the map of timers gives each
    key one handle. *)
Lemma keys_distinct (m : gmap string nat) (p : list Timer) :
  (forall tm, In tm p -> m !! callbackKey tm = Some (handle tm)) ->
  List.NoDup (map handle p) -> List.NoDup (map callbackKey p).
Proof.
  induction p as [|x p IH]; cbn; intros Hreg Hnd; [constructor|].
  apply List.NoDup_cons_iff in Hnd. destruct Hnd as [Hnotin Hnd].
  constructor; [|apply IH; auto].
  intros Hin. apply in_map_iff in Hin. destruct Hin as (y & Hy & Hin).
  apply Hnotin.
  assert (Hh : handle y = handle x).
  { pose proof (Hreg y (or_intror Hin)) as H1.
    pose proof (Hreg x (or_introl eq_refl)) as H2.
    rewrite Hy, H2 in H1. congruence. }
  rewrite <- Hh. apply in_map. exact Hin.
Qed.

Lemma pending_keys_distinct (w : World) :
  consistent w -> List.NoDup (map callbackKey (pending w)).
Proof.
  intros [Hreg Hnd]. apply (keys_distinct (inputChangeTimers (logger w))); [|exact Hnd].
  intros tm Hin. apply (Hreg tm Hin).
Qed.

Lemma same_key_same_timer (w : World) (tm tm' : Timer) :
  consistent w -> In tm (pending w) -> In tm' (pending w) ->
  callbackKey tm = callbackKey tm' -> tm = tm'.
Proof.
  intros [Hreg Hnd] Hin Hin' Hk.
  apply (same_handle_same_timer _ _ _ Hnd Hin Hin').
  destruct (Hreg tm Hin) as (H1 & _). destruct (Hreg tm' Hin') as (H1' & _).
  rewrite Hk in H1. congruence.
Qed.

(** Whether a callback writes depends on the document and on the value
    stored under its key. *)
Lemma answers_ext (w w' : World) (tm : Timer) :
  document w' = document w ->
  inputChangeValues (logger w') !! callbackKey tm
  = inputChangeValues (logger w) !! callbackKey tm ->
  answers w' tm = answers w tm.
Proof. intros Hd Hv. unfold answers. rewrite Hd, Hv. reflexivity. Qed.

(** What [log] leaves alone. *)
Lemma log_shape (event : string) (details : Obj) (w w' : World) :
  log event details w = Ok w' ->
  clock w' = clock w /\ document w' = document w /\ ambient w' = ambient w
  /\ isEnabled (logger w') = isEnabled (logger w)
  /\ exists new, emitted w' = emitted w ++ new.
Proof.
  unfold log.
  destruct (logInteraction _ event details (logger w)) as [[this done]|e] eqn:Hcall;
    cbn [Js.bind]; [|discriminate].
  intros [= <-]. cbn.
  destruct (logInteraction_frame _ _ _ _ _ _ Hcall) as (_ & _ & He).
  repeat split; try assumption. eexists. reflexivity.
Qed.

(** What the expiry callback leaves alone. *)
Lemma debounced_frame (key : string) (w w' : World) :
  logDebouncedInputChange key w = Ok w' ->
  clock w' = clock w /\ document w' = document w /\ ambient w' = ambient w
  /\ isEnabled (logger w') = isEnabled (logger w)
  /\ exists new, emitted w' = emitted w ++ new.
Proof.
  unfold logDebouncedInputChange.
  destruct (inputChangeValues (logger w) !! key) as [inputData|];
    [|intros [= <-]; repeat split; exists []; symmetry; apply app_nil_r].
  destruct (Dom.querySelector _ _) as [[target|]|e]; cbn [Js.bind];
    [|intros [= <-]; repeat split; exists []; symmetry; apply app_nil_r|discriminate].
  destruct (log _ _ w) as [w2|e] eqn:Hlog; cbn [Js.bind]; [|discriminate].
  destruct (log_shape _ _ _ _ Hlog) as (Hc & Hd & Ha & He & Hem).
  intros [= <-]. cbn. auto.
Qed.

(** One timer fires: what changes and what does not. *)
Lemma fire_frame (tm : Timer) (w : World) :
  let w' := fire tm w in
  pending w' = List.filter (fun tm' => negb (handle tm' =? handle tm)%nat) (pending w)
  /\ nextHandle w' = nextHandle w
  /\ clock w' = clock w /\ document w' = document w /\ ambient w' = ambient w
  /\ isEnabled (logger w') = isEnabled (logger w)
  /\ (forall k h, inputChangeTimers (logger w') !! k = Some h ->
                  inputChangeTimers (logger w) !! k = Some h)
  /\ (forall k, k <> callbackKey tm ->
        inputChangeValues (logger w') !! k = inputChangeValues (logger w) !! k
        /\ inputChangeTimers (logger w') !! k = inputChangeTimers (logger w) !! k)
  /\ exists new, emitted w' = emitted w ++ new.
Proof.
  unfold fire. set (w1 := clearTimeout (handle tm) w).
  destruct (logDebouncedInputChange (callbackKey tm) w1) as [w2|e] eqn:Hrun.
  - destruct (debounced_shape _ _ _ Hrun) as (Hp & Hn & Hmaps).
    destruct (debounced_frame _ _ _ Hrun) as (Hc & Hd & Ha & He & Hem).
    cbv zeta. rewrite Hp, Hn, Hc, Hd, Ha, He.
    do 6 (split; [reflexivity|]).
    split; [|split; [|exact Hem]].
    + intros k h. destruct Hmaps as [[-> _]|[-> _]]; [auto|].
      intros H. apply lookup_delete_Some in H. apply H.
    + intros k Hk. destruct Hmaps as [[-> ->]|[-> ->]]; [auto|].
      rewrite !lookup_delete_ne by congruence. auto.
  - cbv zeta. do 6 (split; [reflexivity|]).
    split; [auto|]. split; [auto|]. exists []. symmetry. apply app_nil_r.
Qed.

(** One timer fires with logging enabled: it writes one record if its
    callback finds a stored value and an element, none otherwise. *)
Lemma fire_writes (tm : Timer) (w : World) :
  isEnabled (logger w) = true ->
  match inputChangeValues (logger w) !! callbackKey tm with
  | Some inputData =>
      match Dom.querySelector (document w) (fieldName inputData) with
      | Ok (Some found) =>
          emitted (fire tm w)
          = emitted w ++ [input_record w (debounced_details inputData found)]
          /\ inputChangeValues (logger (fire tm w)) !! callbackKey tm = None
          /\ inputChangeTimers (logger (fire tm w)) !! callbackKey tm = None
      | _ => emitted (fire tm w) = emitted w
      end
  | None => emitted (fire tm w) = emitted w
  end.
Proof.
  intros Hen. unfold fire. set (w1 := clearTimeout (handle tm) w).
  destruct (inputChangeValues (logger w) !! callbackKey tm) as [inputData|] eqn:Hv.
  - destruct (Dom.querySelector (document w) (fieldName inputData)) as [[found|]|e] eqn:Hq.
    + destruct (debounced_spec w1 (callbackKey tm) inputData found Hen Hv Hq)
        as (w' & Hrun & Hem & _ & Ht & Hval & _).
      rewrite Hrun. split; [exact Hem|].
      rewrite Hval, Ht, !lookup_delete_eq. auto.
    + rewrite (debounced_not_found w1 (callbackKey tm) inputData Hv Hq). reflexivity.
    + unfold logDebouncedInputChange.
      change (inputChangeValues (logger w1)) with (inputChangeValues (logger w)).
      change (document w1) with (document w).
      rewrite Hv, Hq. reflexivity.
  - unfold logDebouncedInputChange.
    change (inputChangeValues (logger w1)) with (inputChangeValues (logger w)).
    rewrite Hv. reflexivity.
Qed.

Lemma fire_count (tm : Timer) (w : World) :
  isEnabled (logger w) = true ->
  exists new,
    emitted (fire tm w) = emitted w ++ new
    /\ List.length new = List.length (List.filter (answers w) [tm]).
Proof.
  intros Hen. pose proof (fire_writes tm w Hen) as H.
  cbn [List.filter]. unfold answers.
  destruct (inputChangeValues (logger w) !! callbackKey tm) as [inputData|].
  - destruct (Dom.querySelector _ _) as [[found|]|e].
    + destruct H as (H & _). eexists. split; [exact H|reflexivity].
    + exists []. rewrite app_nil_r. auto.
    + exists []. rewrite app_nil_r. auto.
  - exists []. rewrite app_nil_r. auto.
Qed.

(** The timers of [l], all pending and with different keys, fire one
    after the other. *)
Lemma fold_fire_spec (l : list Timer) (w : World) :
  (forall tm, In tm l -> In tm (pending w)) ->
  List.NoDup (map handle l) ->
  List.NoDup (map callbackKey l) ->
  let w' :=
    fold_left
      (fun w tm =>
         if existsb (fun tm' => (handle tm' =? handle tm)%nat) (pending w)
         then fire tm w else w)
      l w in
  pending w'
  = List.filter (fun tm' => negb (existsb (fun tm => (handle tm' =? handle tm)%nat) l))
      (pending w)
  /\ nextHandle w' = nextHandle w
  /\ clock w' = clock w /\ document w' = document w /\ ambient w' = ambient w
  /\ isEnabled (logger w') = isEnabled (logger w)
  /\ (forall k h, inputChangeTimers (logger w') !! k = Some h ->
                  inputChangeTimers (logger w) !! k = Some h)
  /\ (forall k, ~ In k (map callbackKey l) ->
        inputChangeValues (logger w') !! k = inputChangeValues (logger w) !! k
        /\ inputChangeTimers (logger w') !! k = inputChangeTimers (logger w) !! k)
  /\ exists new,
       emitted w' = emitted w ++ new
       /\ (isEnabled (logger w) = true ->
           List.length new = List.length (List.filter (answers w) l)).
Proof.
  revert w. induction l as [|tm rest IH]; intros w Hin Hh Hk.
  - cbn. rewrite filter_all by reflexivity.
    repeat split; auto. exists []. rewrite app_nil_r. auto.
  - cbn [fold_left].
    assert (Hex : existsb (fun tm' => (handle tm' =? handle tm)%nat) (pending w) = true).
    { apply existsb_exists. exists tm. split; [apply Hin; left; reflexivity|].
      apply Nat.eqb_refl. }
    rewrite Hex.
    cbn [map] in Hh, Hk.
    apply List.NoDup_cons_iff in Hh. destruct Hh as [Hh1 Hh2].
    apply List.NoDup_cons_iff in Hk. destruct Hk as [Hk1 Hk2].
    destruct (fire_frame tm w) as (Fp & Fn & Fc & Fd & Fa & Fe & Fsub & Fk & Fem).
    cbv zeta in Fp, Fn, Fc, Fd, Fa, Fe, Fsub, Fk, Fem.
    set (w1 := fire tm w) in *.
    assert (Hin1 : forall tm', In tm' rest -> In tm' (pending w1)).
    { intros tm' H. rewrite Fp. apply filter_In. split; [apply Hin; right; exact H|].
      apply negb_true_iff, Nat.eqb_neq. intros Heq. apply Hh1. rewrite <- Heq.
      apply in_map. exact H. }
    destruct (IH w1 Hin1 Hh2 Hk2) as (Ip & In_ & Ic & Id & Ia & Ie & Isub & Ik & Iem).
    cbv zeta in Ip, In_, Ic, Id, Ia, Ie, Isub, Ik, Iem.
    cbv zeta.
    split.
    { rewrite Ip, Fp, filter_filter_and. apply filter_ext. intros tm'. cbn [existsb].
      rewrite negb_orb. reflexivity. }
    split; [congruence|]. split; [congruence|]. split; [congruence|].
    split; [congruence|]. split; [congruence|].
    split; [intros k h H; apply Fsub, Isub, H|].
    split.
    { intros k Hnot. cbn [map] in Hnot.
      destruct (Ik k) as [I1 I2]; [intros H; apply Hnot; right; exact H|].
      destruct (Fk k) as [F1 F2]; [intros H; apply Hnot; left; symmetry; exact H|].
      split; congruence. }
    destruct Fem as (new1 & Fem). destruct Iem as (new2 & Iem & Ilen).
    exists (new1 ++ new2). split; [rewrite Iem, Fem, app_assoc; reflexivity|].
    intros Hen.
    destruct (fire_count tm w Hen) as (new1' & Fem' & Flen).
    fold w1 in Fem'. rewrite Fem in Fem'. apply app_inv_head in Fem'. subst new1'.
    rewrite length_app, Flen, Ilen by congruence.
    assert (Hsame : List.filter (answers w1) rest = List.filter (answers w) rest).
    { apply filter_ext_in. intros tm' H. apply answers_ext; [exact Fd|].
      apply Fk. intros Heq. apply Hk1. rewrite <- Heq. apply in_map. exact H. }
    rewrite Hsame. cbn [List.filter]. destruct (answers w tm); cbn; lia.
Qed.

(** The event loop is idle for [ms] milliseconds: the timers that are due
    leave the table and fire, each once. *)
Lemma advance_spec (ms : nat) (w : World) :
  consistent w ->
  let w' := advance ms w in
  let due_now := fun tm => (due tm <=? clock w + ms)%nat in
  pending w' = List.filter (fun tm => negb (due_now tm)) (pending w)
  /\ nextHandle w' = nextHandle w
  /\ clock w' = (clock w + ms)%nat /\ document w' = document w /\ ambient w' = ambient w
  /\ isEnabled (logger w') = isEnabled (logger w)
  /\ (forall k h, inputChangeTimers (logger w') !! k = Some h ->
                  inputChangeTimers (logger w) !! k = Some h)
  /\ (forall k, (forall tm, In tm (pending w) -> due_now tm = true -> callbackKey tm <> k) ->
        inputChangeValues (logger w') !! k = inputChangeValues (logger w) !! k
        /\ inputChangeTimers (logger w') !! k = inputChangeTimers (logger w) !! k)
  /\ exists new,
       emitted w' = emitted w ++ new
       /\ (isEnabled (logger w) = true ->
           List.length new
           = List.length (List.filter (answers w) (List.filter due_now (pending w)))).
Proof.
  intros Hc w' due_now. subst w'. unfold advance.
  set (w1 := set_clock (clock w + ms) w).
  change (clock w1) with (clock w + ms)%nat.
  change (pending w1) with (pending w).
  fold due_now.
  set (l := List.filter due_now (pending w)).
  assert (Hl : forall tm, In tm l -> In tm (pending w1)).
  { intros tm H. apply filter_In in H. apply H. }
  destruct (fold_fire_spec l w1 Hl) as (Fp & Fn & Fc & Fd & Fa & Fe & Fsub & Fk & Fem).
  { apply NoDup_map_filter, Hc. }
  { apply NoDup_map_filter, pending_keys_distinct, Hc. }
  cbv zeta in Fp, Fn, Fc, Fd, Fa, Fe, Fsub, Fk, Fem.
  split.
  { rewrite Fp. change (pending w1) with (pending w). apply filter_ext_in.
    intros tm Hin. f_equal.
    destruct (due_now tm) eqn:Hdue.
    - apply existsb_exists. exists tm. split; [|apply Nat.eqb_refl].
      apply filter_In. auto.
    - apply not_true_iff_false. intros Hex. apply existsb_exists in Hex.
      destruct Hex as (tm' & Hin' & Heq). apply Nat.eqb_eq in Heq.
      apply filter_In in Hin'. destruct Hin' as [Hin' Hdue'].
      destruct Hc as [_ Hnd].
      rewrite (same_handle_same_timer _ _ _ Hnd Hin Hin' Heq) in Hdue. congruence. }
  do 6 (split; [assumption|]).
  split.
  { intros k Hk. apply Fk. intros H. apply in_map_iff in H.
    destruct H as (tm & Heq & H). apply filter_In in H.
    apply (Hk tm); tauto. }
  exact Fem.
Qed.

(* ===================================================================== *)
(** ** What every reachable state of the debouncer satisfies *)
(* ===================================================================== *)

Lemma debouncedInputChange_clock (target : Dom.Element) (w : World) :
  clock (debouncedInputChange target w) = clock w.
Proof. unfold debouncedInputChange. destruct (_ !! _); reflexivity. Qed.

Lemma without_timer_of_In (k : string) (w : World) (tm : Timer) :
  In tm (without_timer_of k w) -> In tm (pending w).
Proof.
  unfold without_timer_of. destruct (_ !! k); [|auto].
  intros H. apply filter_In in H. apply H.
Qed.

Lemma blur_step_frame (target : Dom.Element) (w : World) :
  let w' := step (Blur target) w in
  clock w' = clock w /\ document w' = document w /\ ambient w' = ambient w
  /\ isEnabled (logger w') = isEnabled (logger w).
Proof.
  cbn [step]. unfold logInputChangeOnBlur.
  destruct (inputChangeTimers (logger w) !! fieldKey target) as [h|].
  - match goal with
    | |- context [Js.bind (log ?e ?d ?w1) _] =>
        destruct (log e d w1) as [w2|err] eqn:Hlog
    end; cbn [Js.bind].
    + destruct (log_shape _ _ _ _ Hlog) as (Hc & Hd & Ha & He & _).
      cbn. rewrite Hc, Hd, Ha, He. auto.
    + cbn. auto.
  - match goal with
    | |- context [Js.bind (log ?e ?d ?w1) _] =>
        destruct (log e d w1) as [w2|err] eqn:Hlog
    end; cbn [Js.bind].
    + destruct (log_shape _ _ _ _ Hlog) as (Hc & Hd & Ha & He & _).
      cbn. rewrite Hc, Hd, Ha, He. auto.
    + auto.
Qed.

Lemma orderly_input (target : Dom.Element) (w : World) :
  orderly w -> orderly (debouncedInputChange target w).
Proof.
  intros (Hc & Htime & Hbound & Hexcl).
  destruct (debouncedInputChange_shape target w) as (Hp & Hn & Ht & Hv). cbv zeta in *.
  split; [apply consistent_input, Hc|].
  split; [|split].
  - intros tm Hin. rewrite Hp in Hin. apply schedule_In in Hin.
    rewrite debouncedInputChange_clock.
    destruct Hin as [->|Hin]; [cbn; lia|]. apply Htime, (without_timer_of_In _ _ _ Hin).
  - intros k h. rewrite Ht, Hn. intros H. apply lookup_insert_Some in H.
    destruct H as [[_ <-]|[_ H]]; [lia|]. specialize (Hbound _ _ H). lia.
  - intros k tm Hin. rewrite Hp in Hin. apply schedule_In in Hin. rewrite Ht.
    intros H. apply lookup_insert_Some in H.
    destruct Hin as [->|Hin]; cbn [handle callbackKey] in *.
    + destruct H as [[<- _]|[_ H]]; [reflexivity|]. specialize (Hbound _ _ H). lia.
    + destruct (survivor_has_other_key _ _ _ Hc Hin) as [Hin' Hne].
      destruct H as [[_ Heq]|[_ H]].
      * destruct Hc as [Hreg _]. destruct (Hreg tm Hin') as (_ & _ & Hlt). lia.
      * apply (Hexcl k tm Hin' H).
Qed.

Lemma orderly_blur (target : Dom.Element) (w : World) :
  orderly w -> orderly (step (Blur target) w).
Proof.
  intros (Hc & Htime & Hbound & Hexcl).
  destruct (blur_step_shape target w) as (Hp & Hn & Ht & _).
  destruct (blur_step_frame target w) as (Hcl & _).
  cbv zeta in *.
  split; [apply consistent_blur, Hc|].
  split; [|split].
  - intros tm Hin. rewrite Hp in Hin. rewrite Hcl.
    apply Htime, (without_timer_of_In _ _ _ Hin).
  - intros k h. rewrite Ht, Hn. intros H. apply lookup_delete_Some in H.
    apply (Hbound k h), H.
  - intros k tm Hin. rewrite Hp in Hin. rewrite Ht. intros H.
    apply lookup_delete_Some in H.
    apply (Hexcl k tm); [apply (without_timer_of_In _ _ _ Hin)|apply H].
Qed.

Lemma orderly_advance (ms : nat) (w : World) :
  orderly w -> orderly (advance ms w).
Proof.
  intros (Hc & Htime & Hbound & Hexcl).
  destruct (advance_spec ms w Hc) as (Hp & Hn & Hcl & _ & _ & _ & Hsub & _).
  cbv zeta in *.
  split; [apply consistent_advance, Hc|]. split; [|split].
  - intros tm Hin. rewrite Hp in Hin. apply filter_In in Hin. destruct Hin as [_ Hd].
    rewrite Hcl. apply negb_true_iff, Nat.leb_gt in Hd. exact Hd.
  - intros k h H. rewrite Hn. apply (Hbound k h), Hsub, H.
  - intros k tm Hin H. rewrite Hp in Hin. apply filter_In in Hin.
    apply (Hexcl k tm); [apply Hin|apply Hsub, H].
Qed.

Lemma orderly_run (acts : list Action) (w : World) :
  orderly w -> orderly (run acts w).
Proof.
  revert w. induction acts as [|act acts IH]; intros w Ho; [exact Ho|].
  change (run (act :: acts) w) with (run acts (step act w)).
  apply IH. destruct act as [target|target|ms].
  - apply orderly_input, Ho.
  - apply orderly_blur, Ho.
  - apply orderly_advance, Ho.
Qed.

(** The page as the constructor leaves it: no timer pending, no handle in
    the map of timers. *)
Lemma orderly_start (w : World) :
  pending w = [] -> inputChangeTimers (logger w) = ∅ -> orderly w.
Proof.
  intros Hp Ht. unfold orderly, consistent. rewrite Hp, Ht.
  split; [split; [intros tm []|constructor]|].
  split; [intros tm []|]. split; [|intros k tm []].
  intros k h H. rewrite lookup_empty in H. discriminate.
Qed.

Lemma fold_fire_setting (l : list Timer) (w : World) :
  let w' :=
    fold_left
      (fun w tm =>
         if existsb (fun tm' => (handle tm' =? handle tm)%nat) (pending w)
         then fire tm w else w)
      l w in
  isEnabled (logger w') = isEnabled (logger w)
  /\ document w' = document w /\ ambient w' = ambient w.
Proof.
  revert w. induction l as [|tm l IH]; intros w; [cbn; auto|].
  cbn [fold_left]. cbv zeta in *.
  match goal with
  | |- context [fold_left _ l ?w1] => destruct (IH w1) as (H1 & H2 & H3)
  end.
  rewrite H1, H2, H3. destruct (existsb _ _); [|auto].
  destruct (fire_frame tm w) as (_ & _ & _ & Fd & Fa & Fe & _). auto.
Qed.

(** Whether logging is enabled, the document and the browser readings are
    the same throughout. *)
Lemma run_enabled (acts : list Action) (w : World) :
  isEnabled (logger (run acts w)) = isEnabled (logger w)
  /\ document (run acts w) = document w /\ ambient (run acts w) = ambient w.
Proof.
  revert w. induction acts as [|act acts IH]; intros w; [auto|].
  change (run (act :: acts) w) with (run acts (step act w)).
  destruct (IH (step act w)) as (He & Hd & Ha). rewrite He, Hd, Ha.
  destruct act as [target|target|ms].
  - destruct (debouncedInputChange_same_page target w) as (_ & H1 & H2 & H3). auto.
  - destruct (blur_step_frame target w) as (_ & H1 & H2 & H3). auto.
  - cbn [step]. unfold advance.
    apply (fold_fire_setting _ (set_clock (clock w + ms) w)).
Qed.


(* ===================================================================== *)
(** ** Counting what the other fields write *)
(* ===================================================================== *)

Lemma other_fields_schedule (k : string) (tm : Timer) (p : list Timer) :
  callbackKey tm = k -> other_fields k (schedule tm p) = other_fields k p.
Proof.
  intros Hk. unfold other_fields. induction p as [|tm' p IH]; cbn.
  - rewrite Hk, String.eqb_refl. reflexivity.
  - destruct (due tm' <=? due tm)%nat; cbn.
    + rewrite IH. reflexivity.
    + rewrite Hk, String.eqb_refl. reflexivity.
Qed.

Lemma other_fields_without (k : string) (w : World) :
  orderly w -> other_fields k (without_timer_of k w) = other_fields k (pending w).
Proof.
  intros (Hc & _ & _ & Hexcl). unfold without_timer_of.
  destruct (inputChangeTimers (logger w) !! k) as [h|] eqn:Hk; [|reflexivity].
  unfold other_fields. rewrite filter_filter_and. apply filter_ext_in.
  intros tm Hin. destruct (String.eqb_spec (callbackKey tm) k) as [Heq|Hne]; cbn.
  - apply andb_false_r.
  - rewrite andb_true_r. apply negb_true_iff, Nat.eqb_neq. intros Hh. apply Hne.
    apply (Hexcl k tm Hin). rewrite Hh. exact Hk.
Qed.

Lemma other_fields_In (k : string) (p : list Timer) (tm : Timer) :
  In tm (other_fields k p) <-> In tm p /\ callbackKey tm <> k.
Proof.
  unfold other_fields. rewrite filter_In.
  destruct (String.eqb_spec (callbackKey tm) k); cbn; intuition congruence.
Qed.

(** No timer is overdue, so none of another field is due right now. *)
Lemma nothing_owed_now (k : string) (w : World) :
  orderly w -> written_by_others k (clock w) w = [].
Proof.
  intros (_ & Htime & _). unfold written_by_others.
  rewrite (filter_none (fun tm => (due tm <=? clock w)%nat)); [reflexivity|].
  intros tm Hin. apply other_fields_In in Hin. destruct Hin as [Hin _].
  apply Nat.leb_gt, Htime, Hin.
Qed.

(** An input event on [target] arms its key and leaves the other fields
    as they are. *)
Lemma input_step (target : Dom.Element) (w : World) :
  orderly w ->
  let w' := debouncedInputChange target w in
  armed (fieldKey target) target w'
  /\ emitted w' = emitted w /\ clock w' = clock w
  /\ isEnabled (logger w') = isEnabled (logger w)
  /\ document w' = document w /\ ambient w' = ambient w
  /\ forall T, written_by_others (fieldKey target) T w'
               = written_by_others (fieldKey target) T w.
Proof.
  intros Ho.
  destruct (debouncedInputChange_shape target w) as (Hp & Hn & Ht & Hv).
  destruct (debouncedInputChange_same_page target w) as (Hem & Hen & Hd & Ha).
  cbv zeta in *. set (k := fieldKey target) in *.
  split.
  { exists (nextHandle w). rewrite Ht, Hv, Hp, !lookup_insert_eq, debouncedInputChange_clock.
    split; [reflexivity|]. split; [|reflexivity]. apply schedule_In. left. reflexivity. }
  do 5 (split; [first [assumption | apply debouncedInputChange_clock]|]).
  intros T. unfold written_by_others.
  rewrite Hp, other_fields_schedule by reflexivity.
  rewrite (other_fields_without k w Ho).
  apply filter_ext_in. intros tm Hin. apply filter_In in Hin. destruct Hin as [Hin _].
  apply other_fields_In in Hin. destruct Hin as [_ Hne].
  apply answers_ext; [exact Hd|]. rewrite Hv. apply lookup_insert_ne. congruence.
Qed.

(** While [ms] milliseconds pass, the records that the other fields owe by
    [T] are either written or still owed. *)
Lemma others_split (key : string) (ms T : nat) (w : World) :
  consistent w -> (clock w + ms <= T)%nat ->
  (List.length
     (List.filter (answers w)
        (List.filter (fun tm => (due tm <=? clock w + ms)%nat)
           (other_fields key (pending w))))
   + List.length (written_by_others key T (advance ms w))
   = List.length (written_by_others key T w))%nat.
Proof.
  intros Hc HT.
  destruct (advance_spec ms w Hc) as (Hp & _ & _ & Hd & _ & _ & _ & Hk & _).
  cbv zeta in *.
  assert (Hlater : written_by_others key T (advance ms w)
                   = List.filter (answers w)
                       (List.filter (fun tm => (due tm <=? T)%nat)
                          (other_fields key
                             (List.filter (fun tm => negb (due tm <=? clock w + ms)%nat)
                                (pending w))))).
  { unfold written_by_others. rewrite Hp. apply filter_ext_in. intros tm Hin.
    apply filter_In in Hin. destruct Hin as [Hin _].
    apply other_fields_In in Hin. destruct Hin as [Hin _].
    apply filter_In in Hin. destruct Hin as [Hin Hnot].
    apply answers_ext; [exact Hd|]. apply Hk.
    intros tm' Hin' Hdue Heq.
    rewrite (same_key_same_timer w tm' tm Hc Hin' Hin Heq) in Hdue.
    rewrite Hdue in Hnot. discriminate. }
  rewrite Hlater. unfold written_by_others, other_fields.
  rewrite !filter_filter_and. symmetry. apply filter_length_split.
  - intros tm _.
    assert (H1 : (due tm <=? clock w + ms)%nat = true -> (due tm <=? T)%nat = true).
    { intros H. apply Nat.leb_le in H. apply Nat.leb_le. lia. }
    revert H1.
    destruct (negb (callbackKey tm =? key)%string), (due tm <=? clock w + ms)%nat,
      (due tm <=? T)%nat, (answers w tm); cbn; intros H1; try reflexivity;
      specialize (H1 eq_refl); discriminate.
  - intros tm _.
    destruct (negb (callbackKey tm =? key)%string), (due tm <=? clock w + ms)%nat,
      (due tm <=? T)%nat, (answers w tm); reflexivity.
Qed.

(** Time passes and the timer of [key], if one comes due, writes nothing:
    what is written is what the other fields owed. *)
Lemma advance_without_key (key : string) (ms T : nat) (w : World) :
  consistent w -> isEnabled (logger w) = true -> (clock w + ms <= T)%nat ->
  (forall tm, In tm (pending w) -> callbackKey tm = key ->
     (due tm <=? clock w + ms)%nat = true -> answers w tm = false) ->
  exists new,
    emitted (advance ms w) = emitted w ++ new
    /\ (List.length new + List.length (written_by_others key T (advance ms w))
        = List.length (written_by_others key T w))%nat.
Proof.
  intros Hc Hen HT Hkey.
  destruct (advance_spec ms w Hc) as (_ & _ & _ & _ & _ & _ & _ & _ & new & Hem & Hlen).
  exists new. split; [exact Hem|].
  rewrite (Hlen Hen), <- (others_split key ms T w Hc HT). f_equal. f_equal.
  unfold other_fields. rewrite !filter_filter_and. apply filter_ext_in.
  intros tm Hin.
  destruct (String.eqb_spec (callbackKey tm) key) as [Heq|Hne]; cbn; [|reflexivity].
  destruct (due tm <=? clock w + ms)%nat eqn:Hdue; [|reflexivity].
  cbn. apply (Hkey tm Hin Heq Hdue).
Qed.

(** The timers of [l1], then [tmk], then those of [l2] fire; [tmk] finds
    its stored value and its element, so its record stands between what
    the others wrote before and after. *)
Lemma fold_fire_through (l1 l2 : list Timer) (tmk : Timer) (w : World)
    (inputData : InputData) (found : Dom.Element) :
  isEnabled (logger w) = true ->
  (forall tm, In tm (l1 ++ tmk :: l2) -> In tm (pending w)) ->
  List.NoDup (map handle (l1 ++ tmk :: l2)) ->
  List.NoDup (map callbackKey (l1 ++ tmk :: l2)) ->
  inputChangeValues (logger w) !! callbackKey tmk = Some inputData ->
  Dom.querySelector (document w) (fieldName inputData) = Ok (Some found) ->
  let w' :=
    fold_left
      (fun w tm =>
         if existsb (fun tm' => (handle tm' =? handle tm)%nat) (pending w)
         then fire tm w else w)
      (l1 ++ tmk :: l2) w in
  exists before wr after,
    emitted w'
    = emitted w ++ before ++ input_record wr (debounced_details inputData found) :: after
    /\ List.length before = List.length (List.filter (answers w) l1)
    /\ List.length after = List.length (List.filter (answers w) l2)
    /\ inputChangeValues (logger w') !! callbackKey tmk = None
    /\ inputChangeTimers (logger w') !! callbackKey tmk = None.
Proof.
  revert w. induction l1 as [|tm l1 IH]; intros w Hen Hin Hh Hk Hv Hq.
  - cbn [app fold_left map] in *.
    assert (Hex : existsb (fun tm' => (handle tm' =? handle tmk)%nat) (pending w) = true).
    { apply existsb_exists. exists tmk. split; [apply Hin; left; reflexivity|].
      apply Nat.eqb_refl. }
    rewrite Hex.
    apply List.NoDup_cons_iff in Hh. destruct Hh as [Hh1 Hh2].
    apply List.NoDup_cons_iff in Hk. destruct Hk as [Hk1 Hk2].
    pose proof (fire_writes tmk w Hen) as Hw. rewrite Hv, Hq in Hw.
    destruct Hw as (Hem & Hval & Htim).
    destruct (fire_frame tmk w) as (Fp & _ & _ & Fd & _ & Fe & _ & Fk & _).
    cbv zeta in Fp, Fd, Fe, Fk. set (w1 := fire tmk w) in *.
    assert (Hin1 : forall tm', In tm' l2 -> In tm' (pending w1)).
    { intros tm' H. rewrite Fp. apply filter_In. split; [apply Hin; right; exact H|].
      apply negb_true_iff, Nat.eqb_neq. intros Heq. apply Hh1. rewrite <- Heq.
      apply in_map. exact H. }
    destruct (fold_fire_spec l2 w1 Hin1 Hh2 Hk2)
      as (_ & _ & _ & _ & _ & _ & _ & Ik & new2 & Iem & Ilen).
    cbv zeta in Ik, Iem.
    exists [], w, new2. cbn [app List.filter List.length].
    split; [rewrite Iem, Hem, <- app_assoc; reflexivity|].
    split; [reflexivity|].
    split.
    { rewrite Ilen by congruence. f_equal. apply filter_ext_in. intros tm' H.
      apply answers_ext; [exact Fd|]. apply Fk. intros Heq. apply Hk1.
      rewrite <- Heq. apply in_map. exact H. }
    destruct (Ik (callbackKey tmk) Hk1) as [-> ->]. auto.
  - cbn [app fold_left map] in *.
    assert (Hex : existsb (fun tm' => (handle tm' =? handle tm)%nat) (pending w) = true).
    { apply existsb_exists. exists tm. split; [apply Hin; left; reflexivity|].
      apply Nat.eqb_refl. }
    rewrite Hex.
    apply List.NoDup_cons_iff in Hh. destruct Hh as [Hh1 Hh2].
    apply List.NoDup_cons_iff in Hk. destruct Hk as [Hk1 Hk2].
    destruct (fire_frame tm w) as (Fp & _ & _ & Fd & _ & Fe & _ & Fk & _).
    cbv zeta in Fp, Fd, Fe, Fk.
    destruct (fire_count tm w Hen) as (new1 & Fem & Flen).
    set (w1 := fire tm w) in *.
    assert (Hne : forall tm', In tm' (l1 ++ tmk :: l2) -> callbackKey tm' <> callbackKey tm).
    { intros tm' H Heq. apply Hk1. rewrite <- Heq. apply in_map. exact H. }
    assert (Hin1 : forall tm', In tm' (l1 ++ tmk :: l2) -> In tm' (pending w1)).
    { intros tm' H. rewrite Fp. apply filter_In. split; [apply Hin; right; exact H|].
      apply negb_true_iff, Nat.eqb_neq. intros Heq. apply Hh1. rewrite <- Heq.
      apply in_map. exact H. }
    assert (Hk_in : In tmk (l1 ++ tmk :: l2)).
    { apply in_or_app. right. left. reflexivity. }
    destruct (IH w1) as (before & wr & after & Iem & Ib & Ia & Iv & It).
    { congruence. }
    { exact Hin1. }
    { exact Hh2. }
    { exact Hk2. }
    { destruct (Fk (callbackKey tmk) (Hne tmk Hk_in)) as [-> _]. exact Hv. }
    { rewrite Fd. exact Hq. }
    exists (new1 ++ before), wr, after.
    split; [rewrite Iem, Fem, <- !app_assoc; reflexivity|].
    split.
    { rewrite length_app, Flen, Ib. cbn [List.filter].
      assert (Hsame : List.filter (answers w1) l1 = List.filter (answers w) l1).
      { apply filter_ext_in. intros tm' H. apply answers_ext; [exact Fd|].
        apply Fk, Hne. apply in_or_app. left. exact H. }
      rewrite Hsame. destruct (answers w tm); reflexivity. }
    split; [|auto].
    rewrite Ia. f_equal. apply filter_ext_in. intros tm' H.
    apply answers_ext; [exact Fd|]. apply Fk, Hne. apply in_or_app. right. right. exact H.
Qed.

(** A key that is armed has no other timer pending. *)
Lemma armed_timer_is_the_one (key : string) (target : Dom.Element) (w : World)
    (tm : Timer) :
  consistent w -> armed key target w -> In tm (pending w) -> callbackKey tm = key ->
  due tm = (clock w + 500)%nat.
Proof.
  intros Hc (h & _ & Hin & _) Hin' Hk.
  rewrite (same_key_same_timer w tm _ Hc Hin' Hin Hk). reflexivity.
Qed.

(** The delay has passed on an armed key whose element is found: among
    what the other fields write meanwhile stands the one record of the
    key, and the key is forgotten. *)
Lemma settle_step (key : string) (target found : Dom.Element) (delay T : nat)
    (w : World) :
  consistent w -> isEnabled (logger w) = true -> armed key target w ->
  (500 <= delay)%nat -> (clock w + delay <= T)%nat ->
  Dom.querySelector (document w) (fieldName (stored_for target)) = Ok (Some found) ->
  let w' := advance delay w in
  exists before wr after,
    emitted w'
    = emitted w ++ before
        ++ input_record wr (debounced_details (stored_for target) found) :: after
    /\ (List.length before + List.length after
        + List.length (written_by_others key T w')
        = List.length (written_by_others key T w))%nat
    /\ inputChangeValues (logger w') !! key = None
    /\ inputChangeTimers (logger w') !! key = None.
Proof.
  intros Hc Hen (h & Ht & Hin & Hv) Hdelay HT Hq w'.
  pose proof (others_split key delay T w Hc HT) as Hsplit. fold w' in Hsplit.
  subst w'. unfold advance in *.
  set (w1 := set_clock (clock w + delay) w) in *.
  change (clock w1) with (clock w + delay)%nat in *.
  change (pending w1) with (pending w) in *.
  set (tmk := {| handle := h; due := clock w + 500; callbackKey := key |}) in *.
  set (l := List.filter (fun tm => (due tm <=? clock w + delay)%nat) (pending w)) in *.
  assert (Hl : In tmk l).
  { apply filter_In. split; [exact Hin|]. apply Nat.leb_le. cbn. lia. }
  destruct (in_split _ _ Hl) as (l1 & l2 & Hll).
  assert (Hnh : List.NoDup (map handle l)) by apply NoDup_map_filter, Hc.
  assert (Hnk : List.NoDup (map callbackKey l))
    by apply NoDup_map_filter, pending_keys_distinct, Hc.
  assert (Hother : other_fields key l = l1 ++ l2).
  { rewrite Hll in Hnk |- *. rewrite map_app in Hnk. cbn [map] in Hnk.
    apply List.NoDup_remove_2 in Hnk. unfold other_fields.
    rewrite List.filter_app. cbn [List.filter callbackKey tmk].
    rewrite String.eqb_refl. cbn [negb].
    rewrite !filter_all; [reflexivity| |];
      intros tm H; apply negb_true_iff, String.eqb_neq; intros Heq; apply Hnk;
      (cut (In (callbackKey tm) (map callbackKey l1 ++ map callbackKey l2));
       [rewrite Heq; exact (fun x => x)|]);
      apply in_or_app; [right|left]; apply in_map; exact H. }
  destruct (fold_fire_through l1 l2 tmk w1 (stored_for target) found)
    as (before & wr & after & Hem & Hb & Ha & Hval & Htim).
  { exact Hen. }
  { intros tm H. rewrite <- Hll in H. apply filter_In in H. apply H. }
  { rewrite <- Hll. exact Hnh. }
  { rewrite <- Hll. exact Hnk. }
  { exact Hv. }
  { exact Hq. }
  cbv zeta in Hem, Hval, Htim. rewrite <- Hll in Hem, Hval, Htim.
  exists before, wr, after. split; [exact Hem|]. split; [|auto].
  rewrite <- Hsplit. f_equal.
  change (answers w1) with (answers w) in *.
  rewrite Hb, Ha, <- length_app, <- List.filter_app, <- Hother. f_equal. f_equal.
  unfold other_fields, l. rewrite !filter_filter_and. apply filter_ext.
  intros tm. apply andb_comm.
Qed.

(* ===================================================================== *)
(** ** A burst of input events on one field *)
(* ===================================================================== *)

(** The events of a burst after its first: each gap is too short for the
    armed timer, each event arms the key again. *)
Lemma more_inputs_keep_armed (key : string) (rest : list (nat * Dom.Element)) :
  Forall (fun gt => (fst gt < 500)%nat /\ fieldKey (snd gt) = key) rest ->
  forall (target : Dom.Element) (w : World),
    orderly w -> isEnabled (logger w) = true -> armed key target w ->
    let w' := run (flat_map (fun gt => [Wait (fst gt); Input (snd gt)]) rest) w in
    orderly w' /\ isEnabled (logger w') = true
    /\ document w' = document w /\ ambient w' = ambient w
    /\ clock w' = (clock w + elapsed rest)%nat
    /\ armed key (List.last (map snd rest) target) w'
    /\ forall T, (clock w' <= T)%nat ->
         exists new,
           emitted w' = emitted w ++ new
           /\ (List.length new + List.length (written_by_others key T w')
               = List.length (written_by_others key T w))%nat.
Proof.
  induction 1 as [|[gap next] rest [Hgap Hkey] _ IH]; intros target w Ho Hen Harmed.
  - cbn [flat_map map List.last]. unfold elapsed. cbn [map list_sum fold_right].
    change (run [] w) with w. rewrite Nat.add_0_r.
    do 6 (split; [first [assumption | reflexivity]|]).
    intros T _. exists []. rewrite app_nil_r. auto.
  - cbn [flat_map map fst snd app].
    change (run (Wait gap :: Input next :: ?l) w)
      with (run l (debouncedInputChange next (advance gap w))).
    cbn [fst snd] in Hgap, Hkey.
    set (w1 := advance gap w).
    assert (Ho1 : orderly w1) by apply orderly_advance, Ho.
    destruct (advance_spec gap w (proj1 Ho)) as (_ & _ & Hc1 & Hd1 & Ha1 & He1 & _).
    cbv zeta in Hc1, Hd1, Ha1, He1. fold w1 in Hc1, Hd1, Ha1, He1.
    destruct (input_step next w1 Ho1) as (Harmed2 & Hem2 & Hc2 & He2 & Hd2 & Ha2 & Hw2).
    cbv zeta in Harmed2, Hem2, Hc2, He2, Hd2, Ha2, Hw2. rewrite Hkey in Harmed2, Hw2.
    set (w2 := debouncedInputChange next w1) in *.
    destruct (IH next w2) as (Ho' & Hen' & Hd' & Ha' & Hc' & Harmed' & Hcount').
    { apply orderly_input, Ho1. }
    { congruence. }
    { exact Harmed2. }
    cbv zeta in Ho', Hen', Hd', Ha', Hc', Harmed', Hcount'.
    split; [exact Ho'|]. split; [exact Hen'|].
    split; [congruence|]. split; [congruence|].
    split; [rewrite Hc', Hc2, Hc1;
           change (elapsed ((gap, next) :: rest)) with (gap + elapsed rest)%nat; lia|].
    split; [rewrite last_cons_default; exact Harmed'|].
    intros T HT.
    destruct (Hcount' T HT) as (new2 & Hem' & Hlen').
    destruct (advance_without_key key gap T w (proj1 Ho) Hen) as (new1 & Hem1 & Hlen1).
    { rewrite Hc', Hc2, Hc1 in HT. lia. }
    { intros tm Hin Hk Hdue. apply Nat.leb_le in Hdue.
      rewrite (armed_timer_is_the_one key target w tm (proj1 Ho) Harmed Hin Hk) in Hdue.
      lia. }
    fold w1 in Hem1, Hlen1.
    exists (new1 ++ new2). split; [rewrite Hem', Hem2, Hem1, app_assoc; reflexivity|].
    rewrite length_app. rewrite Hw2 in Hlen'. lia.
Qed.

(** After a burst its key is armed with the last value, and all that has
    been written was owed by other fields. *)
Lemma burst_arms (first : Dom.Element) (rest : list (nat * Dom.Element)) (w : World) :
  orderly w -> isEnabled (logger w) = true ->
  Forall (fun gt => (fst gt < 500)%nat /\ fieldKey (snd gt) = fieldKey first) rest ->
  let w' := run (burst first rest) w in
  orderly w' /\ isEnabled (logger w') = true
  /\ document w' = document w /\ ambient w' = ambient w
  /\ clock w' = (clock w + elapsed rest)%nat
  /\ armed (fieldKey first) (last_target first rest) w'
  /\ forall T, (clock w' <= T)%nat ->
       exists new,
         emitted w' = emitted w ++ new
         /\ (List.length new + List.length (written_by_others (fieldKey first) T w')
             = List.length (written_by_others (fieldKey first) T w))%nat.
Proof.
  intros Ho Hen Hrest. unfold burst, last_target.
  change (run (Input first :: ?l) w) with (run l (debouncedInputChange first w)).
  destruct (input_step first w Ho) as (Harmed & Hem & Hc & He & Hd & Ha & Hw).
  cbv zeta in Harmed, Hem, Hc, He, Hd, Ha, Hw.
  set (w1 := debouncedInputChange first w) in *.
  destruct (more_inputs_keep_armed _ rest Hrest first w1)
    as (Ho' & Hen' & Hd' & Ha' & Hc' & Harmed' & Hcount').
  { apply orderly_input, Ho. }
  { congruence. }
  { exact Harmed. }
  cbv zeta in *.
  split; [exact Ho'|]. split; [exact Hen'|].
  split; [congruence|]. split; [congruence|]. split; [congruence|].
  split; [exact Harmed'|].
  intros T HT. destruct (Hcount' T HT) as (new & Hem' & Hlen').
  exists new. rewrite Hem', Hem. split; [reflexivity|]. rewrite <- Hw. exact Hlen'.
Qed.



(** A burst and the delay, the element being found: among what the other
    fields owed by then stands the one record of the expiry; the key is
    forgotten. *)
Lemma burst_then_settle (first found : Dom.Element) (rest : list (nat * Dom.Element))
    (delay : nat) (w : World) :
  orderly w -> isEnabled (logger w) = true ->
  Forall (fun gt => (fst gt < 500)%nat /\ fieldKey (snd gt) = fieldKey first) rest ->
  (500 <= delay)%nat ->
  Dom.querySelector (document w) (fieldName (stored_for (last_target first rest)))
  = Ok (Some found) ->
  let w' := run (burst first rest ++ [Wait delay]) w in
  orderly w' /\ isEnabled (logger w') = true
  /\ inputChangeValues (logger w') !! fieldKey first = None
  /\ inputChangeTimers (logger w') !! fieldKey first = None
  /\ exists before wr after,
       emitted w'
       = emitted w ++ before
           ++ input_record wr
                (debounced_details (stored_for (last_target first rest)) found) :: after
       /\ (List.length before + List.length after)%nat
          = List.length
              (written_by_others (fieldKey first) (clock w + (elapsed rest + delay)) w).
Proof.
  intros Ho Hen Hrest Hdelay Hq w'. subst w'. rewrite run_app.
  change (run [Wait delay] ?x) with (advance delay x).
  destruct (burst_arms first rest w Ho Hen Hrest)
    as (Ho1 & Hen1 & Hd1 & _ & Hc1 & Harmed & Hcount).
  cbv zeta in Ho1, Hen1, Hd1, Hc1, Harmed, Hcount.
  set (w1 := run (burst first rest) w) in *.
  rewrite <- Hd1 in Hq.
  destruct (advance_spec delay w1 (proj1 Ho1)) as (_ & _ & Hcl & _ & _ & He & _).
  cbv zeta in Hcl, He.
  destruct (settle_step _ _ found delay (clock w1 + delay) w1 (proj1 Ho1) Hen1 Harmed
              Hdelay (Nat.le_refl _) Hq)
    as (before & wr & after & Hem & Hlen & Hval & Htim).
  cbv zeta in Hem, Hlen, Hval, Htim.
  split; [apply orderly_advance, Ho1|]. split; [congruence|].
  split; [exact Hval|]. split; [exact Htim|].
  destruct (Hcount (clock w1 + delay)%nat) as (new & Hem1 & Hlen1); [lia|].
  exists (new ++ before), wr, after.
  split; [rewrite Hem, Hem1, <- !app_assoc; reflexivity|].
  rewrite <- Hcl in Hlen at 1.
  rewrite (nothing_owed_now _ _ (orderly_advance delay w1 Ho1)) in Hlen.
  cbn [List.length] in Hlen. rewrite length_app.
  replace (clock w + (elapsed rest + delay))%nat with (clock w1 + delay)%nat by lia.
  lia.
Qed.


(** A blur on a key that has no value stored writes the live value. *)
Lemma blur_of_forgotten_field (blurred : Dom.Element) (w : World) :
  isEnabled (logger w) = true ->
  inputChangeValues (logger w) !! fieldKey blurred = None ->
  emitted (step (Blur blurred) w)
  = emitted w ++ [input_record w (blur_details blurred (Dom.value blurred))].
Proof.
  intros Hen Hnone.
  destruct (blur_spec w blurred Hen) as (w' & Hrun & Hem & _).
  cbn [step]. rewrite Hrun, Hem, Hnone. reflexivity.
Qed.

(** Every state reached from a newly constructed logger is [orderly]. *)
Lemma reached_orderly (page0 : World) (history : list Action) :
  pending page0 = [] -> inputChangeTimers (logger page0) = ∅ ->
  orderly (run history page0).
Proof. intros Hp Ht. apply orderly_run, orderly_start; assumption. Qed.




(** X14: in any state the page reaches from a newly constructed, enabled
    logger, typing into a field, waiting out the delay and then leaving
    the field writes two records for the one edit, provided the document
    holds an element under the stored field name when the timer expires:
    the first on expiry with the last typed value, the second on the blur
    with the live value of the blurred element, since the stored value is
    gone by then.  Whatever else is written meanwhile comes from the
    timers of other fields and lies before the blur's record. *)
Theorem settle_then_blur_writes_two_records (page0 : World) (history : list Action)
    (first : Dom.Element) (rest : list (nat * Dom.Element)) (delay : nat)
    (found blurred : Dom.Element) :
  pending page0 = [] ->
  inputChangeTimers (logger page0) = ∅ ->
  isEnabled (logger page0) = true ->
  Forall (fun gt => (fst gt < 500)%nat /\ fieldKey (snd gt) = fieldKey first) rest ->
  (500 <= delay)%nat ->
  let w := run history page0 in
  Dom.querySelector (document w)
    (fieldName (stored_for (last_target first rest))) = Ok (Some found) ->
  fieldKey blurred = fieldKey first ->
  exists before r1 after r2,
    emitted (run (burst first rest ++ [Wait delay; Blur blurred]) w)
    = emitted w ++ before ++ r1 :: after ++ [r2]
    /\ (List.length before + List.length after)%nat
       = List.length
           (written_by_others (fieldKey first) (clock w + (elapsed rest + delay)) w)
    /\ submit_trigger r1 = JStr "debounced_input"
    /\ inputValue r1 = JStr (shown (Dom.type found) (Dom.value (last_target first rest)))
    /\ submit_trigger r2 = JStr "blur"
    /\ inputValue r2 = JStr (shown (Dom.type blurred) (Dom.value blurred))
    /\ finalValueLength r2 = length_of (Dom.value blurred).
Proof.
  intros Hp Ht Hen0 Hrest Hdelay w Hq Hkey.
  assert (Ho : orderly w) by (apply reached_orderly; assumption).
  assert (Hen : isEnabled (logger w) = true).
  { unfold w. rewrite (proj1 (run_enabled history page0)). exact Hen0. }
  change (burst first rest ++ [Wait delay; Blur blurred])
    with (burst first rest ++ [Wait delay] ++ [Blur blurred]).
  rewrite app_assoc, run_app.
  change (run [Blur blurred] ?x) with (step (Blur blurred) x).
  destruct (burst_then_settle first found rest delay w Ho Hen Hrest Hdelay Hq)
    as (_ & Hen' & Hval & _ & before & wr & after & Hem & Hlen).
  cbv zeta in Hen', Hval, Hem, Hlen.
  rewrite <- Hkey in Hval.
  rewrite (blur_of_forgotten_field blurred _ Hen' Hval), Hem.
  eexists before, _, after, _.
  split; [rewrite <- !app_assoc; cbn [app]; reflexivity|].
  split; [exact Hlen|]. repeat split.
Qed.

Lemma settle_then_blur_writes_two_records_witness :
  exists before r1 after r2,
    emitted (run (burst (street "M") typing_Mus ++ [Wait 500; Blur (street "Mus")])
               password_pending) = before ++ r1 :: after ++ [r2]
    /\ (List.length before + List.length after)%nat = 1%nat
    /\ inputValue r1 = JStr "Mus" /\ inputValue r2 = JStr "Mus".
Proof.
  destruct (settle_then_blur_writes_two_records (page "s" [street ""; password_input ""])
              [Input (password_input "h"); Wait 400] (street "M")
              typing_Mus 500 (street "") (street "Mus"))
    as (before & r1 & after & r2 & He & Hn & _ & H1 & _ & H2 & _).
  - reflexivity.
  - reflexivity.
  - reflexivity.
  - apply typing_Mus_is_a_burst.
  - lia.
  - reflexivity.
  - reflexivity.
  - exists before, r1, after, r2. split; [exact He|]. split; [exact Hn|].
    split; assumption.
Defined.




(* ===================================================================== *)
(** ** The dashboard: drawing, filtering and option lists *)
(* ===================================================================== *)




Lemma matchesSearch_throws_TypeError (searchTerm : string) (log : Obj) (e : JsError) :
  LogViewer.matchesSearch searchTerm log = Throw e -> e = TypeError.
Proof.
  unfold LogViewer.matchesSearch, LogViewer.opt_lower_includes,
    LogViewer.details_lower_includes.
  repeat match goal with
         | |- context [match ?x with _ => _ end] =>
             destruct x; cbn [Js.bind]; try discriminate; try (intros [= <-]; reflexivity)
         end.
Qed.

Lemma filter_with_throws (predicate : Obj -> Result bool) (logs : list Obj) (log : Obj) :
  In log logs ->
  predicate log = Throw TypeError ->
  (forall l e, predicate l = Throw e -> e = TypeError) ->
  LogViewer.filter_with predicate logs = Throw TypeError.
Proof.
  intros Hin Hthrow Honly. induction logs as [|l logs IH]; [destruct Hin|].
  cbn [LogViewer.filter_with].
  destruct (predicate l) as [keep|e] eqn:Hl; cbn [Js.bind].
  - destruct Hin as [->|Hin]; [congruence|]. rewrite (IH Hin). reflexivity.
  - rewrite (Honly l e Hl). reflexivity.
Qed.

(** X17: with a non-empty search term, one stored record without
    [details] whose [event_name], [component], [url] and [route] are absent
    or do not contain the term makes the filter throw a TypeError for the
    whole list, whatever the other records and selections are. *)
Theorem search_throws_on_record_without_details
    (searchTerm selectedAction selectedComponent selectedSession : string)
    (logs : list Obj) (log : Obj) :
  searchTerm <> "" ->
  In log logs ->
  get "details" log = JUndefined ->
  (forall k, In k ["event_name"; "component"; "url"; "route"] ->
             LogViewer.opt_lower_includes (get k log) searchTerm = Ok false) ->
  LogViewer.applyFilters searchTerm selectedAction selectedComponent selectedSession logs
  = Throw TypeError.
Proof.
  intros Hterm Hin Hdet Hmiss.
  unfold LogViewer.applyFilters.
  destruct (String.eqb_spec searchTerm "") as [->|_]; [contradiction|]. cbn [negb].
  rewrite (filter_with_throws _ logs log Hin); [reflexivity| |].
  - unfold LogViewer.matchesSearch.
    rewrite (Hmiss "event_name"), (Hmiss "component"), (Hmiss "url"), (Hmiss "route")
      by (cbn; tauto).
    cbn [Js.bind]. rewrite Hdet. reflexivity.
  - apply matchesSearch_throws_TypeError.
Qed.

Lemma search_throws_on_record_without_details_witness :
  LogViewer.applyFilters "order" "" "" "" [as_object a_click; backend_test_log]
  = Throw TypeError.
Proof.
  apply (search_throws_on_record_without_details "order" "" "" ""
           [as_object a_click; backend_test_log] backend_test_log).
  - discriminate.
  - right. left. reflexivity.
  - reflexivity.
  - intros k [<-|[<-|[<-|[<-|[]]]]]; reflexivity.
Defined.

Lemma filter_with_In (predicate : Obj -> Result bool) (logs kept : list Obj) :
  LogViewer.filter_with predicate logs = Ok kept ->
  forall log, In log kept <-> In log logs /\ predicate log = Ok true.
Proof.
  revert kept. induction logs as [|l logs IH]; cbn [LogViewer.filter_with]; intros kept.
  - intros [= <-] log. cbn. tauto.
  - destruct (predicate l) as [keep|e] eqn:Hl; cbn [Js.bind]; [|discriminate].
    destruct (LogViewer.filter_with predicate logs) as [kept'|e]; cbn [Js.bind];
      [|discriminate].
    intros [= <-] log. specialize (IH kept' eq_refl log).
    destruct keep; cbn [In]; rewrite ?IH; split.
    + intros [<-|[H1 H2]]; auto.
    + intros [[<-|H1] H2]; auto.
    + intros [H1 H2]; auto.
    + intros [[<-|H1] H2]; [congruence|auto].
Qed.

Lemma filter_when_In {A} (on : bool) (f : A -> bool) (l : list A) (x : A) :
  In x (if on then List.filter f l else l) <-> In x l /\ (on = false \/ f x = true).
Proof.
  destruct on; [rewrite filter_In|]; intuition congruence.
Qed.

(** X18: when the filter effect does not throw, the records it shows are
    exactly the stored ones that match the search term, if one is set, and
    carry the selected action, component and session, those that are set,
    as their [event_name], [component] and [session_id]; with no search
    term it never throws. *)
Theorem filters_show_exactly_the_matches
    (searchTerm selectedAction selectedComponent selectedSession : string)
    (logs : list Obj) :
  (forall shown,
     LogViewer.applyFilters searchTerm selectedAction selectedComponent selectedSession
       logs = Ok shown ->
     forall log,
       In log shown <->
       In log logs
       /\ (searchTerm = "" \/ LogViewer.matchesSearch searchTerm log = Ok true)
       /\ (selectedAction = "" \/ get "event_name" log = JStr selectedAction)
       /\ (selectedComponent = "" \/ get "component" log = JStr selectedComponent)
       /\ (selectedSession = "" \/ get "session_id" log = JStr selectedSession))
  /\ (searchTerm = "" ->
      exists shown,
        LogViewer.applyFilters searchTerm selectedAction selectedComponent selectedSession
          logs = Ok shown).
Proof.
  assert (Hstr : forall v s, is_str v s = true <-> v = JStr s).
  { intros v s. destruct v; cbn; try (split; [discriminate|intros [=]]).
    rewrite String.eqb_eq. split; [intros ->; reflexivity|intros [= ->]; reflexivity]. }
  assert (Hon : forall s, negb (String.eqb s "") = false <-> s = "").
  { intros s. rewrite negb_false_iff. apply String.eqb_eq. }
  split.
  - unfold LogViewer.applyFilters. intros shown.
    destruct (negb (String.eqb searchTerm "")) eqn:Hsearch.
    + destruct (LogViewer.filter_with _ logs) as [found|e] eqn:Hfound; cbn [Js.bind];
        [|discriminate].
      intros [= <-] log.
      rewrite !filter_when_In, (filter_with_In _ _ _ Hfound), !Hstr, !Hon.
      assert (searchTerm <> "") by (intros ->; discriminate).
      tauto.
    + cbn [Js.bind]. intros [= <-] log.
      rewrite !filter_when_In, !Hstr, !Hon. apply Hon in Hsearch. tauto.
  - intros ->. unfold LogViewer.applyFilters. cbn. eauto.
Qed.

Lemma filters_show_exactly_the_matches_witness :
  exists shown,
    LogViewer.applyFilters "" "click" "" "" [as_object a_click; backend_test_log]
    = Ok shown /\ shown = [as_object a_click].
Proof.
  destruct (filters_show_exactly_the_matches "" "click" "" ""
              [as_object a_click; backend_test_log]) as [_ H].
  destruct (H eq_refl) as [shown Hshown].
  exists shown. split; [exact Hshown|].
  vm_compute in Hshown. injection Hshown as <-. reflexivity.
Defined.

Lemma distinct_spec (seen values : list string) :
  List.NoDup (LogViewer.distinct seen values)
  /\ forall v, In v (LogViewer.distinct seen values) <-> In v values /\ ~ In v seen.
Proof.
  revert seen. induction values as [|x values IH]; intros seen; cbn.
  - split; [constructor|]. tauto.
  - destruct (existsb (String.eqb x) seen) eqn:E.
    + destruct (IH seen) as [Hnd Hin]. split; [exact Hnd|].
      apply existsb_exists in E. destruct E as (y & Hy & Heq).
      apply String.eqb_eq in Heq. subst y.
      intros v. rewrite Hin. intuition congruence.
    + destruct (IH (x :: seen)) as [Hnd Hin]. split.
      * constructor; [|exact Hnd]. rewrite Hin. cbn. tauto.
      * assert (Hx : ~ In x seen).
        { intros Hx. assert (existsb (String.eqb x) seen = true); [|congruence].
          apply existsb_exists. exists x. split; [exact Hx|apply String.eqb_refl]. }
        intros v. cbn. rewrite Hin. cbn.
        destruct (string_dec x v) as [->|Hne]; intuition congruence.
Qed.

(** X19: the options [getUniqueValues] offers for a field are exactly the
    string values that field has in some stored record, each listed once;
    values that are no strings, and records without the field, add
    nothing. *)
Theorem unique_values_are_the_string_values (field : string) (logs : list Obj) :
  List.NoDup (LogViewer.getUniqueValues field logs)
  /\ forall v,
       In v (LogViewer.getUniqueValues field logs) <->
       exists log, In log logs /\ get field log = JStr v.
Proof.
  unfold LogViewer.getUniqueValues.
  destruct (distinct_spec []
              (omap (fun log => match get field log with JStr s => Some s | _ => None end)
                    logs)) as [Hnd Hin].
  split; [exact Hnd|]. intros v. rewrite Hin.
  rewrite <- list_elem_of_In, list_elem_of_omap.
  split.
  - intros [(log & Hl & Hv) _]. exists log. apply list_elem_of_In in Hl.
    split; [exact Hl|]. destruct (get field log); congruence.
  - intros (log & Hl & Hv). split; [|tauto]. exists log.
    apply list_elem_of_In in Hl. split; [exact Hl|]. rewrite Hv. reflexivity.
Qed.

(* ===================================================================== *)
(** ** What of the user's input reaches a record *)
(* ===================================================================== *)

(** X20: in the current revision a [password] in the payload shows in the
    record through [password_length] and through the stored payload only:
    two payloads that differ in nothing but passwords of equal length get
    the same verdict and records whose properties, except [details], are
    all the same. *)
Theorem password_shows_only_in_length_and_details (a : Ambient) (this : t)
    (event : string) (details1 details2 : Obj) :
  (forall k, k <> "password" -> get k details1 = get k details2) ->
  opt_length (get "password" details1) = opt_length (get "password" details2) ->
  isSystemNoiseEnhanced this event details1 = isSystemNoiseEnhanced this event details2
  /\ forall noiseCheck k,
       k <> "details" ->
       get k (as_object (build a this noiseCheck event details1))
       = get k (as_object (build a this noiseCheck event details2)).
Proof.
  intros Hsame Hlen. split.
  - unfold isSystemNoiseEnhanced, isSystemNoise, http_url_includes.
    rewrite (Hsame "method"), (Hsame "statusCode"), (Hsame "trigger"), (Hsame "url")
      by discriminate.
    reflexivity.
  - intros noiseCheck k Hk. unfold as_object, build.
    cbn [id timestamp event_name attempt_id session_id browser_id route submit_trigger
         client_validation_passed username_length password_length autofill_used
         caps_lock_on perf_submit_latency_ms event_time app_version schema_version
         url userAgent viewport inputName inputType inputValue inputId
         finalValueLength system_noise noise_reason component Interaction.userId
         field_presence_map Interaction.details width height].
    rewrite Hlen.
    rewrite (Hsame "trigger"), (Hsame "validation"), (Hsame "username"),
      (Hsame "autofill"), (Hsame "capsLock"), (Hsame "latency"),
      (Hsame "schema_version"), (Hsame "inputName"), (Hsame "inputType"),
      (Hsame "inputValue"), (Hsame "inputId"), (Hsame "finalValueLength"),
      (Hsame "component"), (Hsame "field_presence_map") by discriminate.
    cbn [get]. apply String.eqb_neq in Hk. rewrite Hk. reflexivity.
Qed.

Lemma password_shows_only_in_length_and_details_witness :
  get "password_length"
    (as_object (build noon (initial "s") not_noise "login_attempt" login_details))
  = get "password_length"
      (as_object (build noon (initial "s") not_noise "login_attempt"
                    [ ("trigger", JStr "submit"); ("username", JStr "alice");
                      ("password", JStr "7654321"); ("schema_version", JStr "login.v1") ])).
Proof.
  apply (password_shows_only_in_length_and_details noon (initial "s") "login_attempt"
           login_details
           [ ("trigger", JStr "submit"); ("username", JStr "alice");
             ("password", JStr "7654321"); ("schema_version", JStr "login.v1") ]).
  - intros k Hk. cbn.
    destruct (String.eqb_spec k "password") as [->|_]; [contradiction|reflexivity].
  - reflexivity.
  - discriminate.
Defined.

(** X21: the first revision of the logger keeps nothing of the payload but
    eight derived values: two payloads with the same [trigger],
    [validation], [autofill], [capsLock], [latency] and [schema] and with
    user names and passwords of equal lengths lead to the same logger and
    the same posted batches.  It, too, returns with fewer than 10 records
    queued after a call it accepts. *)
Theorem revision1_keeps_only_derived_values (a : Ambient) (event : string)
    (details1 details2 : Obj) (this : Revision1.t) :
  (forall k, In k ["trigger"; "validation"; "autofill"; "capsLock"; "latency"; "schema"] ->
             get k details1 = get k details2) ->
  opt_length (get "username" details1) = opt_length (get "username" details2) ->
  opt_length (get "password" details1) = opt_length (get "password" details2) ->
  Revision1.logInteraction a event details1 this
  = Revision1.logInteraction a event details2 this
  /\ (Revision1.isEnabled this = true ->
      (List.length (Revision1.logQueue (fst (Revision1.logInteraction a event details1 this)))
       < Revision1.batchSize)%nat).
Proof.
  intros Hsame Hu Hp.
  assert (Hbuild : Revision1.build a this event details1
                   = Revision1.build a this event details2).
  { unfold Revision1.build. rewrite Hu, Hp.
    rewrite (Hsame "trigger"), (Hsame "validation"), (Hsame "autofill"),
      (Hsame "capsLock"), (Hsame "latency"), (Hsame "schema") by (cbn; tauto).
    reflexivity. }
  split.
  - unfold Revision1.logInteraction. rewrite Hbuild. reflexivity.
  - intros Hen. unfold Revision1.logInteraction. rewrite Hen. cbn [negb].
    cbn [Revision1.logQueue Revision1.set_logQueue].
    rewrite length_app. cbn [List.length].
    destruct (Nat.leb_spec Revision1.batchSize
                (List.length (Revision1.logQueue this) + 1)) as [Hfull|Hroom].
    + unfold Revision1.flushLogs. cbn [Revision1.logQueue Revision1.set_logQueue].
      destruct (Revision1.logQueue this ++ _) eqn:E.
      * destruct (Revision1.logQueue this); discriminate.
      * cbn. unfold Revision1.batchSize. lia.
    + cbn. rewrite length_app. cbn. lia.
Qed.

Lemma revision1_keeps_only_derived_values_witness :
  Revision1.logInteraction noon "login_attempt" login_details
    {| Revision1.sessionId := "s"; Revision1.userId := None;
       Revision1.isEnabled := true; Revision1.logQueue := [] |}
  = Revision1.logInteraction noon "login_attempt"
      [ ("trigger", JStr "submit"); ("username", JStr "carol");
        ("password", JStr "7654321"); ("inputValue", JStr "typed") ]
      {| Revision1.sessionId := "s"; Revision1.userId := None;
         Revision1.isEnabled := true; Revision1.logQueue := [] |}.
Proof.
  apply (revision1_keeps_only_derived_values noon "login_attempt" login_details
           [ ("trigger", JStr "submit"); ("username", JStr "carol");
             ("password", JStr "7654321"); ("inputValue", JStr "typed") ]).
  - intros k [<-|[<-|[<-|[<-|[<-|[<-|[]]]]]]]; reflexivity.
  - reflexivity.
  - reflexivity.
Defined.

(* ===================================================================== *)
(** ** The submit listener *)
(* ===================================================================== *)

(** The value is on record only as filled or not. *)
Definition same_but_value (el1 el2 : Control) : Prop :=
  c_class el1 = c_class el2 /\ c_name el1 = c_name el2 /\ c_id el1 = c_id el2
  /\ c_tagName el1 = c_tagName el2 /\ c_type el1 = c_type el2
  /\ c_required el1 = c_required el2 /\ c_checked el1 = c_checked el2
  /\ filled (c_value el1) = filled (c_value el2).

Lemma notePresence_same (m : Obj) (el1 el2 : Control) :
  same_but_value el1 el2 -> notePresence m el1 = notePresence m el2.
Proof.
  intros (Hc & Hn & Hi & Ht & Hty & _ & Hch & Hf).
  unfold notePresence, presenceName, hasValue.
  rewrite Hc, Hn, Hi, Ht, Hty, Hch, Hf. reflexivity.
Qed.

Lemma presence_fold_same (els1 els2 : list Control) :
  Forall2 same_but_value els1 els2 ->
  forall m, fold_left notePresence els1 m = fold_left notePresence els2 m.
Proof.
  induction 1 as [|el1 el2 els1 els2 Hel _ IH]; intros m; [reflexivity|].
  cbn [fold_left]. rewrite (notePresence_same m el1 el2 Hel). apply IH.
Qed.

Lemma form_elements_same (els1 els2 : list Control) :
  Forall2 same_but_value els1 els2 ->
  map (fun el => JObj [ ("name", JStr (c_name el)); ("type", JStr (c_type el));
                        ("required", of_option_bool (c_required el)) ]) els1
  = map (fun el => JObj [ ("name", JStr (c_name el)); ("type", JStr (c_type el));
                          ("required", of_option_bool (c_required el)) ]) els2.
Proof.
  induction 1 as [|el1 el2 els1 els2 Hel _ IH]; [reflexivity|].
  destruct Hel as (_ & Hn & _ & _ & Hty & Hr & _).
  cbn [map]. rewrite Hn, Hty, Hr, IH. reflexivity.
Qed.

(** X22: the record of a form submission depends on the values in the form
    only through whether each is blank: two forms that agree in id, action
    and method and, control by control, in everything but the text of the
    value, which is blank in both or in neither, give the same payload. *)
Theorem form_submit_hides_values (form1 form2 : Form) :
  f_id form1 = f_id form2 -> f_action form1 = f_action form2 ->
  f_method form1 = f_method form2 ->
  Forall2 same_but_value (f_elements form1) (f_elements form2) ->
  form_submit_details form1 = form_submit_details form2.
Proof.
  intros Hid Hact Hmeth Hels.
  unfold form_submit_details, fieldPresenceMap.
  rewrite Hid, Hact, Hmeth, (form_elements_same _ _ Hels),
    (presence_fold_same _ _ Hels). reflexivity.
Qed.

(** An e-mail and a password field of a login form. *)
Definition login_form (email password : string) : Form :=
  {| f_id := "login"; f_action := "http://localhost:3000/login"; f_method := "post";
     f_elements :=
       [ {| c_class := InputElement; c_name := "email"; c_id := "email";
            c_tagName := "INPUT"; c_type := "email"; c_required := Some true;
            c_value := email; c_checked := false |};
         {| c_class := InputElement; c_name := "password"; c_id := "";
            c_tagName := "INPUT"; c_type := "password"; c_required := Some true;
            c_value := password; c_checked := false |};
         {| c_class := OtherElement; c_name := ""; c_id := ""; c_tagName := "BUTTON";
            c_type := "submit"; c_required := None; c_value := ""; c_checked := false |} ] |}.

Lemma form_submit_hides_values_witness :
  form_submit_details (login_form "alice@example.org" "hunter2")
  = form_submit_details (login_form "bob@example.org" "x").
Proof.
  apply form_submit_hides_values; try reflexivity.
  repeat constructor.
Defined.

Lemma find_app_one {A} (f : A -> bool) (l : list A) (x : A) :
  List.find f (l ++ [x])
  = match List.find f l with
    | Some y => Some y
    | None => if f x then Some x else None
    end.
Proof.
  induction l as [|y l IH]; cbn; [reflexivity|].
  destruct (f y); [reflexivity|exact IH].
Qed.

(** The controls that write under [name] into the presence map. *)
Definition writes_under (name : string) (el : Control) : bool :=
  match c_class el with OtherElement => false | _ => true end
  && String.eqb (presenceName el) name.

Lemma get_notePresence (name : string) (m : Obj) (el : Control) :
  name <> "" -> name <> "__proto__" ->
  get name (notePresence m el)
  = if writes_under name el then JBool (hasValue el) else get name m.
Proof.
  intros Hne Hproto. unfold notePresence, writes_under, assign.
  assert (Hgoal : get name
                    (if negb (String.eqb (presenceName el) "")
                     then if String.eqb (presenceName el) "__proto__" then m
                          else define (presenceName el) (JBool (hasValue el)) m
                     else m)
                  = if String.eqb (presenceName el) name
                    then JBool (hasValue el) else get name m).
  { destruct (String.eqb_spec (presenceName el) name) as [Heq|Hdiff].
    - rewrite Heq.
      destruct (String.eqb_spec name "") as [->|_]; [contradiction|].
      destruct (String.eqb_spec name "__proto__") as [->|_]; [contradiction|].
      cbn [negb]. rewrite get_define, String.eqb_refl. reflexivity.
    - destruct (negb _); [|reflexivity].
      destruct (String.eqb _ "__proto__"); [reflexivity|].
      rewrite get_define.
      destruct (String.eqb_spec name (presenceName el)) as [->|_];
        [contradiction|reflexivity]. }
  destruct (c_class el); cbn [andb]; try exact Hgoal. reflexivity.
Qed.

Lemma presence_fold (name : string) (els : list Control) (m : Obj) :
  name <> "" -> name <> "__proto__" ->
  get name (fold_left notePresence els m)
  = match List.find (writes_under name) (rev els) with
    | Some el => JBool (hasValue el)
    | None => get name m
    end.
Proof.
  intros Hne Hproto. revert m. induction els as [|el els IH]; intros m; [reflexivity|].
  cbn [fold_left rev]. rewrite IH, find_app_one, get_notePresence by assumption.
  destruct (List.find _ (rev els)); [reflexivity|].
  destruct (writes_under name el); reflexivity.
Qed.

Lemma reverse_nonblank (s acc : string) :
  existsb (fun c => negb (is_space c)) (list_ascii_of_string (Js.reverse s acc))
  = existsb (fun c => negb (is_space c)) (list_ascii_of_string s)
    || existsb (fun c => negb (is_space c)) (list_ascii_of_string acc).
Proof.
  revert acc. induction s as [|c s IH]; intros acc; cbn; [reflexivity|].
  rewrite IH. cbn. destruct (is_space c); cbn;
    [reflexivity|rewrite orb_true_r; reflexivity].
Qed.

Lemma trimStart_nonblank (s : string) :
  existsb (fun c => negb (is_space c)) (list_ascii_of_string (trimStart s))
  = existsb (fun c => negb (is_space c)) (list_ascii_of_string s).
Proof.
  induction s as [|c s IH]; cbn; [reflexivity|].
  destruct (is_space c) eqn:E; cbn; [exact IH|]. rewrite E. reflexivity.
Qed.

Lemma trimStart_empty_iff (s : string) :
  trimStart s = "" <->
  existsb (fun c => negb (is_space c)) (list_ascii_of_string s) = false.
Proof.
  induction s as [|c s IH]; cbn; [tauto|].
  destruct (is_space c); cbn; [exact IH|]. split; discriminate.
Qed.

Lemma reverse_empty_iff (s acc : string) : Js.reverse s acc = "" <-> s = "" /\ acc = "".
Proof.
  revert acc. induction s as [|c s IH]; intros acc; cbn; [tauto|].
  rewrite IH. split; [intros [_ H]; discriminate|intros [H _]; discriminate].
Qed.

(** A value counts as filled exactly when it has a unit that is no white
    space. *)
Lemma filled_iff_nonblank (v : string) :
  filled v = existsb (fun c => negb (is_space c)) (list_ascii_of_string v).
Proof.
  unfold filled, trim.
  rewrite <- (trimStart_nonblank v).
  set (s1 := trimStart v).
  assert (H : existsb (fun c => negb (is_space c)) (list_ascii_of_string s1)
              = existsb (fun c => negb (is_space c))
                        (list_ascii_of_string (Js.reverse s1 ""))).
  { rewrite reverse_nonblank. cbn. rewrite orb_false_r. reflexivity. }
  rewrite H. set (s2 := Js.reverse s1 "").
  destruct (existsb _ (list_ascii_of_string s2)) eqn:E.
  - destruct (Js.reverse (trimStart s2) "") eqn:R; [|reflexivity].
    apply reverse_empty_iff in R. destruct R as [R _].
    apply trimStart_empty_iff in R. congruence.
  - apply trimStart_empty_iff in E. rewrite E. reflexivity.
Qed.

(** X23: what the presence map says under a name (other than
    [__proto__]) is the state of the last control of the form that goes by
    that name, by [name], else [id], else lower-cased tag: its [checked]
    flag for a checkbox or radio button, and otherwise whether its value
    has a character that is no white space.  So for a group of radio
    buttons the map tells whether the last one is checked.  A name no
    input, textarea or select goes by is not in the map. *)
Theorem presence_map_reads_last_control (form : Form) (name : string) :
  name <> "" -> name <> "__proto__" ->
  get name (fieldPresenceMap form)
  = match List.find (writes_under name) (rev (f_elements form)) with
    | Some el =>
        JBool (match c_class el with
               | InputElement =>
                   if String.eqb (c_type el) "checkbox" || String.eqb (c_type el) "radio"
                   then c_checked el
                   else existsb (fun c => negb (is_space c))
                                (list_ascii_of_string (c_value el))
               | _ => existsb (fun c => negb (is_space c))
                              (list_ascii_of_string (c_value el))
               end)
    | None => JUndefined
    end.
Proof.
  intros Hne Hproto. unfold fieldPresenceMap.
  rewrite (presence_fold name _ [] Hne Hproto).
  destruct (List.find _ _) as [el|] eqn:Hfind; [|reflexivity].
  apply find_some in Hfind. destruct Hfind as [_ Hw].
  unfold writes_under in Hw. unfold hasValue.
  destruct (c_class el); cbn in Hw; try discriminate;
    rewrite ?filled_iff_nonblank; reflexivity.
Qed.

(** Two radio buttons of one group, the first one checked. *)
Definition radio_form : Form :=
  {| f_id := "pay"; f_action := "http://localhost:3000/pay"; f_method := "post";
     f_elements :=
       [ {| c_class := InputElement; c_name := "method"; c_id := "cash";
            c_tagName := "INPUT"; c_type := "radio"; c_required := Some false;
            c_value := "cash"; c_checked := true |};
         {| c_class := InputElement; c_name := "method"; c_id := "card";
            c_tagName := "INPUT"; c_type := "radio"; c_required := Some false;
            c_value := "card"; c_checked := false |} ] |}.

Lemma presence_map_reads_last_control_witness :
  get "method" (fieldPresenceMap radio_form) = JBool false.
Proof.
  rewrite (presence_map_reads_last_control radio_form "method"); [reflexivity| |];
    discriminate.
Defined.
